(** * TMVA::MethodBDT — boosted decision trees

    A shallow embedding of the boosting, evaluation, ranking and persistence
    code of [tmva/src/MethodBDT.cxx], and the properties its specification
    states about it.

    [Double_t] values are modelled as extended real numbers: arithmetic on
    finite values is exact (rounding and overflow are left out), while the
    IEEE-754 special values, which the code can produce by dividing by an
    accumulator that is zero or by taking the logarithm of zero, are kept.
    Where a property depends on the rounding, the function is embedded once
    more on binary64 numbers (module [Binary64]). *)

From Stdlib Require Import Reals Lra List Bool ZArith Lia String.
From Stdlib Require Import DecimalString DecimalZ DecimalPos ListSet.
From Stdlib Require PrimFloat.
Import ListNotations.

Local Open Scope R_scope.

(* ================================================================== *)
(** ** Double_t *)

Inductive Double_t : Type :=
| Fin (r : R)   (* a finite value *)
| PInf          (* +infinity *)
| NInf          (* -infinity *)
| NaN.          (* not a number *)

(** Sign of a real number, as a three-way comparison with zero. *)
Definition Rsign (x : R) : comparison :=
  if Rlt_dec 0 x then Gt else if Rlt_dec x 0 then Lt else Eq.

(** The infinity of a given sign; a zero sign stands for an invalid
    operation (0 * inf, 0 / 0). *)
Definition signed_inf (s : comparison) : Double_t :=
  match s with Gt => PInf | Lt => NInf | Eq => NaN end.

Definition dneg (x : Double_t) : Double_t :=
  match x with
  | Fin a => Fin (- a)
  | PInf => NInf
  | NInf => PInf
  | NaN => NaN
  end.

Definition dadd (x y : Double_t) : Double_t :=
  match x, y with
  | NaN, _ | _, NaN => NaN
  | Fin a, Fin b => Fin (a + b)
  | PInf, NInf | NInf, PInf => NaN
  | PInf, _ | _, PInf => PInf
  | NInf, _ | _, NInf => NInf
  end.

Definition dsub (x y : Double_t) : Double_t := dadd x (dneg y).

Definition dmul (x y : Double_t) : Double_t :=
  match x, y with
  | NaN, _ | _, NaN => NaN
  | Fin a, Fin b => Fin (a * b)
  | Fin a, PInf | PInf, Fin a => signed_inf (Rsign a)
  | Fin a, NInf | NInf, Fin a => signed_inf (CompOpp (Rsign a))
  | PInf, PInf | NInf, NInf => PInf
  | PInf, NInf | NInf, PInf => NInf
  end.

(** Division.  Every divisor in the code below is an accumulator that
    starts at [+0.] and only ever has values added to it, or a value just
    tested to be [> 0]; such a value is never the negative zero, so a zero
    divisor is the positive zero: [a / 0] is the infinity of the sign of [a],
    and [0 / 0] is NaN. *)
Definition ddiv (x y : Double_t) : Double_t :=
  match x, y with
  | NaN, _ | _, NaN => NaN
  | Fin a, Fin b => if Req_dec_T b 0 then signed_inf (Rsign a) else Fin (a / b)
  | Fin _, (PInf | NInf) => Fin 0
  | PInf, Fin b => if Rlt_dec b 0 then NInf else PInf
  | NInf, Fin b => if Rlt_dec b 0 then PInf else NInf
  | (PInf | NInf), (PInf | NInf) => NaN
  end.

(** [x > y]; every comparison with NaN is false. *)
Definition dgt (x y : Double_t) : bool :=
  match x, y with
  | NaN, _ | _, NaN => false
  | Fin a, Fin b => if Rlt_dec b a then true else false
  | PInf, PInf => false
  | PInf, _ => true
  | _, PInf => false
  | NInf, _ => false
  | Fin _, NInf => true
  end.

(** [log(x)] of <math.h>. *)
Definition dlog (x : Double_t) : Double_t :=
  match x with
  | Fin a => if Rlt_dec 0 a then Fin (ln a)
             else if Rlt_dec a 0 then NaN else NInf
  | PInf => PInf
  | NInf | NaN => NaN
  end.

Definition is_finite (x : Double_t) : bool :=
  match x with Fin _ => true | _ => false end.

(** The real number a finite value stands for (0 for the special values). *)
Definition to_R (x : Double_t) : R :=
  match x with Fin a => a | _ => 0 end.

(** Sum of a list of reals, and the accumulation [s += x] over a vector. *)
Fixpoint Rsum (l : list R) : R :=
  match l with
  | [] => 0
  | x :: l' => x + Rsum l'
  end.

Definition dsum_from (s : Double_t) (l : list Double_t) : Double_t :=
  fold_left dadd l s.

Definition dsum (l : list Double_t) : Double_t := dsum_from (Fin 0) l.

(* ================================================================== *)
(** ** Outcomes of a member function

    A call returns, terminates the process with [exit(code)], or does
    something the source leaves undefined (an [operator[]] beyond the end of
    a vector, the use of a variable after a failed stream extraction); the
    model does not follow an execution beyond that point. *)

Inductive outcome (A : Type) : Type :=
| Ret (a : A)
| Exit (code : Z)
| Undefined.

Arguments Ret {A} a.
Arguments Exit {A} code.
Arguments Undefined {A}.

Definition bind {A B : Type} (m : outcome A) (k : A -> outcome B) : outcome B :=
  match m with
  | Ret a => k a
  | Exit c => Exit c
  | Undefined => Undefined
  end.

Declare Scope outcome_scope.
Delimit Scope outcome_scope with outcome.
Notation "x <- m ;; k" := (bind m (fun x => k))
  (at level 61, m at next level, right associativity) : outcome_scope.
Notation "' pat <- m ;; k" := (bind m (fun x => match x with pat => k end))
  (at level 61, pat pattern, m at next level, right associativity) : outcome_scope.

(** [v[i]] on a [std::vector]. *)
Definition at_index {A : Type} (v : list A) (i : nat) : outcome A :=
  match nth_error v i with
  | Some a => Ret a
  | None => Undefined
  end.

(* ================================================================== *)
(** ** Collaborators of MethodBDT *)

(** TMVA::Event: the input values, the class label and the mutable weight.
    The event sample is a [vector<Event*>] of distinct objects (each one is
    allocated by [InitEventSample]), so updating the events in place through
    the pointers is a map over the list. *)
Module Event.

Record t : Type := mk {
  values : list Double_t;
  IsSignal : bool;
  GetWeight : Double_t
}.

Definition SetWeight (e : t) (w : Double_t) : t :=
  mk (values e) (IsSignal e) w.

End Event.

(** TMVA::DecisionTree, through the two member functions MethodBDT reads a
    built tree with: the score of an event and the per-variable importance. *)
Module DecisionTree.

Record t : Type := mk {
  CheckEvent : Event.t -> bool -> Double_t;
  GetVariableImportance : list Double_t
}.

End DecisionTree.

(** Modelled from the spec: TRandom (TRandom.h, not among the sources).  A
    generator is made from a seed, and each [Rndm()] call yields one value
    in [[0,1)] and the next generator state; the same seed gives the same
    sequence of values. *)
Module TRandom.

Record impl : Type := mk {
  state : Type;
  seed : Z -> state;
  Rndm : state -> R * state;
  Rndm_range : forall s, 0 <= fst (Rndm s) < 1
}.

End TRandom.

(* ================================================================== *)
(** ** MethodBDT *)

Module MethodBDT.

Import Event DecisionTree.

(** The data members the functions below read or write; [fNvar] is what
    [GetNvar()] of the base class returns.  [fBoostWeightHist] and
    [fErrFractHist] point to the two monitoring histograms the training
    constructor books; a [TH1F] or [TH2F] is an object of the ROOT library,
    kept here as the arguments of the [Fill] calls made on it, in their
    order. *)
Record t : Type := mk {
  fForest : list DecisionTree.t;
  fBoostWeights : list Double_t;
  fNTrees : Z;
  fBoostType : string;
  fUseYesNoLeaf : bool;
  fUseWeightedTrees : bool;
  fVariableImportance : list Double_t;
  fBoostWeight : Double_t;
  fErrorFraction : Double_t;
  fNvar : nat;
  fBoostWeightHist : list Double_t;
  fErrFractHist : list (nat * Double_t)
}.

(** The monitoring at the end of [AdaBoost]:
    [fBoostWeightHist->Fill(boostWeight)],
    [fErrFractHist->Fill(fForest.size(), err)], and the assignments to
    [fBoostWeight] and [fErrorFraction]. *)
Definition set_monitor (this : t) (boostWeight err : Double_t) : t :=
  mk (fForest this) (fBoostWeights this) (fNTrees this) (fBoostType this)
     (fUseYesNoLeaf this) (fUseWeightedTrees this) (fVariableImportance this)
     boostWeight err (fNvar this)
     (fBoostWeightHist this ++ [boostWeight])
     (fErrFractHist this ++ [(List.length (fForest this), err)]).

Definition set_importance (this : t) (v : list Double_t) : t :=
  mk (fForest this) (fBoostWeights this) (fNTrees this) (fBoostType this)
     (fUseYesNoLeaf this) (fUseWeightedTrees this) v
     (fBoostWeight this) (fErrorFraction this) (fNvar this)
     (fBoostWeightHist this) (fErrFractHist this).

Definition set_forest (this : t) (n : Z) (forest : list DecisionTree.t)
    (weights : list Double_t) : t :=
  mk forest weights n (fBoostType this)
     (fUseYesNoLeaf this) (fUseWeightedTrees this) (fVariableImportance this)
     (fBoostWeight this) (fErrorFraction this) (fNvar this)
     (fBoostWeightHist this) (fErrFractHist this).

(** *** AdaBoost *)

(** The accumulators of the first loop of [AdaBoost]. *)
Record tally : Type := mkTally {
  sumw : Double_t;
  sumwfalse : Double_t;
  count : Double_t;
  correctSelected : list bool
}.

(** Whether the tree's verdict, score > 0.5, agrees with the event's label. *)
Definition correctly_selected (this : t) (dt : DecisionTree.t) (e : Event.t) : bool :=
  let isSignalType := dgt (CheckEvent dt e (fUseYesNoLeaf this)) (Fin (1 / 2)) in
  Bool.eqb isSignalType (IsSignal e).

(** Body of the first loop. *)
Definition tally_event (this : t) (dt : DecisionTree.t) (a : tally) (e : Event.t) : tally :=
  let sumw' := dadd (sumw a) (GetWeight e) in
  if correctly_selected this dt e then
    mkTally sumw' (sumwfalse a) (count a) (correctSelected a ++ [true])
  else
    mkTally sumw' (dadd (sumwfalse a) (GetWeight e)) (dadd (count a) (Fin 1))
            (correctSelected a ++ [false]).

Definition tally_sample (this : t) (dt : DecisionTree.t) (eventSample : list Event.t) : tally :=
  fold_left (tally_event this dt) eventSample
            (mkTally (Fin 0) (Fin 0) (Fin 0) []).

(** [adaBoostBeta] is the local constant 1, so of the two ways the source
    computes the boost weight only [(1-err)/err] is ever taken; the [pow]
    branch is dead code. *)
Definition boost_weight (err : Double_t) : Double_t :=
  if dgt err (Fin 0) then ddiv (dsub (Fin 1) err) err
  else Fin 1000.

(** Second loop: misclassified events get their weight multiplied by
    [boostWeight]; [newSumw] accumulates the weights as they are now.  The
    first loop pushed one entry onto [correctSelected] per event, so
    [correctSelected[i]] is always within the vector and the default of
    [nth] is never taken. *)
Fixpoint reweight (boostWeight : Double_t) (correct : list bool) (i : nat)
    (es : list Event.t) (newSumw : Double_t) : list Event.t * Double_t :=
  match es with
  | [] => ([], newSumw)
  | e :: es' =>
      let e' := if negb (nth i correct true)
                then SetWeight e (dmul (GetWeight e) boostWeight)
                else e in
      let '(rest, s) := reweight boostWeight correct (S i) es'
                                 (dadd newSumw (GetWeight e')) in
      (e' :: rest, s)
  end.

(** Third loop: [w * sumw / newSumw]. *)
Definition renormalise (num den : Double_t) (es : list Event.t) : list Event.t :=
  map (fun e => SetWeight e (ddiv (dmul (GetWeight e) num) den)) es.

(** [AdaBoost(eventSample, dt)]: the object with its monitoring members
    updated and its monitoring histograms filled, the event sample with the
    new weights, and the value returned. *)
Definition AdaBoost (this : t) (eventSample : list Event.t) (dt : DecisionTree.t)
    : t * list Event.t * Double_t :=
  let a := tally_sample this dt eventSample in
  let err := ddiv (sumwfalse a) (sumw a) in
  let boostWeight := boost_weight err in
  let '(es1, newSumw) :=
    reweight boostWeight (correctSelected a) 0 eventSample (Fin 0) in
  let es2 := renormalise (sumw a) newSumw es1 in
  (set_monitor this boostWeight err, es2, dlog boostWeight).

(** *** Bagging *)

Section WithGenerator.

Variable trandom : TRandom.impl.

(** First loop: one draw per event becomes its weight. *)
Fixpoint draw_weights (st : TRandom.state trandom) (es : list Event.t)
    (newSumw : Double_t) : list Event.t * Double_t :=
  match es with
  | [] => ([], newSumw)
  | e :: es' =>
      let '(newWeight, st') := TRandom.Rndm trandom st in
      let e' := SetWeight e (Fin newWeight) in
      let '(rest, s) := draw_weights st' es' (dadd newSumw (GetWeight e')) in
      (e' :: rest, s)
  end.

(** [Bagging(eventSample, iTree)]: the new sample and the value returned. *)
Definition Bagging (eventSample : list Event.t) (iTree : Z)
    : list Event.t * Double_t :=
  let '(es1, newSumw) :=
    draw_weights (TRandom.seed trandom iTree) eventSample (Fin 0) in
  (renormalise (Fin (INR (List.length eventSample))) newSumw es1, Fin 1).

(** [Boost(eventSample, dt, iTree)] *)
Definition Boost (this : t) (eventSample : list Event.t) (dt : DecisionTree.t)
    (iTree : Z) : outcome (t * list Event.t * Double_t) :=
  if String.eqb (fBoostType this) "AdaBoost" then
    Ret (AdaBoost this eventSample dt)
  else if String.eqb (fBoostType this) "Bagging" then
    let '(es, w) := Bagging eventSample iTree in Ret (this, es, w)
  else Exit 1.

End WithGenerator.

End MethodBDT.

(* ================================================================== *)
(** ** Text streams

    A stream is the sequence of its whitespace-separated words; [>>] takes
    the next word and converts it, [<<] appends words. *)

Module Stream.

Definition token : Type := string.
Definition t : Type := list token.

(** [o << n] for an unsigned integer. *)
Definition print_unsigned (n : nat) : token :=
  NilZero.string_of_int (Z.to_int (Z.of_nat n)).

(** [istr >> s] for a [TString].  At the end of the stream the extraction
    fails and the string is left empty; nothing remains to be read then, so
    every later extraction fails as well.  The code below never uses the
    strings it reads. *)
Definition read_TString (istr : t) : outcome (token * t) :=
  match istr with
  | [] => Ret (EmptyString, [])
  | w :: rest => Ret (w, rest)
  end.

Definition Int_t_min : Z := - 2 ^ 31.
Definition Int_t_max : Z := 2 ^ 31 - 1.

(** [istr >> n] for an [Int_t]: the word has to be a decimal integer that
    fits; otherwise the extraction fails and [n] holds no usable value. *)
Definition read_Int_t (istr : t) : outcome (Z * t) :=
  match istr with
  | [] => Undefined
  | w :: rest =>
      match NilZero.int_of_string w with
      | Some d =>
          let z := Z.of_int d in
          if (Int_t_min <=? z)%Z && (z <=? Int_t_max)%Z then Ret (z, rest)
          else Undefined
      | None => Undefined
      end
  end.

(** How a [Double_t] is written by [<<] (with the stream's precision) and
    read by [>>], and how a decision tree is written by [Print] and read by
    [DecisionTreeNode::ReadRec]; neither is among the sources. *)
Record format : Type := mkFormat {
  print_Double_t : Double_t -> token;
  scan_Double_t : token -> option Double_t;
  Print : DecisionTree.t -> t;
  ReadRec : t -> outcome (DecisionTree.t * t)
}.

Definition read_Double_t (f : format) (istr : t) : outcome (Double_t * t) :=
  match istr with
  | [] => Undefined
  | w :: rest =>
      match scan_Double_t f w with
      | Some x => Ret (x, rest)
      | None => Undefined
      end
  end.

End Stream.

Module Evaluation.

Import Event DecisionTree MethodBDT.
Local Open Scope outcome_scope.

(** *** GetMvaValue *)

(** The loop over the forest, [itree] being the index of the first tree of
    [forest]; the accumulators are [myMVA] and [norm]. *)
Fixpoint mva_loop (this : MethodBDT.t) (ev : Event.t) (forest : list DecisionTree.t)
    (itree : nat) (myMVA norm : Double_t) : outcome (Double_t * Double_t) :=
  match forest with
  | [] => Ret (myMVA, norm)
  | tree :: rest =>
      if fUseWeightedTrees this then
        w <- at_index (fBoostWeights this) itree ;;
        mva_loop this ev rest (S itree)
                 (dadd myMVA (dmul w (CheckEvent tree ev (fUseYesNoLeaf this))))
                 (dadd norm w)
      else
        mva_loop this ev rest (S itree)
                 (dadd myMVA (CheckEvent tree ev (fUseYesNoLeaf this)))
                 (dadd norm (Fin 1))
  end.

(** [GetMvaValue()], [ev] being the current event [Data().Event()]. *)
Definition GetMvaValue (this : MethodBDT.t) (ev : Event.t) : outcome Double_t :=
  '(myMVA, norm) <- mva_loop this ev (fForest this) 0 (Fin 0) (Fin 0) ;;
  Ret (ddiv myMVA norm).

(** *** GetVariableImportance *)

(** [v.resize(n)]: cut to [n] elements, or filled up with [0.]. *)
Definition resize (v : list Double_t) (n : nat) : list Double_t :=
  firstn n v ++ repeat (Fin 0) (n - List.length v).

(** [for i < rel.size(): acc[i] += rel[i]] *)
Fixpoint add_into (acc rel : list Double_t) : outcome (list Double_t) :=
  match rel, acc with
  | [], _ => Ret acc
  | r :: rel', a :: acc' =>
      rest <- add_into acc' rel' ;;
      Ret (dadd a r :: rest)
  | _ :: _, [] => Undefined
  end.

(** The loop [for itree < fNTrees], with [n] iterations left. *)
Fixpoint importance_loop (forest : list DecisionTree.t) (n itree : nat)
    (acc : list Double_t) : outcome (list Double_t) :=
  match n with
  | O => Ret acc
  | S n' =>
      tree <- at_index forest itree ;;
      acc' <- add_into acc (DecisionTree.GetVariableImportance tree) ;;
      importance_loop forest n' (S itree) acc'
  end.

(** [GetVariableImportance()]: the object, whose member
    [fVariableImportance] is updated, and the vector returned. *)
Definition GetVariableImportance (this : MethodBDT.t)
    : outcome (MethodBDT.t * list Double_t) :=
  let v0 := resize (fVariableImportance this) (fNvar this) in
  v1 <- importance_loop (fForest this) (Z.to_nat (fNTrees this)) 0 v0 ;;
  let sum := dsum v1 in
  let v2 := map (fun x => ddiv x sum) v1 in
  Ret (set_importance this v2, v2).

(** [GetVariableImportance(ivar)] *)
Definition GetVariableImportance_of (this : MethodBDT.t) (ivar : nat)
    : outcome (MethodBDT.t * Double_t) :=
  '(this', relativeImportance) <- GetVariableImportance this ;;
  match nth_error relativeImportance ivar with
  | Some x => Ret (this', x)
  | None => Exit 1
  end.

End Evaluation.

Module Persistence.

Import DecisionTree MethodBDT Stream.
Local Open Scope outcome_scope.
Local Open Scope string_scope.

Section WithFormat.

Variable f : Stream.format.

(** The line that announces tree [i], and the tree. *)
Definition tree_record (i : nat) (boostWeight : Double_t) (tree : DecisionTree.t)
    : Stream.t :=
  (["-999"; "*******Tree"; print_unsigned i; "boostWeight";
   print_Double_t f boostWeight] ++ Print f tree)%list.

(** The loop of [WriteWeightsToStream], [i] being the index of the first
    tree of [forest]. *)
Fixpoint write_trees (this : MethodBDT.t) (forest : list DecisionTree.t) (i : nat)
    : outcome Stream.t :=
  match forest with
  | [] => Ret []
  | tree :: rest =>
      w <- at_index (fBoostWeights this) i ;;
      o <- write_trees this rest (S i) ;;
      Ret (tree_record i w tree ++ o)%list
  end.

(** [WriteWeightsToStream(o)]: the words written. *)
Definition WriteWeightsToStream (this : MethodBDT.t) : outcome Stream.t :=
  o <- write_trees this (fForest this) 0 ;;
  Ret (["NTrees="; print_unsigned (List.length (fForest this))] ++ o)%list.

(** The loop of [ReadWeightsFromStream] with [n] iterations left, the
    counter at [i], and the vectors read so far. *)
Fixpoint read_trees (n : nat) (i : Z) (forest : list DecisionTree.t)
    (weights : list Double_t) (istr : Stream.t)
    : outcome (list DecisionTree.t * list Double_t * Stream.t) :=
  match n with
  | O => Ret (forest, weights, istr)
  | S n' =>
      '(iTree, s1) <- read_Int_t istr ;;
      '(_, s2) <- read_TString s1 ;;
      '(boostWeight, s3) <- read_Double_t f s2 ;;
      if negb (iTree =? i)%Z then Exit 1
      else
        '(tree, s4) <- ReadRec f s3 ;;
        read_trees n' (i + 1)%Z (forest ++ [tree])%list
                   (weights ++ [boostWeight])%list s4
  end.

(** [ReadWeightsFromStream(istr)]: the object with the forest read, and
    what is left of the stream.  [fForest] and [fBoostWeights] are
    cleared before the first tree is read. *)
Definition ReadWeightsFromStream (this : MethodBDT.t) (istr : Stream.t)
    : outcome (MethodBDT.t * Stream.t) :=
  '(_, s1) <- read_TString istr ;;
  '(nTrees, s2) <- read_Int_t s1 ;;
  '(_, s3) <- read_TString s2 ;;
  '(_, s4) <- read_TString s3 ;;
  '(forest, weights, rest) <- read_trees (Z.to_nat nTrees) 0 [] [] s4 ;;
  Ret (set_forest this nTrees forest weights, rest).

End WithFormat.

End Persistence.

(* ================================================================== *)
(** ** Quantities the properties are stated with *)

Module Sample.

Import Event MethodBDT.

Definition weights (es : list Event.t) : list Double_t := map GetWeight es.

(** The total weight of a sample. *)
Definition total_weight (es : list Event.t) : Double_t := dsum (weights es).

(** The events a tree classifies wrongly. *)
Definition misclassified (this : MethodBDT.t) (dt : DecisionTree.t)
    (es : list Event.t) : list Event.t :=
  filter (fun e => negb (correctly_selected this dt e)) es.

(** The weight of an event as a real number. *)
Definition weight_R (e : Event.t) : R := to_R (GetWeight e).

Definition finite_weights (es : list Event.t) : Prop :=
  Forall (fun e => is_finite (GetWeight e) = true) es.

Definition nonneg_weights (es : list Event.t) : Prop :=
  Forall (fun e => exists r, GetWeight e = Fin r /\ 0 <= r) es.

Definition total_R (es : list Event.t) : R := Rsum (map weight_R es).

(** The weight of the misclassified events, [sumwfalse]. *)
Definition misclassified_R (this : MethodBDT.t) (dt : DecisionTree.t)
    (es : list Event.t) : R :=
  Rsum (map weight_R (misclassified this dt es)).

(** The error fraction and the boost weight of a round, as real numbers. *)
Definition err_R (this : MethodBDT.t) (dt : DecisionTree.t) (es : list Event.t) : R :=
  misclassified_R this dt es / total_R es.

Definition boost_R (err : R) : R :=
  if Rlt_dec 0 err then (1 - err) / err else 1000.

(** The weight of an event after the second loop of a round with boost
    weight [b]: multiplied by [b] if the event is misclassified. *)
Definition boosted_R (this : MethodBDT.t) (dt : DecisionTree.t) (b : R)
    (e : Event.t) : R :=
  if correctly_selected this dt e then weight_R e else weight_R e * b.

(** An event after the second loop of a round with boost weight [b]. *)
Definition boosted (this : MethodBDT.t) (dt : DecisionTree.t) (b : Double_t)
    (e : Event.t) : Event.t :=
  if correctly_selected this dt e then e
  else SetWeight e (dmul (GetWeight e) b).

(** The sample a round of AdaBoost leaves behind, and the value it returns. *)
Definition AdaBoost_sample (this : MethodBDT.t) (es : list Event.t)
    (dt : DecisionTree.t) : list Event.t :=
  snd (fst (AdaBoost this es dt)).

Definition AdaBoost_result (this : MethodBDT.t) (es : list Event.t)
    (dt : DecisionTree.t) : Double_t :=
  snd (AdaBoost this es dt).

(** The values the first [n] calls of [Rndm()] yield from state [st]. *)
Fixpoint draws (g : TRandom.impl) (st : TRandom.state g) (n : nat) : list R :=
  match n with
  | O => []
  | S n' => let '(x, st') := TRandom.Rndm g st in x :: draws g st' n'
  end.

(** The raw weights a round of Bagging with index [iTree] draws for a
    sample of [n] events. *)
Definition raw_weights (g : TRandom.impl) (iTree : Z) (n : nat) : list R :=
  draws g (TRandom.seed g iTree) n.

(** The events with their weights replaced, one by one. *)
Fixpoint with_weights (es : list Event.t) (ws : list Double_t) : list Event.t :=
  match es, ws with
  | e :: es', w :: ws' => SetWeight e w :: with_weights es' ws'
  | _, _ => []
  end.

(** The sample a round of Bagging leaves behind. *)
Definition Bagging_sample (g : TRandom.impl) (es : list Event.t) (iTree : Z)
    : list Event.t :=
  fst (Bagging g es iTree).

End Sample.

(** The text [WriteWeightsToStream] produces, and what
    [ReadWeightsFromStream] needs of the format. *)
Module Layout.

Import Stream Persistence.
Local Open Scope string_scope.

(** A tree with the index and the round weight its record declares. *)
Definition entry : Type := nat * Double_t * DecisionTree.t.

Definition declared (entries : list entry) : list nat :=
  map (fun e => fst (fst e)) entries.

Definition records (f : Stream.format) (entries : list entry) : Stream.t :=
  flat_map (fun e => tree_record f (fst (fst e)) (snd (fst e)) (snd e)) entries.

(** A weight file with one record per entry. *)
Definition stream_of (f : Stream.format) (entries : list entry) : Stream.t :=
  (["NTrees="; print_unsigned (List.length entries)] ++ records f entries)%list.

(** The entries of a forest, numbered from [i]. *)
Fixpoint numbered (i : nat) (weights : list Double_t) (forest : list DecisionTree.t)
    : list entry :=
  match weights, forest with
  | w :: weights', tree :: forest' => (i, w, tree) :: numbered (S i) weights' forest'
  | _, _ => []
  end.

(** A stream without the two words that announce a tree, if it starts
    with them. *)
Definition drop_marker (s : Stream.t) : Stream.t :=
  match s with
  | a :: b :: rest =>
      if String.eqb a "-999" && String.eqb b "*******Tree" then rest else s
  | _ => s
  end.

(** [ReadWeightsFromStream] reads the announcement of the first tree only;
    it relies on [ReadRec] to read a tree that [Print] wrote and, with it,
    the announcement of the tree after it. *)
Definition tree_readable (f : Stream.format) (tree : DecisionTree.t) : Prop :=
  forall rest : Stream.t,
    ReadRec f (Print f tree ++ rest)%list = Ret (tree, drop_marker rest).

(** [w'] is what a weight [w] reads back as, once written. *)
Definition stored (f : Stream.format) (w w' : Double_t) : Prop :=
  scan_Double_t f (print_Double_t f w) = Some w'.

Definition readable_entry (f : Stream.format) (e : entry) : Prop :=
  (Z.of_nat (fst (fst e)) <= Int_t_max)%Z /\
  (exists w', stored f (snd (fst e)) w') /\
  tree_readable f (snd e).

End Layout.

Module Ensemble.

Import DecisionTree MethodBDT.

(** The scores the trees of the forest give an event. *)
Definition scores (this : MethodBDT.t) (ev : Event.t) : list Double_t :=
  map (fun tree => CheckEvent tree ev (fUseYesNoLeaf this)) (fForest this).

(** The products [roundWeight_i * treeScore_i]. *)
Definition weighted_terms (ws ss : list Double_t) : list Double_t :=
  map (fun p => dmul (fst p) (snd p)) (combine ws ss).

Definition Rdot (ws ss : list R) : R :=
  Rsum (map (fun p => fst p * snd p) (combine ws ss)).

End Ensemble.

Module Importance.

Import DecisionTree MethodBDT.

(** What a tree has to report as its variable importance: one finite,
    non-negative number per input variable. *)
Definition tree_contract (nvar : nat) (tree : DecisionTree.t) : Prop :=
  List.length (GetVariableImportance tree) = nvar /\
  Forall (fun x => exists r, x = Fin r /\ 0 <= r) (GetVariableImportance tree).

Definition tree_importance_R (tree : DecisionTree.t) : list R :=
  map to_R (GetVariableImportance tree).

(** Element-wise sum of two vectors. *)
Definition vsum (a b : list R) : list R :=
  map (fun p => fst p + snd p) (combine a b).

(** The element-wise sum of the trees' importance vectors, on top of [a]. *)
Definition summed_from (a : list R) (forest : list DecisionTree.t) : list R :=
  fold_left (fun acc tree => vsum acc (tree_importance_R tree)) forest a.

Definition summed_importance (nvar : nat) (forest : list DecisionTree.t) : list R :=
  summed_from (repeat 0 nvar) forest.

(** An object on which [GetVariableImportance] has not been called since
    it was constructed, and whose [fNTrees] trees all keep the contract. *)
Definition fresh (this : MethodBDT.t) : Prop :=
  fVariableImportance this = [] /\
  fNTrees this = Z.of_nat (List.length (fForest this)) /\
  Forall (tree_contract (fNvar this)) (fForest this).

End Importance.

(** [GetVariableImportance()] once more, with [Double_t] read as the
    binary64 numbers of IEEE 754 and the operations rounding to nearest,
    for what depends on the rounding.  Of the object only the member
    [fVariableImportance], [GetNvar()], [fNTrees] and the forest matter; a
    tree is given by the vector its [GetVariableImportance()] returns. *)
Module Binary64.

Import PrimFloat.
Local Open Scope float_scope.
Local Open Scope outcome_scope.

(** [v.resize(n)]: cut to [n] elements, or filled up with [0.]. *)
Definition resize (v : list float) (n : nat) : list float :=
  firstn n v ++ repeat 0 (n - List.length v).

(** [for i < rel.size(): acc[i] += rel[i]] *)
Fixpoint add_into (acc rel : list float) : outcome (list float) :=
  match rel, acc with
  | [], _ => Ret acc
  | r :: rel', a :: acc' =>
      rest <- add_into acc' rel' ;;
      Ret (a + r :: rest)
  | _ :: _, [] => Undefined
  end.

(** The loop [for itree < fNTrees], with [n] iterations left. *)
Fixpoint importance_loop (forest : list (list float)) (n itree : nat)
    (acc : list float) : outcome (list float) :=
  match n with
  | O => Ret acc
  | S n' =>
      relativeImportance <- at_index forest itree ;;
      acc' <- add_into acc relativeImportance ;;
      importance_loop forest n' (S itree) acc'
  end.

(** [GetVariableImportance()]: the vector returned, which is also what is
    left in the member. *)
Definition GetVariableImportance (fVariableImportance : list float) (fNvar : nat)
    (fNTrees : Z) (fForest : list (list float)) : outcome (list float) :=
  let v0 := resize fVariableImportance fNvar in
  v1 <- importance_loop fForest (Z.to_nat fNTrees) 0 v0 ;;
  let sum := fold_left add v1 0 in
  Ret (map (fun x => x / sum) v1).

(** Entry by entry, whether the entry of [a] is less than that of [b]. *)
Definition map2_ltb (a b : list float) : list bool :=
  map (fun p => ltb (fst p) (snd p)) (combine a b).

End Binary64.

(** Small concrete objects the properties are exercised on. *)
Module Fixture.

(** An object as the constructor leaves it, AdaBoost being the default. *)
Definition bdt : MethodBDT.t :=
  MethodBDT.mk [] [] 0 "AdaBoost" true true [] (Fin 0) (Fin 0) 0 [] [].

(** A tree that calls every event signal, and one that calls every event
    background. *)
Definition all_signal : DecisionTree.t :=
  DecisionTree.mk (fun _ _ => Fin 1) [].

Definition all_background : DecisionTree.t :=
  DecisionTree.mk (fun _ _ => Fin 0) [].

(** A generator whose every draw is 0, the least value of [[0,1)]. *)
Definition zero_generator : TRandom.impl :=
  TRandom.mk unit (fun _ => tt) (fun _ => (0, tt))
             (fun _ => conj (Rle_refl 0) Rlt_0_1).

Lemma harmonic_range (n : nat) : 0 <= fst (1 / (INR n + 2), S n) < 1.
Proof.
  simpl. pose proof (pos_INR n) as Hn.
  assert (Hd : 0 < INR n + 2) by lra.
  split.
  - apply Rlt_le. apply Rdiv_lt_0_compat; lra.
  - apply (Rmult_lt_reg_r (INR n + 2)); [exact Hd |].
    unfold Rdiv. rewrite Rmult_assoc, Rinv_l by lra. lra.
Qed.

(** A generator that, seeded with [k], draws 1/(k+2), 1/(k+3), ... *)
Definition harmonic_generator : TRandom.impl :=
  TRandom.mk nat Z.to_nat (fun n => (1 / (INR n + 2), S n)) harmonic_range.

(** A tree that gives every event the score [s] and reports the
    importance vector [imp]. *)
Definition constant_tree (s : R) (imp : list R) : DecisionTree.t :=
  DecisionTree.mk (fun _ _ => Fin s) (map Fin imp).

(** An object holding a forest with its round weights, for [nvar] input
    variables, whose importance vector has not been asked for yet. *)
Definition with_forest (weighted : bool) (forest : list DecisionTree.t)
    (weights : list R) (nvar : nat) : MethodBDT.t :=
  MethodBDT.mk forest (map Fin weights) (Z.of_nat (List.length forest))
               "AdaBoost" true weighted [] (Fin 0) (Fin 0) nvar [] [].

(** A text format that writes every weight as 1 and every tree as the
    single word leaf, and reads every tree as [leaf]. *)
Definition leaf : DecisionTree.t := constant_tree 1 [].

Definition leaf_format : Stream.format :=
  Stream.mkFormat
    (fun _ => "1"%string) (fun _ => Some (Fin 1))
    (fun _ => ["leaf"%string])
    (fun s => match s with
              | [] => Undefined
              | _ :: rest => Ret (leaf, Layout.drop_marker rest)
              end).

(** A text format like [leaf_format], that reads every tree as [tree]. *)
Definition constant_format (tree : DecisionTree.t) : Stream.format :=
  Stream.mkFormat
    (fun _ => "1"%string) (fun _ => Some (Fin 1))
    (fun _ => ["leaf"%string])
    (fun s => match s with
              | [] => Undefined
              | _ :: rest => Ret (tree, Layout.drop_marker rest)
              end).

Definition signal (w : R) : Event.t := Event.mk [] true (Fin w).
Definition background (w : R) : Event.t := Event.mk [] false (Fin w).

End Fixture.

(* ================================================================== *)
(** ** Training *)

(** The part of a MethodBDT object that [InitEventSample] and [Train] work
    on besides the forest: the event sample and the monitoring counters. *)
Module Training.

Import Event DecisionTree MethodBDT.
Local Open Scope outcome_scope.

(** What the base class and the tree builder contribute.  [grow sample] is
    the tree that [new DecisionTree(fSepType, fNodeMinEvents, fNCuts)]
    becomes by [SetPruneStrength], [BuildTree(sample)] and [PruneTree()],
    with the node counts [BuildTree] and [CountNodes] return. *)
Record collaborators : Type := mkCollaborators {
  trandom : TRandom.impl;
  CheckSanity : bool;
  HasTrainingTree : bool;
  grow : list Event.t -> DecisionTree.t * Z * Z
}.

Record t : Type := mk {
  bdt : MethodBDT.t;
  fEventSample : list Event.t;
  fSignalFraction : Double_t;
  fNnodes : Z;
  fITree : Z
}.

(** [fForest.push_back(tree)] and [fBoostWeights.push_back(w)] *)
Definition push_tree (this : MethodBDT.t) (tree : DecisionTree.t) : MethodBDT.t :=
  set_forest this (fNTrees this) (fForest this ++ [tree]) (fBoostWeights this).

Definition push_weight (this : MethodBDT.t) (w : Double_t) : MethodBDT.t :=
  set_forest this (fNTrees this) (fForest this) (fBoostWeights this ++ [w]).

(** [a + b] and [a / b] on [Int_t]: overflow and division by zero are
    undefined. *)
Definition add_Int_t (a b : Z) : outcome Z :=
  let c := (a + b)%Z in
  if (Stream.Int_t_min <=? c)%Z && (c <=? Stream.Int_t_max)%Z then Ret c
  else Undefined.

Definition div_Int_t (a b : Z) : outcome Z :=
  if (b =? 0)%Z then Undefined
  else if (a =? Stream.Int_t_min)%Z && (b =? -1)%Z then Undefined
  else Ret (Z.quot a b).

(** The event as [InitEventSample] stores it: the weight of a background
    event is scaled if [fSignalFraction > 0]. *)
Definition stored_event (fraction : Double_t) (e : Event.t) : Event.t :=
  if dgt fraction (Fin 0) then
    if negb (IsSignal e) then SetWeight e (dmul fraction (GetWeight e)) else e
  else e.

(** [InitEventSample()], [training] being the events of the training tree
    in the order [ReadTrainingEvent] delivers them. *)
Definition InitEventSample (c : collaborators) (training : list Event.t) (this : t)
    : outcome t :=
  if negb (HasTrainingTree c) then Exit 1
  else
    Ret (mk (bdt this)
            (fold_left (fun sample e => sample ++ [stored_event (fSignalFraction this) e])
                       training (fEventSample this))
            (fSignalFraction this) (fNnodes this) (fITree this)).

(** The loop of [Train] with [n] iterations left, the counter at [itree]
    and the two sums of node counts. *)
Fixpoint train_loop (c : collaborators) (n : nat) (itree : Z) (this : t)
    (nNodesBeforePruning nNodesAfterPruning : Z) : outcome (t * Z * Z) :=
  match n with
  | O => Ret (this, nNodesBeforePruning, nNodesAfterPruning)
  | S n' =>
      let '(tree, built, pruned) := grow c (fEventSample this) in
      let this1 := push_tree (bdt this) tree in
      before <- add_Int_t nNodesBeforePruning built ;;
      after <- add_Int_t nNodesAfterPruning pruned ;;
      r <- Boost (trandom c) this1 (fEventSample this) tree itree ;;
      let '(this2, sample, w) := r in
      train_loop c n' (itree + 1)%Z
                 (mk (push_weight this2 w) sample (fSignalFraction this) pruned itree)
                 before after
  end.

(** [Train()].  The averages of the node counts are only printed, but
    computing them divides by [fNTrees]. *)
Definition Train (c : collaborators) (this : t) : outcome t :=
  if negb (CheckSanity c) then Exit 1
  else
    r <- train_loop c (Z.to_nat (fNTrees (bdt this))) 0 this 0 0 ;;
    let '(this', before, after) := r in
    _ <- div_Int_t before (fNTrees (bdt this)) ;;
    _ <- div_Int_t after (fNTrees (bdt this)) ;;
    Ret this'.

(** The object with the aggregation mode set. *)
Definition set_weighted (this : MethodBDT.t) (weighted : bool) : MethodBDT.t :=
  MethodBDT.mk (fForest this) (fBoostWeights this) (fNTrees this) (fBoostType this)
               (fUseYesNoLeaf this) weighted (fVariableImportance this)
               (fBoostWeight this) (fErrorFraction this) (fNvar this)
               (fBoostWeightHist this) (fErrFractHist this).

(** The object with the boost type set. *)
Definition set_boost_type (this : MethodBDT.t) (type : string) : MethodBDT.t :=
  MethodBDT.mk (fForest this) (fBoostWeights this) (fNTrees this) type
               (fUseYesNoLeaf this) (fUseWeightedTrees this) (fVariableImportance this)
               (fBoostWeight this) (fErrorFraction this) (fNvar this)
               (fBoostWeightHist this) (fErrFractHist this).

End Training.

(** [CreateRanking()] *)
Module Ranking.

Import MethodBDT.
Local Open Scope outcome_scope.

(** A [Rank]: the expression of an input variable and its importance. *)
Definition Rank : Type := (string * Double_t)%type.

(** The loop [for ivar < GetNvar()], with [n] iterations left. *)
Fixpoint add_ranks (GetInputExp : nat -> string) (importance : list Double_t)
    (n ivar : nat) (ranking : list Rank) : outcome (list Rank) :=
  match n with
  | O => Ret ranking
  | S n' =>
      x <- at_index importance ivar ;;
      add_ranks GetInputExp importance n' (S ivar) (ranking ++ [(GetInputExp ivar, x)])
  end.

Definition CreateRanking (GetInputExp : nat -> string) (this : MethodBDT.t)
    : outcome (MethodBDT.t * list Rank) :=
  r <- Evaluation.GetVariableImportance this ;;
  let '(this', importance) := r in
  ranking <- add_ranks GetInputExp importance (fNvar this') 0 [] ;;
  Ret (this', ranking).

End Ranking.

(** Collaborators and objects the training is exercised on. *)
Module TrainingFixture.

(** A builder whose every tree calls every event signal and has three nodes
    before pruning and one after. *)
Definition stump_builder : Training.collaborators :=
  Training.mkCollaborators Fixture.harmonic_generator true true
                           (fun _ => (Fixture.all_signal, 3%Z, 1%Z)).

(** An object set up for two rounds of the given boost type on two events. *)
Definition two_rounds (type : string) : Training.t :=
  Training.mk (MethodBDT.mk [] [] 2 type true true [] (Fin 0) (Fin 0) 0 [] [])
              [Fixture.signal 3; Fixture.background 1] (Fin (-1)) 0 0.

End TrainingFixture.

(* ================================================================== *)
(** ** TDFInterfaceUtils: column names *)

(** The functions of [tree/treeplayer/src/TDFInterfaceUtils.cxx] that work
    on lists of column names.  A [TTree] enters through the list
    [GetBranchNames] yields for it, a data source through its column names,
    an alias map through its pairs of alias and column name. *)
Module TDF.

Local Open Scope string_scope.

Definition ColumnNames_t : Type := list string.

(** The [std::runtime_error]s thrown, by the place that throws. *)
Inductive runtime_error : Type :=
| DefaultsTooShort (nRequiredNames size : nat)
| WrongNumberOfNames (nRequiredNames : nat) (names : ColumnNames_t)
| UnknownColumns (unknownColumns : ColumnNames_t).

Inductive result (A : Type) : Type :=
| Ok (a : A)
| Throw (e : runtime_error).

Arguments Ok {A} a.
Arguments Throw {A} e.

(** [std::find(v.begin(), v.end(), x) != v.end()] *)
Definition contains (v : ColumnNames_t) (x : string) : bool :=
  existsb (String.eqb x) v.

(** [if (reg.insert(x).second) names.push_back(x)] on a [std::set] used as
    a registry and the vector that keeps the order. *)
Definition register (reg : ListSet.set string) (names : ColumnNames_t) (x : string)
    : ListSet.set string * ColumnNames_t :=
  if ListSet.set_mem string_dec x reg then (reg, names)
  else (ListSet.set_add string_dec x reg, names ++ [x])%list.

(** [UpdateList(bNamesReg, bNames, branchName, friendName)] *)
Definition UpdateList (bNamesReg : ListSet.set string) (bNames : ColumnNames_t)
    (branchName friendName : string) : ListSet.set string * ColumnNames_t :=
  let '(reg1, names1) :=
    match friendName with
    | EmptyString => (bNamesReg, bNames)
    | _ => register bNamesReg bNames (friendName ++ "." ++ branchName)
    end in
  register reg1 names1 branchName.

(** The registry holds the names of the vector, each once. *)
Definition registry_of (reg : ListSet.set string) (names : ColumnNames_t) : Prop :=
  NoDup names /\ forall x : string, ListSet.set_In x reg <-> In x names.

(** [SelectColumns(nRequiredNames, names, defaultNames)] *)
Definition SelectColumns (nRequiredNames : nat) (names defaultNames : ColumnNames_t)
    : result ColumnNames_t :=
  match names with
  | [] =>
      if (List.length defaultNames <? nRequiredNames)%nat then
        Throw (DefaultsTooShort nRequiredNames (List.length defaultNames))
      else Ok (firstn nRequiredNames defaultNames)
  | _ =>
      if negb (List.length names =? nRequiredNames)%nat then
        Throw (WrongNumberOfNames nRequiredNames names)
      else Ok names
  end.

(** Whether the loop of [FindUnknownColumns] skips a column. *)
Definition is_known (tree : option ColumnNames_t)
    (definedCols dataSourceColumns : ColumnNames_t) (column : string) : bool :=
  let isBranch :=
    match tree with
    | Some branchNames => contains branchNames column
    | None => false
    end in
  if isBranch then true
  else if contains definedCols column then true
  else contains dataSourceColumns column.

(** [FindUnknownColumns(requiredCols, tree, definedCols, dataSourceColumns)] *)
Definition FindUnknownColumns (requiredCols : ColumnNames_t)
    (tree : option ColumnNames_t) (definedCols dataSourceColumns : ColumnNames_t)
    : ColumnNames_t :=
  fold_left (fun unknownColumns column =>
               if is_known tree definedCols dataSourceColumns column
               then unknownColumns
               else (unknownColumns ++ [column])%list)
            requiredCols [].

(** [aliasMap.find(colName)] on a [std::map] given by its pairs. *)
Fixpoint find_alias (aliasMap : list (string * string)) (colName : string)
    : option string :=
  match aliasMap with
  | [] => None
  | (alias, column) :: rest =>
      if String.eqb alias colName then Some column else find_alias rest colName
  end.

(** What [GetValidatedColumnNames] asks the loop manager. *)
Record TLoopManager : Type := mkLoopManager {
  GetDefaultColumnNames : ColumnNames_t;
  GetTree : option ColumnNames_t;
  GetAliasMap : list (string * string)
}.

(** [GetValidatedColumnNames(lm, nColumns, columns, validCustomColumns, ds)],
    [ds] being the column names of the data source, if there is one. *)
Definition GetValidatedColumnNames (lm : TLoopManager) (nColumns : nat)
    (columns validCustomColumns : ColumnNames_t) (ds : option ColumnNames_t)
    : result ColumnNames_t :=
  match SelectColumns nColumns columns (GetDefaultColumnNames lm) with
  | Throw e => Throw e
  | Ok selectedColumns =>
      let unknownColumns :=
        FindUnknownColumns selectedColumns (GetTree lm) validCustomColumns
                           (match ds with Some cols => cols | None => [] end) in
      match unknownColumns with
      | _ :: _ => Throw (UnknownColumns unknownColumns)
      | [] =>
          Ok (map (fun colName =>
                     match find_alias (GetAliasMap lm) colName with
                     | Some column => column
                     | None => colName
                     end) selectedColumns)
      end
  end.

(** [FindUndefinedDSColumns(requestedCols, definedCols)] *)
Definition FindUndefinedDSColumns (requestedCols definedCols : ColumnNames_t)
    : list bool :=
  map (fun column => negb (contains definedCols column)) requestedCols.

End TDF.

(* ================================================================== *)
(** ** TDFInterfaceUtils: Replace *)

(** [Replace] of [TDFInterfaceUtils.cxx], on [std::string]s as lists of
    characters. *)
Module TDFReplace.

Import Ascii.

Definition std_string : Type := list ascii.

(** Whether [what] is found at the very start of [s]. *)
Fixpoint starts_with (what s : std_string) : bool :=
  match what, s with
  | [], _ => true
  | _ :: _, [] => false
  | a :: what', b :: s' => Ascii.eqb a b && starts_with what' s'
  end.

(** [s.find(what, pos)]: the first position from [pos] on at which [what]
    is found, [None] standing for [npos]. *)
Fixpoint find (s what : std_string) (pos : nat) : option nat :=
  match s with
  | [] =>
      match pos, what with
      | O, [] => Some O
      | _, _ => None
      end
  | _ :: s' =>
      match pos with
      | O => if starts_with what s then Some O
             else option_map S (find s' what O)
      | S pos' => option_map S (find s' what pos')
      end
  end.

(** [s.replace(idx, len, withWhat)] for [idx + len <= s.size()]. *)
Definition replace (s : std_string) (idx len : nat) (withWhat : std_string)
    : std_string :=
  firstn idx s ++ withWhat ++ skipn (idx + len) s.

(** [numReplacements++] on an [unsigned int]. *)
Definition increment (n : Z) : Z := ((n + 1) mod 2 ^ 32)%Z.

(** The loop of [Replace]; it may not end, so it is run for at most [fuel]
    tests of its condition, [None] meaning that these were not enough. *)
Fixpoint Replace_loop (fuel : nat) (s what withWhat : std_string) (idx : nat)
    (numReplacements : Z) : option (std_string * Z) :=
  match fuel with
  | O => None
  | S fuel' =>
      match find s what idx with
      | None => Some (s, numReplacements)
      | Some idx' =>
          Replace_loop fuel' (replace s idx' (List.length what) withWhat)
                       what withWhat (idx' + List.length withWhat)
                       (increment numReplacements)
      end
  end.

(** [Replace(s, what, withWhat)]: the string [s] becomes, and the value
    returned. *)
Definition Replace (fuel : nat) (s what withWhat : std_string)
    : option (std_string * Z) :=
  Replace_loop fuel s what withWhat 0 0.

(** Replacing from left to right every occurrence of [what] that does not
    overlap an occurrence already replaced; [skip] characters are still
    part of the occurrence just replaced.  Also counts the occurrences. *)
Fixpoint substitute (what withWhat : std_string) (skip : nat) (s : std_string)
    : std_string * nat :=
  match s with
  | [] => ([], O)
  | c :: s' =>
      match skip with
      | S k => substitute what withWhat k s'
      | O =>
          if starts_with what s then
            let '(r, n) := substitute what withWhat (List.length what - 1) s' in
            (withWhat ++ r, S n)
          else
            let '(r, n) := substitute what withWhat O s' in
            (c :: r, n)
      end
  end.

End TDFReplace.

(* ================================================================== *)
(** ** Facts about Double_t *)

Section DoubleFacts.

Lemma Rsign_pos (x : R) : 0 < x -> Rsign x = Gt.
Proof. intros H. unfold Rsign. destruct (Rlt_dec 0 x); [reflexivity | lra]. Qed.

Lemma Rsign_neg (x : R) : x < 0 -> Rsign x = Lt.
Proof.
  intros H. unfold Rsign.
  destruct (Rlt_dec 0 x); [lra |]. destruct (Rlt_dec x 0); [reflexivity | lra].
Qed.

Lemma Rsign_zero : Rsign 0 = Eq.
Proof.
  unfold Rsign. destruct (Rlt_dec 0 0); [lra |]. reflexivity.
Qed.

Lemma ddiv_Fin (a b : R) : b <> 0 -> ddiv (Fin a) (Fin b) = Fin (a / b).
Proof. intros H. simpl. destruct (Req_dec_T b 0); [contradiction | reflexivity]. Qed.

Lemma ddiv_zero_zero : ddiv (Fin 0) (Fin 0) = NaN.
Proof.
  simpl. destruct (Req_dec_T 0 0) as [_ | H]; [| now elim H].
  now rewrite Rsign_zero.
Qed.

Lemma ddiv_Fin_zero_not_finite (a : R) : is_finite (ddiv (Fin a) (Fin 0)) = false.
Proof.
  simpl. destruct (Req_dec_T 0 0) as [_ | H]; [| now elim H].
  now destruct (Rsign a).
Qed.

Lemma dgt_Fin_true (a b : R) : b < a -> dgt (Fin a) (Fin b) = true.
Proof. intros H. simpl. destruct (Rlt_dec b a); [reflexivity | lra]. Qed.

Lemma dgt_Fin_false (a b : R) : a <= b -> dgt (Fin a) (Fin b) = false.
Proof. intros H. simpl. destruct (Rlt_dec b a); [lra | reflexivity]. Qed.

Lemma dlog_Fin_pos (a : R) : 0 < a -> dlog (Fin a) = Fin (ln a).
Proof. intros H. simpl. destruct (Rlt_dec 0 a); [reflexivity | lra]. Qed.

Lemma dlog_zero : dlog (Fin 0) = NInf.
Proof.
  simpl. destruct (Rlt_dec 0 0); [lra | reflexivity].
Qed.

Lemma is_finite_Fin (x : Double_t) : is_finite x = true -> x = Fin (to_R x).
Proof. destruct x; simpl; intros H; try discriminate; reflexivity. Qed.

Lemma dadd_finite_inv (x y : Double_t) :
  is_finite (dadd x y) = true -> is_finite x = true /\ is_finite y = true.
Proof. destruct x, y; simpl; auto. Qed.

(** Accumulating finite values is the real sum. *)
Lemma dsum_from_Fin (l : list R) (a : R) :
  dsum_from (Fin a) (map Fin l) = Fin (a + Rsum l).
Proof.
  revert a. induction l as [| x l IH]; intros a; unfold dsum_from in *; simpl.
  - f_equal. lra.
  - rewrite IH. f_equal. lra.
Qed.

Lemma dsum_Fin (l : list R) : dsum (map Fin l) = Fin (Rsum l).
Proof. unfold dsum. rewrite dsum_from_Fin. f_equal. lra. Qed.

(** A sum that came out finite had only finite terms: once an accumulator
    is an infinity or NaN it stays one. *)
Lemma dsum_from_not_finite (l : list Double_t) (s : Double_t) :
  is_finite s = false -> is_finite (dsum_from s l) = false.
Proof.
  revert s. induction l as [| x l IH]; intros s Hs; unfold dsum_from in *; simpl.
  - exact Hs.
  - apply IH. destruct s, x; simpl in *; congruence.
Qed.

Lemma dsum_from_finite_inv (l : list Double_t) (s : Double_t) :
  is_finite (dsum_from s l) = true ->
  is_finite s = true /\ Forall (fun x => is_finite x = true) l.
Proof.
  revert s. induction l as [| x l IH]; intros s H; unfold dsum_from in *; simpl in *.
  - split; [exact H | constructor].
  - destruct (IH _ H) as [Hs Hl].
    apply dadd_finite_inv in Hs. destruct Hs as [Hs Hx].
    split; [exact Hs | constructor; assumption].
Qed.

Lemma Rsum_app (l1 l2 : list R) : Rsum (l1 ++ l2) = Rsum l1 + Rsum l2.
Proof. induction l1 as [| x l1 IH]; simpl; [lra | rewrite IH; lra]. Qed.

Lemma Rsum_scale (A : Type) (g : A -> R) (c : R) (l : list A) :
  Rsum (map (fun x => g x * c) l) = Rsum (map g l) * c.
Proof. induction l as [| x l IH]; simpl; [lra | rewrite IH; lra]. Qed.

Lemma Rsum_nonneg (l : list R) : Forall (fun x => 0 <= x) l -> 0 <= Rsum l.
Proof.
  induction 1 as [| x l Hx _ IH]; simpl; lra.
Qed.

(** Non-negative terms with a zero sum are all zero. *)
Lemma Rsum_zero_all_zero (l : list R) :
  Forall (fun x => 0 <= x) l -> Rsum l = 0 -> Forall (fun x => x = 0) l.
Proof.
  induction 1 as [| x l Hx Hl IH]; simpl; intros Hs; constructor.
  - pose proof (Rsum_nonneg l Hl). lra.
  - apply IH. pose proof (Rsum_nonneg l Hl). lra.
Qed.

End DoubleFacts.

(* ================================================================== *)
(** ** AdaBoost: what one round computes *)

Section AdaBoostFacts.

Import Event MethodBDT Sample.

Variable this : MethodBDT.t.
Variable dt : DecisionTree.t.

Lemma finite_weights_Fin (es : list Event.t) :
  finite_weights es -> weights es = map Fin (map weight_R es).
Proof.
  unfold weights.
  induction 1 as [| e es He _ IH]; simpl; [reflexivity |].
  rewrite IH. f_equal.
  unfold weight_R. now apply is_finite_Fin.
Qed.

Lemma total_weight_finite (es : list Event.t) :
  finite_weights es -> total_weight es = Fin (total_R es).
Proof.
  intros H. unfold total_weight. rewrite (finite_weights_Fin es H).
  apply dsum_Fin.
Qed.

(** A finite total weight means every weight is finite. *)
Lemma total_weight_Fin_inv (es : list Event.t) (s : R) :
  total_weight es = Fin s -> finite_weights es /\ s = total_R es.
Proof.
  intros H.
  assert (Hf : finite_weights es).
  { unfold total_weight, dsum in H.
    assert (Hfin : is_finite (dsum_from (Fin 0) (weights es)) = true)
      by now rewrite H.
    apply dsum_from_finite_inv in Hfin. destruct Hfin as [_ Hall].
    unfold finite_weights, weights in *.
    now rewrite Forall_map in Hall. }
  split; [exact Hf |].
  rewrite (total_weight_finite es Hf) in H. congruence.
Qed.

Lemma nonneg_weights_finite (es : list Event.t) :
  nonneg_weights es -> finite_weights es.
Proof.
  unfold nonneg_weights, finite_weights. apply Forall_impl.
  intros e (r & Hr & _). now rewrite Hr.
Qed.

Lemma nonneg_weights_R (es : list Event.t) :
  nonneg_weights es -> Forall (fun x => 0 <= x) (map weight_R es).
Proof.
  intros H. rewrite Forall_map. revert H. apply Forall_impl.
  intros e (r & Hr & Hpos). unfold weight_R. now rewrite Hr.
Qed.

Lemma misclassified_finite (es : list Event.t) :
  finite_weights es -> finite_weights (misclassified this dt es).
Proof.
  unfold finite_weights, misclassified. intros H.
  rewrite Forall_forall in *. intros e He.
  apply filter_In in He. now apply H.
Qed.

Lemma misclassified_nonneg (es : list Event.t) :
  nonneg_weights es -> nonneg_weights (misclassified this dt es).
Proof.
  unfold nonneg_weights, misclassified. intros H.
  rewrite Forall_forall in *. intros e He.
  apply filter_In in He. now apply H.
Qed.

(** With non-negative weights the misclassified weight lies between zero
    and the total weight. *)
Lemma misclassified_R_bounds (es : list Event.t) :
  nonneg_weights es -> 0 <= misclassified_R this dt es <= total_R es.
Proof.
  intros H. unfold misclassified_R, total_R, misclassified.
  induction H as [| e es (r & Hr & Hpos) _ IH]; simpl; [lra |].
  assert (Hw : weight_R e = r) by (unfold weight_R; now rewrite Hr).
  destruct (negb (correctly_selected this dt e)); simpl; lra.
Qed.

(** The first loop. *)
Lemma tally_fold (es : list Event.t) :
  finite_weights es ->
  forall (a b c : R) (l : list bool),
    fold_left (tally_event this dt) es (mkTally (Fin a) (Fin b) (Fin c) l) =
    mkTally (Fin (a + total_R es))
            (Fin (b + misclassified_R this dt es))
            (Fin (c + INR (List.length (misclassified this dt es))))
            (l ++ map (correctly_selected this dt) es).
Proof.
  unfold total_R, misclassified_R, misclassified.
  induction 1 as [| e es He _ IH]; intros a b c l.
  - simpl. rewrite app_nil_r. f_equal; f_equal; lra.
  - cbn [fold_left]. unfold tally_event at 2. cbn [sumw sumwfalse count correctSelected].
    rewrite (is_finite_Fin _ He). fold (weight_R e).
    cbn [filter map].
    destruct (correctly_selected this dt e) eqn:Hc; cbn [negb dadd].
    + rewrite IH. rewrite <- app_assoc. cbn [app Rsum].
      f_equal; f_equal; lra.
    + rewrite IH. rewrite <- app_assoc. cbn [app Rsum map List.length].
      rewrite S_INR.
      f_equal; f_equal; lra.
Qed.

Lemma tally_sample_finite (es : list Event.t) :
  finite_weights es ->
  tally_sample this dt es =
  mkTally (Fin (total_R es)) (Fin (misclassified_R this dt es))
          (Fin (INR (List.length (misclassified this dt es))))
          (map (correctly_selected this dt) es).
Proof.
  intros H. unfold tally_sample. rewrite (tally_fold es H).
  simpl. f_equal; f_equal; lra.
Qed.

(** The vector [correctSelected] has one entry per event, whatever the
    weights are, so the second loop never indexes beyond its end. *)
Lemma tally_correctSelected (es : list Event.t) (a : tally) :
  correctSelected (fold_left (tally_event this dt) es a) =
  correctSelected a ++ map (correctly_selected this dt) es.
Proof.
  revert a. induction es as [| e es IH]; intros a; simpl.
  - now rewrite app_nil_r.
  - rewrite IH. unfold tally_event.
    destruct (correctly_selected this dt e); simpl; now rewrite <- app_assoc.
Qed.

Lemma reweight_events (b : Double_t) (es : list Event.t) :
  forall (pre : list bool) (s : Double_t),
    reweight b (pre ++ map (correctly_selected this dt) es) (List.length pre) es s =
    (map (boosted this dt b) es,
     dsum_from s (weights (map (boosted this dt b) es))).
Proof.
  induction es as [| e es IH]; intros pre s; [reflexivity |].
  cbn [reweight map].
  rewrite app_nth2 by lia. rewrite Nat.sub_diag. cbn [nth].
  replace (pre ++ correctly_selected this dt e :: map (correctly_selected this dt) es)
    with ((pre ++ [correctly_selected this dt e]) ++ map (correctly_selected this dt) es)
    by (rewrite <- app_assoc; reflexivity).
  replace (S (List.length pre)) with (List.length (pre ++ [correctly_selected this dt e]))
    by (rewrite length_app; simpl; lia).
  rewrite IH. unfold boosted, weights, dsum_from.
  destruct (correctly_selected this dt e); reflexivity.
Qed.

Lemma boosted_weight_Fin (b : R) (e : Event.t) :
  is_finite (GetWeight e) = true ->
  GetWeight (boosted this dt (Fin b) e) = Fin (boosted_R this dt b e).
Proof.
  intros He. unfold boosted, boosted_R.
  destruct (correctly_selected this dt e).
  - unfold weight_R. now apply is_finite_Fin.
  - simpl. rewrite (is_finite_Fin _ He). reflexivity.
Qed.

Lemma boosted_weights_Fin (b : R) (es : list Event.t) :
  finite_weights es ->
  weights (map (boosted this dt (Fin b)) es) =
  map Fin (map (boosted_R this dt b) es).
Proof.
  unfold weights.
  induction 1 as [| e es He _ IH]; [reflexivity |].
  simpl. rewrite boosted_weight_Fin by assumption.
  now rewrite IH.
Qed.

(** [newSumw], the total after the second loop. *)
Lemma boosted_total (b : R) (es : list Event.t) :
  Rsum (map (boosted_R this dt b) es) =
  total_R es - misclassified_R this dt es + b * misclassified_R this dt es.
Proof.
  unfold total_R, misclassified_R, misclassified, boosted_R.
  induction es as [| e es IH]; simpl; [lra |].
  destruct (correctly_selected this dt e); simpl; lra.
Qed.

End AdaBoostFacts.

(** Settles the comparisons of real numbers a goal branches on. *)
Ltac decide_reals :=
  repeat match goal with
    | |- context [Rlt_dec ?a ?b] => destruct (Rlt_dec a b); try lra
    | |- context [Req_dec_T ?a ?b] => destruct (Req_dec_T a b); try lra
    end.

(** Evaluates a round of AdaBoost on a concrete sample. *)
Ltac unfold_round :=
  repeat progress
    (unfold Sample.AdaBoost_sample, Sample.AdaBoost_result, MethodBDT.AdaBoost,
       MethodBDT.tally_sample, MethodBDT.tally_event,
       Sample.misclassified_R, Sample.misclassified, Sample.total_R, Sample.weight_R,
       MethodBDT.correctly_selected, MethodBDT.boost_weight, MethodBDT.renormalise,
       Sample.total_weight, Sample.weights, dsum, dsum_from, Rsign,
       Fixture.signal, Fixture.background, Fixture.all_signal,
       Fixture.all_background, Fixture.bdt;
     cbn -[Rlt_dec Req_dec_T Rplus Rmult Rminus Rdiv Ropp Rinv IZR];
     decide_reals).

Section AdaBoostRound.

Import Event MethodBDT Sample.

Variable this : MethodBDT.t.
Variable dt : DecisionTree.t.

Lemma boost_weight_Fin (err : R) : boost_weight (Fin err) = Fin (boost_R err).
Proof.
  unfold boost_weight, boost_R. simpl.
  destruct (Rlt_dec 0 err) as [Hpos | Hneg]; [| reflexivity].
  destruct (Req_dec_T err 0); [lra | reflexivity].
Qed.

(** One round on a sample with finite weights and a nonzero total: the
    error fraction, boost weight and [newSumw] are the real numbers one
    expects, and the new weights are a quotient by [newSumw]. *)
Lemma AdaBoost_round (es : list Event.t) :
  finite_weights es ->
  total_R es <> 0 ->
  let s := total_R es in
  let sf := misclassified_R this dt es in
  let b := boost_R (sf / s) in
  let n := s - sf + b * sf in
  AdaBoost this es dt =
  (set_monitor this (Fin b) (Fin (sf / s)),
   renormalise (Fin s) (Fin n) (map (boosted this dt (Fin b)) es),
   dlog (Fin b)).
Proof.
  intros Hfin Hs s sf b n. unfold AdaBoost.
  rewrite (tally_sample_finite this dt es Hfin).
  cbn [sumw sumwfalse correctSelected].
  rewrite ddiv_Fin by exact Hs. rewrite boost_weight_Fin.
  fold s sf. fold b.
  pose proof (reweight_events this dt (Fin b) es [] (Fin 0)) as Hrw.
  cbn [app List.length] in Hrw. rewrite Hrw.
  rewrite (boosted_weights_Fin this dt b es Hfin), dsum_from_Fin.
  rewrite boosted_total. fold s sf.
  replace (0 + (s - sf + b * sf)) with n by (unfold n; lra).
  reflexivity.
Qed.

Lemma renormalise_weights (s n : R) (es : list Event.t) :
  finite_weights es -> n <> 0 ->
  weights (renormalise (Fin s) (Fin n) es) =
  map Fin (map (fun e => weight_R e * s / n) es).
Proof.
  intros Hfin Hn. unfold weights, renormalise.
  induction Hfin as [| e es He _ IH]; [reflexivity |].
  cbn [map]. rewrite IH. f_equal.
  cbn [GetWeight SetWeight]. rewrite (is_finite_Fin _ He). fold (weight_R e).
  cbn [dmul]. now rewrite ddiv_Fin.
Qed.

Lemma boosted_finite (b : R) (es : list Event.t) :
  finite_weights es -> finite_weights (map (boosted this dt (Fin b)) es).
Proof.
  unfold finite_weights. intros H. rewrite Forall_map.
  revert H. apply Forall_impl. intros e He.
  now rewrite boosted_weight_Fin.
Qed.

Lemma boosted_weight_R (b : R) (e : Event.t) :
  is_finite (GetWeight e) = true ->
  weight_R (boosted this dt (Fin b) e) = boosted_R this dt b e.
Proof.
  intros He. unfold weight_R at 1. now rewrite boosted_weight_Fin.
Qed.

(** The weights a round leaves, when [newSumw] is not zero. *)
Lemma AdaBoost_new_weights (es : list Event.t) :
  finite_weights es ->
  total_R es <> 0 ->
  let s := total_R es in
  let sf := misclassified_R this dt es in
  let b := boost_R (sf / s) in
  let n := s - sf + b * sf in
  n <> 0 ->
  weights (AdaBoost_sample this es dt) =
  map Fin (map (fun e => boosted_R this dt b e * s / n) es).
Proof.
  intros Hfin Hs s sf b n Hn. unfold AdaBoost_sample.
  rewrite (AdaBoost_round es Hfin Hs). cbn [fst snd]. fold s sf. fold b. fold n.
  rewrite renormalise_weights by (auto using boosted_finite).
  f_equal. rewrite map_map.
  apply map_ext_in. intros e He.
  rewrite boosted_weight_R; [reflexivity |].
  unfold finite_weights in Hfin. rewrite Forall_forall in Hfin. now apply Hfin.
Qed.

(** [newSumw] in terms of the total and the misclassified weight. *)
Lemma newSumw_value (s sf : R) :
  s <> 0 ->
  let b := boost_R (sf / s) in
  s - sf + b * sf = if Rlt_dec 0 (sf / s) then 2 * (s - sf) else s + 999 * sf.
Proof.
  intros Hs b. unfold b, boost_R.
  destruct (Rlt_dec 0 (sf / s)) as [Hpos | Hneg].
  - assert (sf <> 0) by (intros ->; unfold Rdiv in Hpos; lra).
    field. split; assumption.
  - lra.
Qed.

Lemma newSumw_nonzero (s sf : R) :
  0 < s -> 0 <= sf < s -> s - sf + boost_R (sf / s) * sf <> 0.
Proof.
  intros Hs Hsf.
  pose proof (newSumw_value s sf) as E. cbv zeta in E. rewrite E by lra.
  destruct (Rlt_dec 0 (sf / s)) as [Hpos | Hneg]; [lra |].
  assert (Hq : 0 <= sf / s).
  { apply Rmult_le_pos; [lra |]. left. now apply Rinv_0_lt_compat. }
  assert (sf / s = 0) by lra.
  assert (sf = 0).
  { replace sf with (sf / s * s) by (field; lra). rewrite H. lra. }
  lra.
Qed.

End AdaBoostRound.

(* ================================================================== *)
(** ** AdaBoost: conservation of the total weight *)

Section AdaBoostConservation.

Import Event MethodBDT Sample.

(** C1 (as amended).  A round of AdaBoost on a sample whose total weight
    [s] is positive, and whose misclassified weight lies in [[0, s)], that
    is, with an error fraction [0 <= err < 1], leaves the total weight
    unchanged. *)
Theorem AdaBoost_conserves_total_weight
    (this : MethodBDT.t) (dt : DecisionTree.t) (es : list Event.t) (s : R) :
  total_weight es = Fin s ->
  0 < s ->
  0 <= misclassified_R this dt es < s ->
  total_weight (AdaBoost_sample this es dt) = Fin s.
Proof.
  intros Htot Hs Hsf.
  destruct (total_weight_Fin_inv es s Htot) as [Hfin ->].
  pose proof (newSumw_nonzero _ _ Hs Hsf) as Hn.
  unfold total_weight.
  rewrite (AdaBoost_new_weights this dt es Hfin) by (assumption || lra).
  rewrite dsum_Fin. f_equal.
  set (b := boost_R (misclassified_R this dt es / total_R es)) in *.
  set (n := total_R es - misclassified_R this dt es + b * misclassified_R this dt es) in *.
  transitivity (Rsum (map (fun e => boosted_R this dt b e * (total_R es / n)) es)).
  { f_equal. apply map_ext. intros e. unfold Rdiv. lra. }
  rewrite Rsum_scale, boosted_total. fold n. field. exact Hn.
Qed.

Lemma AdaBoost_conserves_total_weight_witness :
  total_weight (AdaBoost_sample Fixture.bdt
                  [Fixture.signal 3; Fixture.background 1] Fixture.all_signal)
  = Fin 4.
Proof.
  apply (AdaBoost_conserves_total_weight Fixture.bdt Fixture.all_signal
           [Fixture.signal 3; Fixture.background 1] 4).
  - unfold_round. f_equal. lra.
  - lra.
  - unfold_round. simpl. lra.
Defined.

(** C1 as stated fails when the whole weight is misclassified: the boost
    weight is 0, so is [newSumw], and the renormalisation divides 0 by 0.
    A single signal event of weight 1 that the tree calls background has
    total weight 1 before the round and NaN after it. *)
Lemma AdaBoost_all_misclassified_total_lost :
  total_weight [Fixture.signal 1] = Fin 1 /\
  total_weight (AdaBoost_sample Fixture.bdt [Fixture.signal 1]
                                Fixture.all_background) = NaN /\
  total_weight (AdaBoost_sample Fixture.bdt [Fixture.signal 1]
                                Fixture.all_background)
  <> total_weight [Fixture.signal 1].
Proof.
  assert (E : total_weight (AdaBoost_sample Fixture.bdt [Fixture.signal 1]
                              Fixture.all_background) = NaN).
  { unfold_round. reflexivity. }
  repeat split.
  - unfold_round. f_equal. lra.
  - exact E.
  - rewrite E. unfold_round. discriminate.
Qed.

End AdaBoostConservation.

(* ================================================================== *)
(** ** AdaBoost: the postcondition of a round *)

Section AdaBoostPostcondition.

Import Event MethodBDT Sample.

Lemma SetWeight_same (e : Event.t) (w : Double_t) :
  GetWeight e = w -> SetWeight e w = e.
Proof. destruct e as [v l w0]; simpl. now intros ->. Qed.

(** Misclassified events of weight zero are left as they are by the
    second loop. *)
Lemma boosted_zero_misclassified (this : MethodBDT.t) (dt : DecisionTree.t)
    (b : R) (es : list Event.t) :
  nonneg_weights es ->
  misclassified_R this dt es = 0 ->
  map (boosted this dt (Fin b)) es = es.
Proof.
  intros Hnn Hz.
  assert (Hall : Forall (fun x => x = 0) (map weight_R (misclassified this dt es))).
  { apply Rsum_zero_all_zero; [| exact Hz].
    apply nonneg_weights_R. now apply misclassified_nonneg. }
  rewrite Forall_map, Forall_forall in Hall.
  rewrite <- (map_id es) at 2. apply map_ext_in. intros e He.
  unfold boosted. destruct (correctly_selected this dt e) eqn:Hc; [reflexivity |].
  assert (Hw : weight_R e = 0).
  { apply Hall. unfold misclassified. apply filter_In. now rewrite Hc. }
  unfold nonneg_weights in Hnn. rewrite Forall_forall in Hnn.
  destruct (Hnn e He) as (r & Hr & _).
  unfold weight_R in Hw. rewrite Hr in Hw. simpl in Hw. subst r.
  apply SetWeight_same. rewrite Hr. simpl. f_equal. lra.
Qed.

(** Renormalising by a quotient of two equal nonzero numbers changes
    nothing. *)
Lemma renormalise_same (s : R) (es : list Event.t) :
  finite_weights es -> s <> 0 -> renormalise (Fin s) (Fin s) es = es.
Proof.
  intros Hfin Hs. unfold renormalise.
  rewrite <- (map_id es) at 2. apply map_ext_in. intros e He.
  unfold finite_weights in Hfin. rewrite Forall_forall in Hfin.
  apply SetWeight_same. rewrite (is_finite_Fin _ (Hfin e He)).
  cbn [dmul to_R]. rewrite ddiv_Fin by exact Hs. f_equal. now field.
Qed.

(** C2 (as amended).  On a sample whose total weight [s] is a nonzero real
    number, with [sf] the weight of the misclassified events and
    [err = sf / s], a round of AdaBoost uses the boost weight
    [b = (1-err)/err] if [err > 0] and [b = 1000] otherwise, records [b] and
    [err], multiplies the weight of each misclassified event by [b], which
    gives a sample of total weight [n], then scales every weight by
    [s / n], and returns [log b].  If moreover the weights are non-negative
    and [sf = 0], the value returned is [ln 1000] and the sample is left as
    it was. *)
Theorem AdaBoost_round_postcondition
    (this : MethodBDT.t) (dt : DecisionTree.t) (es : list Event.t) (s : R) :
  total_weight es = Fin s ->
  s <> 0 ->
  let sf := misclassified_R this dt es in
  let err := sf / s in
  let b := boost_R err in
  let es1 := map (boosted this dt (Fin b)) es in
  (0 < err -> b = (1 - err) / err) /\
  (err = 0 -> b = 1000) /\
  (exists n : R,
      total_weight es1 = Fin n /\
      AdaBoost this es dt =
      (set_monitor this (Fin b) (Fin err),
       renormalise (Fin s) (Fin n) es1,
       dlog (Fin b))) /\
  (0 < b -> AdaBoost_result this es dt = Fin (ln b)) /\
  (nonneg_weights es -> sf = 0 ->
   AdaBoost_result this es dt = Fin (ln 1000) /\
   AdaBoost_sample this es dt = es).
Proof.
  intros Htot Hs sf err b es1.
  destruct (total_weight_Fin_inv es s Htot) as [Hfin ->].
  pose proof (AdaBoost_round this dt es Hfin Hs) as Hround. cbv zeta in Hround.
  fold sf in Hround. fold err in Hround. fold b in Hround. fold es1 in Hround.
  split; [| split; [| split; [| split]]].
  - intros Hpos. unfold b, boost_R. destruct (Rlt_dec 0 err); [reflexivity | lra].
  - intros Hz. unfold b, boost_R. destruct (Rlt_dec 0 err); [lra | reflexivity].
  - exists (total_R es - sf + b * sf). split; [| exact Hround].
    unfold es1. rewrite total_weight_finite by now apply boosted_finite.
    f_equal. unfold total_R at 1. rewrite map_map.
    unfold sf. rewrite <- (boosted_total this dt b es). f_equal.
    apply map_ext_in. intros e He. apply boosted_weight_R.
    unfold finite_weights in Hfin. rewrite Forall_forall in Hfin. now apply Hfin.
  - intros Hb. unfold AdaBoost_result. rewrite Hround. cbn [snd].
    now apply dlog_Fin_pos.
  - intros Hnn Hz. split.
    + unfold AdaBoost_result. rewrite Hround. cbn [snd].
      assert (Hb : b = 1000).
      { unfold b, boost_R, err. rewrite Hz. unfold Rdiv. rewrite Rmult_0_l.
        destruct (Rlt_dec 0 0); [lra | reflexivity]. }
      rewrite Hb. apply dlog_Fin_pos. lra.
    + unfold AdaBoost_sample. rewrite Hround. cbn [fst snd].
      unfold es1. rewrite (boosted_zero_misclassified this dt b es Hnn Hz).
      fold sf. rewrite Hz.
      replace (total_R es - 0 + b * 0) with (total_R es) by lra.
      now apply renormalise_same.
Qed.

End AdaBoostPostcondition.

Section AdaBoostPostconditionExamples.

Import Event MethodBDT Sample.

(** The example of the specification: with a total weight of 10 of which 2
    is misclassified, the error fraction is 0.2, the boost weight 4 and
    the value returned [ln 4]. *)
Lemma AdaBoost_round_postcondition_witness :
  let es := [Fixture.signal 8; Fixture.background 2] in
  fErrorFraction (fst (fst (AdaBoost Fixture.bdt es Fixture.all_signal))) = Fin (2 / 10) /\
  fBoostWeight (fst (fst (AdaBoost Fixture.bdt es Fixture.all_signal))) = Fin 4 /\
  AdaBoost_result Fixture.bdt es Fixture.all_signal = Fin (ln 4).
Proof.
  intros es.
  assert (Htot : total_weight es = Fin 10) by (unfold es; unfold_round; f_equal; lra).
  assert (Hsf : misclassified_R Fixture.bdt Fixture.all_signal es = 2)
    by (unfold es; unfold_round; simpl; lra).
  assert (Hs : 10 <> 0) by lra.
  pose proof (AdaBoost_round_postcondition Fixture.bdt Fixture.all_signal es 10 Htot Hs)
    as (Hb & _ & (n & _ & Hround) & Hres & _).
  rewrite Hsf in *.
  assert (Hb4 : boost_R (2 / 10) = 4) by (rewrite Hb; lra).
  rewrite Hb4 in *.
  split; [| split].
  - now rewrite Hround.
  - now rewrite Hround.
  - apply Hres. lra.
Defined.

(** C2 as stated fails on a sample whose total weight is zero: for a single
    event of weight 0 that the tree classifies correctly, [sumwfalse] is 0
    and the value returned is [ln 1000], but [newSumw] is 0 as well and the
    renormalisation turns the weight into NaN. *)
Lemma AdaBoost_zero_total_changes_weights :
  let es := [Fixture.signal 0] in
  misclassified_R Fixture.bdt Fixture.all_signal es = 0 /\
  AdaBoost_result Fixture.bdt es Fixture.all_signal = Fin (ln 1000) /\
  weights (AdaBoost_sample Fixture.bdt es Fixture.all_signal) = [NaN] /\
  AdaBoost_sample Fixture.bdt es Fixture.all_signal <> es.
Proof.
  intros es.
  assert (E : weights (AdaBoost_sample Fixture.bdt es Fixture.all_signal) = [NaN])
    by (unfold es; unfold_round; reflexivity).
  split; [| split; [| split]].
  - unfold es. unfold_round. simpl. lra.
  - unfold es. unfold_round. reflexivity.
  - exact E.
  - intros Heq. rewrite Heq in E. unfold es in E. discriminate E.
Qed.

End AdaBoostPostconditionExamples.

(* ================================================================== *)
(** ** Bagging *)

Section BaggingFacts.

Import Event MethodBDT Sample.

Variable g : TRandom.impl.

Lemma weights_with_weights (es : list Event.t) (ws : list Double_t) :
  List.length ws = List.length es -> weights (with_weights es ws) = ws.
Proof.
  revert ws. induction es as [| e es IH]; intros [| w ws] Hlen;
    simpl in *; try discriminate; [reflexivity |].
  f_equal. apply IH. lia.
Qed.

Lemma length_draws (st : TRandom.state g) (n : nat) :
  List.length (draws g st n) = n.
Proof.
  revert st. induction n as [| n IH]; intros st; simpl; [reflexivity |].
  destruct (TRandom.Rndm g st) as [x st']. simpl. now rewrite IH.
Qed.

(** Every draw lies in [[0,1)]. *)
Lemma draws_range (st : TRandom.state g) (n : nat) :
  Forall (fun x => 0 <= x < 1) (draws g st n).
Proof.
  revert st. induction n as [| n IH]; intros st; simpl; [constructor |].
  pose proof (TRandom.Rndm_range g st) as Hr.
  destruct (TRandom.Rndm g st) as [x st']. constructor; [exact Hr | apply IH].
Qed.

(** The first loop: the events get the draws as weights, whatever their
    weights were, and [newSumw] accumulates the draws. *)
Lemma draw_weights_draws (es : list Event.t) :
  forall (st : TRandom.state g) (a : R),
    draw_weights g st es (Fin a) =
    (with_weights es (map Fin (draws g st (List.length es))),
     Fin (a + Rsum (draws g st (List.length es)))).
Proof.
  induction es as [| e es IH]; intros st a; simpl.
  - f_equal. f_equal. lra.
  - destruct (TRandom.Rndm g st) as [x st']. simpl.
    rewrite IH. f_equal. f_equal. simpl. lra.
Qed.

Lemma weights_renormalise (num den : Double_t) (es : list Event.t) :
  weights (renormalise num den es) =
  map (fun w => ddiv (dmul w num) den) (weights es).
Proof.
  unfold weights, renormalise. rewrite !map_map. reflexivity.
Qed.

(** The weights a round of Bagging assigns, in terms of the raw draws. *)
Lemma Bagging_weights (es : list Event.t) (iTree : Z) :
  let xs := raw_weights g iTree (List.length es) in
  weights (Bagging_sample g es iTree) =
  map (fun x => ddiv (Fin (x * INR (List.length es))) (Fin (Rsum xs))) xs.
Proof.
  intros xs. unfold Bagging_sample, Bagging.
  rewrite draw_weights_draws. cbn [fst].
  rewrite weights_renormalise, weights_with_weights
    by (rewrite length_map; apply length_draws).
  fold (raw_weights g iTree (List.length es)). fold xs.
  rewrite map_map. apply map_ext. intros x. cbn [dmul].
  replace (0 + Rsum xs) with (Rsum xs) by lra. reflexivity.
Qed.

Lemma Bagging_returns_one (es : list Event.t) (iTree : Z) :
  snd (Bagging g es iTree) = Fin 1.
Proof.
  unfold Bagging. destruct (draw_weights _ _ _ _). reflexivity.
Qed.

End BaggingFacts.

Section BaggingProperties.

Import Event MethodBDT Sample.

(** The draws are not negative, so they sum to zero only if each is zero. *)
Lemma Rsum_nonzero_positive_draw (xs : list R) :
  Forall (fun x => 0 <= x < 1) xs ->
  (Rsum xs <> 0 <-> Exists (fun x => 0 < x) xs).
Proof.
  induction 1 as [| x xs Hx Hxs IH]; simpl.
  - split; [intros H; now contradiction H | inversion 1].
  - assert (Hnn : 0 <= Rsum xs).
    { apply Rsum_nonneg. revert Hxs. apply Forall_impl. intros y Hy. lra. }
    split.
    + intros Hsum. destruct (Rlt_dec 0 x) as [Hpos | Hzero].
      * now constructor.
      * apply Exists_cons_tl. apply IH. lra.
    + intros Hex. inversion Hex as [? ? Hpos | ? ? Hrest]; subst; [lra |].
      apply IH in Hrest. lra.
Qed.

(** C4 (as amended).  Whatever the sample, the generator and the round
    index, a round of Bagging returns 1 and draws one value in [[0,1)] per
    event, which after the rescaling is the event's weight: the draw times
    the size [N] of the sample, divided by the sum of the draws.  The draws
    sum to zero exactly when none of them is positive.  Provided they do
    not sum to zero, each event's new weight is a real number, its draw
    times [N] over the sum of the draws, and the total weight afterwards
    is [N]. *)
Theorem Bagging_round_postcondition
    (g : TRandom.impl) (es : list Event.t) (iTree : Z) :
  let N := INR (List.length es) in
  let xs := raw_weights g iTree (List.length es) in
  snd (Bagging g es iTree) = Fin 1 /\
  List.length xs = List.length es /\
  Forall (fun x => 0 <= x < 1) xs /\
  weights (Bagging_sample g es iTree) =
    map (fun x => ddiv (Fin (x * N)) (Fin (Rsum xs))) xs /\
  (Rsum xs <> 0 <-> Exists (fun x => 0 < x) xs) /\
  (Rsum xs <> 0 ->
   weights (Bagging_sample g es iTree) = map (fun x => Fin (x * N / Rsum xs)) xs /\
   total_weight (Bagging_sample g es iTree) = Fin N).
Proof.
  intros N xs.
  split; [apply Bagging_returns_one |].
  split; [apply length_draws |].
  split; [apply draws_range |].
  split; [apply Bagging_weights |].
  split; [apply Rsum_nonzero_positive_draw, draws_range |].
  intros Hsum.
  assert (Hw : weights (Bagging_sample g es iTree)
               = map (fun x => Fin (x * N / Rsum xs)) xs).
  { rewrite Bagging_weights. fold xs. apply map_ext. intros x.
    now rewrite ddiv_Fin. }
  split; [exact Hw |].
  unfold total_weight. rewrite Hw.
  rewrite <- (map_map (fun x => x * N / Rsum xs) Fin), dsum_Fin. f_equal.
  transitivity (Rsum (map (fun x => x * (N / Rsum xs)) xs)).
  { f_equal. apply map_ext. intros x. unfold Rdiv. lra. }
  rewrite Rsum_scale, map_id. now field.
Qed.

Lemma Bagging_round_postcondition_witness :
  let es := [Fixture.signal 5; Fixture.background 7] in
  weights (Bagging_sample Fixture.harmonic_generator es 0)
  = [Fin (6 / 5); Fin (4 / 5)] /\
  total_weight (Bagging_sample Fixture.harmonic_generator es 0) = Fin 2 /\
  snd (Bagging Fixture.harmonic_generator es 0) = Fin 1.
Proof.
  intros es.
  assert (Hxs : raw_weights Fixture.harmonic_generator 0 (List.length es)
                = [1 / (0 + 2); 1 / (1 + 2)]) by reflexivity.
  assert (Hsum : Rsum (raw_weights Fixture.harmonic_generator 0 (List.length es)) <> 0).
  { rewrite Hxs. simpl. lra. }
  destruct (Bagging_round_postcondition Fixture.harmonic_generator es 0)
    as (Hret & _ & _ & _ & _ & Hreal).
  destruct (Hreal Hsum) as (Hw & Htot).
  split; [| split].
  - rewrite Hw, Hxs. unfold es. cbn [map Rsum List.length].
    f_equal; [| f_equal]; f_equal; simpl; field.
  - rewrite Htot. unfold es. cbn [List.length].
    replace (INR 2) with 2 by (simpl; lra). reflexivity.
  - exact Hret.
Defined.

(** C4 as stated fails when the draws sum to zero: with a generator that
    draws 0, a value of [[0,1)], the single event of a sample of size 1 gets
    the weight 0 * 1 / 0, which is NaN, and the total weight is not 1. *)
Lemma Bagging_zero_draws_total_lost :
  let es := [Fixture.signal 1] in
  raw_weights Fixture.zero_generator 0 (List.length es) = [0] /\
  weights (Bagging_sample Fixture.zero_generator es 0) = [NaN] /\
  total_weight (Bagging_sample Fixture.zero_generator es 0) = NaN /\
  total_weight (Bagging_sample Fixture.zero_generator es 0)
  <> Fin (INR (List.length es)).
Proof.
  intros es.
  assert (E : weights (Bagging_sample Fixture.zero_generator es 0) = [NaN]).
  { rewrite Bagging_weights. unfold es. simpl.
    unfold Rsign. decide_reals. reflexivity. }
  split; [reflexivity |]. split; [exact E |].
  unfold total_weight. rewrite E. split; [reflexivity | discriminate].
Qed.

(** C9.  The weights a round of Bagging assigns depend on the round index
    and on the size of the sample only: two rounds with the same index over
    samples of the same size assign the same sequence of weights. *)
Theorem Bagging_deterministic
    (g : TRandom.impl) (es1 es2 : list Event.t) (iTree : Z) :
  List.length es1 = List.length es2 ->
  weights (Bagging_sample g es1 iTree) = weights (Bagging_sample g es2 iTree).
Proof.
  intros Hlen. rewrite !Bagging_weights. cbv zeta. now rewrite Hlen.
Qed.

Lemma Bagging_deterministic_witness :
  weights (Bagging_sample Fixture.harmonic_generator
             [Fixture.signal 5; Fixture.background 7] 3)
  = weights (Bagging_sample Fixture.harmonic_generator
               [Fixture.background 1; Fixture.background 0] 3).
Proof.
  apply Bagging_deterministic. reflexivity.
Defined.

End BaggingProperties.

(* ================================================================== *)
(** ** Non-negative weights *)

Section NonNegativeWeights.

Import Event MethodBDT Sample.

Lemma nonneg_weights_of_reals (es : list Event.t) (rs : list R) :
  weights es = map Fin rs ->
  Forall (fun x => 0 <= x) rs ->
  nonneg_weights es.
Proof.
  unfold nonneg_weights, weights. revert rs.
  induction es as [| e es IH]; intros [| r rs] Hw Hrs;
    simpl in Hw; try discriminate; constructor.
  - inversion Hw. inversion Hrs; subst. now exists r.
  - inversion Hw. inversion Hrs; subst. now apply (IH rs).
Qed.

Lemma boosted_R_nonneg (this : MethodBDT.t) (dt : DecisionTree.t) (b : R)
    (es : list Event.t) :
  nonneg_weights es -> 0 <= b ->
  Forall (fun e => 0 <= boosted_R this dt b e) es.
Proof.
  intros Hnn Hb. revert Hnn. apply Forall_impl.
  intros e (r & Hr & Hpos). unfold boosted_R, weight_R. rewrite Hr. simpl.
  destruct (correctly_selected this dt e); [lra | now apply Rmult_le_pos].
Qed.

Lemma boost_R_pos (err : R) : err < 1 -> 0 < boost_R err.
Proof.
  intros H. unfold boost_R. destruct (Rlt_dec 0 err); [| lra].
  apply Rdiv_lt_0_compat; lra.
Qed.

Lemma quotient_lt_1 (sf s : R) : 0 < s -> sf < s -> sf / s < 1.
Proof.
  intros Hs Hlt. apply (Rmult_lt_reg_r s); [exact Hs |].
  unfold Rdiv. rewrite Rmult_assoc, Rinv_l by lra. lra.
Qed.

Lemma AdaBoost_keeps_nonneg (this : MethodBDT.t) (dt : DecisionTree.t)
    (es : list Event.t) :
  nonneg_weights es ->
  0 < total_R es ->
  misclassified_R this dt es < total_R es ->
  nonneg_weights (AdaBoost_sample this es dt).
Proof.
  intros Hnn Hs Hlt.
  pose proof (nonneg_weights_finite es Hnn) as Hfin.
  pose proof (misclassified_R_bounds this dt es Hnn) as [Hsf0 _].
  assert (Hn : total_R es - misclassified_R this dt es
               + boost_R (misclassified_R this dt es / total_R es)
                 * misclassified_R this dt es <> 0)
    by (apply newSumw_nonzero; lra).
  pose proof (boost_R_pos _ (quotient_lt_1 _ _ Hs Hlt)) as Hb.
  eapply nonneg_weights_of_reals.
  - apply (AdaBoost_new_weights this dt es Hfin); [lra | exact Hn].
  - set (b := boost_R _) in *. set (n := _ - _ + _) in *.
    assert (Hnpos : 0 < n).
    { assert (0 <= b * misclassified_R this dt es) by (apply Rmult_le_pos; lra).
      unfold n in *. lra. }
    rewrite Forall_map.
    pose proof (boosted_R_nonneg this dt b es Hnn (Rlt_le _ _ Hb)) as Hall.
    revert Hall. apply Forall_impl. intros e He.
    apply Rmult_le_pos; [apply Rmult_le_pos; lra |].
    left. now apply Rinv_0_lt_compat.
Qed.

Lemma Bagging_weights_nonneg (g : TRandom.impl) (es : list Event.t) (iTree : Z) :
  Rsum (raw_weights g iTree (List.length es)) <> 0 ->
  nonneg_weights (Bagging_sample g es iTree).
Proof.
  intros Hsum.
  set (xs := raw_weights g iTree (List.length es)) in *.
  assert (Hxs : Forall (fun x => 0 <= x) xs).
  { unfold xs, raw_weights. eapply Forall_impl; [| apply draws_range].
    simpl. intros x Hx. lra. }
  pose proof (Rsum_nonneg xs Hxs) as Hpos.
  apply (nonneg_weights_of_reals _
           (map (fun x => x * INR (List.length es) / Rsum xs) xs)).
  - rewrite Bagging_weights. fold xs. rewrite map_map.
    apply map_ext. intros x. now rewrite ddiv_Fin.
  - rewrite Forall_map. revert Hxs. apply Forall_impl. intros x Hx.
    apply Rmult_le_pos; [apply Rmult_le_pos; [exact Hx | apply pos_INR] |].
    left. apply Rinv_0_lt_compat. lra.
Qed.

(** C8 (as amended).  On a sample with non-negative weights, a round of
    AdaBoost leaves every weight a non-negative real number when the total
    weight is positive and the error fraction is below 1, and a round of
    Bagging does when its raw draws do not sum to zero. *)
Theorem reweighting_keeps_weights_nonneg
    (this : MethodBDT.t) (dt : DecisionTree.t) (g : TRandom.impl)
    (es : list Event.t) (iTree : Z) :
  nonneg_weights es ->
  (0 < total_R es -> err_R this dt es < 1 ->
   nonneg_weights (AdaBoost_sample this es dt)) /\
  (Rsum (raw_weights g iTree (List.length es)) <> 0 ->
   nonneg_weights (Bagging_sample g es iTree)).
Proof.
  intros Hnn. split.
  - intros Hs Herr. apply AdaBoost_keeps_nonneg; try assumption.
    unfold err_R in Herr.
    replace (misclassified_R this dt es)
      with (misclassified_R this dt es / total_R es * total_R es)
      by (field; lra).
    replace (total_R es) with (1 * total_R es) at 3 by lra.
    apply Rmult_lt_compat_r; assumption.
  - apply Bagging_weights_nonneg.
Qed.

Lemma reweighting_keeps_weights_nonneg_witness :
  let es := [Fixture.signal 3; Fixture.background 1] in
  nonneg_weights (AdaBoost_sample Fixture.bdt es Fixture.all_signal) /\
  nonneg_weights (Bagging_sample Fixture.harmonic_generator es 0).
Proof.
  intros es.
  assert (Hnn : nonneg_weights es).
  { unfold es. repeat constructor.
    - exists 3. split; [reflexivity | lra].
    - exists 1. split; [reflexivity | lra]. }
  destruct (reweighting_keeps_weights_nonneg Fixture.bdt Fixture.all_signal
              Fixture.harmonic_generator es 0 Hnn) as [Hada Hbag].
  split.
  - apply Hada.
    + unfold es. unfold_round. simpl. lra.
    + unfold err_R, es. unfold_round. simpl. lra.
  - apply Hbag.
    replace (raw_weights Fixture.harmonic_generator 0 (List.length es))
      with [1 / (0 + 2); 1 / (1 + 2)] by reflexivity.
    simpl. lra.
Defined.

(** C8 as stated fails at the error fraction 1: a single signal event of
    weight 1 that the tree calls background has a non-negative weight
    before the round of AdaBoost, and the weight NaN after it. *)
Lemma AdaBoost_error_one_weight_undefined :
  let es := [Fixture.signal 1] in
  nonneg_weights es /\
  err_R Fixture.bdt Fixture.all_background es = 1 /\
  weights (AdaBoost_sample Fixture.bdt es Fixture.all_background) = [NaN] /\
  ~ nonneg_weights (AdaBoost_sample Fixture.bdt es Fixture.all_background).
Proof.
  intros es.
  assert (E : weights (AdaBoost_sample Fixture.bdt es Fixture.all_background) = [NaN])
    by (unfold es; unfold_round; reflexivity).
  split; [| split; [| split]].
  - unfold es. repeat constructor. exists 1. split; [reflexivity | lra].
  - unfold err_R, es. unfold_round. simpl. field.
  - exact E.
  - intros Hnn. apply nonneg_weights_finite, finite_weights_Fin in Hnn.
    rewrite E in Hnn.
    destruct (map weight_R _) as [| r rs]; simpl in Hnn; discriminate.
Qed.

End NonNegativeWeights.

(* ================================================================== *)
(** ** GetMvaValue *)

Section EvaluationFacts.

Import DecisionTree MethodBDT Evaluation Ensemble.

Variable this : MethodBDT.t.
Variable ev : Event.t.

Let score (tree : DecisionTree.t) : Double_t :=
  CheckEvent tree ev (fUseYesNoLeaf this).

Lemma at_index_app {A : Type} (pre : list A) (x : A) (post : list A) :
  at_index (pre ++ x :: post) (List.length pre) = Ret x.
Proof.
  unfold at_index. rewrite nth_error_app2 by lia.
  now rewrite Nat.sub_diag.
Qed.

(** The loop in weighted mode, from tree [length pre] on. *)
Lemma mva_loop_weighted (forest : list DecisionTree.t) :
  fUseWeightedTrees this = true ->
  forall (pre ws : list Double_t) (m n : Double_t),
    fBoostWeights this = pre ++ ws ->
    List.length ws = List.length forest ->
    mva_loop this ev forest (List.length pre) m n =
    Ret (dsum_from m (weighted_terms ws (map score forest)), dsum_from n ws).
Proof.
  intros Hmode. induction forest as [| tree forest IH];
    intros pre [| w ws] m n Hws Hlen; simpl in Hlen; try discriminate.
  - reflexivity.
  - cbn [mva_loop]. rewrite Hmode, Hws, at_index_app. cbn [bind].
    replace (S (List.length pre)) with (List.length (pre ++ [w]))
      by (rewrite length_app; simpl; lia).
    rewrite (IH (pre ++ [w]) ws); [reflexivity | | lia].
    rewrite Hws, <- app_assoc. reflexivity.
Qed.

(** The loop in unweighted mode. *)
Lemma mva_loop_unweighted (forest : list DecisionTree.t) :
  fUseWeightedTrees this = false ->
  forall (i : nat) (m n : Double_t),
    mva_loop this ev forest i m n =
    Ret (dsum_from m (map score forest),
         dsum_from n (repeat (Fin 1) (List.length forest))).
Proof.
  intros Hmode. induction forest as [| tree forest IH]; intros i m n.
  - reflexivity.
  - cbn [mva_loop]. rewrite Hmode, IH. reflexivity.
Qed.

Lemma dsum_from_ones (k : nat) (a : R) :
  dsum_from (Fin a) (repeat (Fin 1) k) = Fin (a + INR k).
Proof.
  revert a. induction k as [| k IH]; intros a.
  - simpl. f_equal. lra.
  - cbn [repeat]. unfold dsum_from in *. cbn [fold_left dadd].
    rewrite IH, S_INR. f_equal. lra.
Qed.

Lemma weighted_terms_Fin (ws ss : list R) :
  weighted_terms (map Fin ws) (map Fin ss) =
  map Fin (map (fun p => fst p * snd p) (combine ws ss)).
Proof.
  unfold weighted_terms. revert ss.
  induction ws as [| w ws IH]; intros [| x ss]; simpl; try reflexivity.
  now rewrite IH.
Qed.

(** The loop never terminates the process. *)
Lemma mva_loop_no_exit (forest : list DecisionTree.t) :
  forall (i : nat) (m n : Double_t) (code : Z),
    mva_loop this ev forest i m n <> Exit code.
Proof.
  induction forest as [| tree forest IH]; intros i m n code; cbn [mva_loop].
  - discriminate.
  - destruct (fUseWeightedTrees this); [| apply IH].
    unfold at_index. destruct (nth_error (fBoostWeights this) i); cbn [bind];
      [apply IH | discriminate].
Qed.

Lemma ddiv_by_zero_not_finite (x : Double_t) : is_finite (ddiv x (Fin 0)) = false.
Proof.
  destruct x as [a | | |]; [apply ddiv_Fin_zero_not_finite | | | reflexivity];
    simpl; destruct (Rlt_dec 0 0); reflexivity.
Qed.

Lemma GetMvaValue_weighted :
  fUseWeightedTrees this = true ->
  List.length (fBoostWeights this) = List.length (fForest this) ->
  GetMvaValue this ev =
  Ret (ddiv (dsum (weighted_terms (fBoostWeights this) (scores this ev)))
            (dsum (fBoostWeights this))).
Proof.
  intros Hmode Hlen. unfold GetMvaValue.
  pose proof (mva_loop_weighted (fForest this) Hmode [] (fBoostWeights this)
                (Fin 0) (Fin 0) eq_refl Hlen) as Hloop.
  cbn [List.length] in Hloop. rewrite Hloop. reflexivity.
Qed.

Lemma GetMvaValue_unweighted :
  fUseWeightedTrees this = false ->
  GetMvaValue this ev =
  Ret (ddiv (dsum (scores this ev)) (Fin (INR (List.length (fForest this))))).
Proof.
  intros Hmode. unfold GetMvaValue.
  rewrite (mva_loop_unweighted (fForest this) Hmode).
  cbn [bind]. rewrite dsum_from_ones.
  replace (0 + INR (List.length (fForest this)))
    with (INR (List.length (fForest this))) by lra.
  reflexivity.
Qed.

End EvaluationFacts.

Section EvaluationProperties.

Import DecisionTree MethodBDT Evaluation Ensemble.

(** C5.  For an object whose forest has one round weight per tree: in
    weighted mode [GetMvaValue] returns the sum of the products
    [roundWeight_i * treeScore_i] divided by the sum of the round weights,
    and in unweighted mode the sum of the tree scores divided by the number
    of trees.  When the weights and scores are finite these are the real
    quotients, provided the round weights do not sum to zero (weighted) or
    the forest is not empty (unweighted).  The function returns a value
    only: neither the object nor the event changes. *)
Theorem GetMvaValue_aggregates (this : MethodBDT.t) (ev : Event.t) :
  List.length (fBoostWeights this) = List.length (fForest this) ->
  (fUseWeightedTrees this = true ->
   GetMvaValue this ev =
     Ret (ddiv (dsum (weighted_terms (fBoostWeights this) (scores this ev)))
               (dsum (fBoostWeights this))) /\
   forall ws ss : list R,
     fBoostWeights this = map Fin ws ->
     scores this ev = map Fin ss ->
     Rsum ws <> 0 ->
     GetMvaValue this ev = Ret (Fin (Rdot ws ss / Rsum ws))) /\
  (fUseWeightedTrees this = false ->
   GetMvaValue this ev =
     Ret (ddiv (dsum (scores this ev)) (Fin (INR (List.length (fForest this))))) /\
   forall ss : list R,
     scores this ev = map Fin ss ->
     fForest this <> [] ->
     GetMvaValue this ev = Ret (Fin (Rsum ss / INR (List.length (fForest this))))).
Proof.
  intros Hlen. split; intros Hmode.
  - pose proof (GetMvaValue_weighted this ev Hmode Hlen) as Hval.
    split; [exact Hval |].
    intros ws ss Hws Hss Hsum. rewrite Hval, Hws, Hss.
    rewrite weighted_terms_Fin, !dsum_Fin. now rewrite ddiv_Fin.
  - pose proof (GetMvaValue_unweighted this ev Hmode) as Hval.
    split; [exact Hval |].
    intros ss Hss Hne. rewrite Hval, Hss, dsum_Fin.
    rewrite ddiv_Fin; [reflexivity |].
    destruct (fForest this) as [| tree forest]; [congruence |].
    apply not_0_INR. discriminate.
Qed.

(** The example of the specification: round weights 2 and 3, tree scores
    0.8 and 0.4. *)
Lemma GetMvaValue_aggregates_witness :
  let forest := [Fixture.constant_tree (8 / 10) []; Fixture.constant_tree (4 / 10) []] in
  let ev := Fixture.signal 1 in
  GetMvaValue (Fixture.with_forest true forest [2; 3] 0) ev = Ret (Fin (56 / 100)) /\
  GetMvaValue (Fixture.with_forest false forest [2; 3] 0) ev = Ret (Fin (6 / 10)).
Proof.
  intros forest ev. split.
  - destruct (GetMvaValue_aggregates (Fixture.with_forest true forest [2; 3] 0) ev
                eq_refl) as [Hw _].
    destruct (Hw eq_refl) as [_ Hreal].
    rewrite (Hreal [2; 3] [8 / 10; 4 / 10] eq_refl eq_refl) by (simpl; lra).
    f_equal. f_equal. unfold Rdot. simpl. lra.
  - destruct (GetMvaValue_aggregates (Fixture.with_forest false forest [2; 3] 0) ev
                eq_refl) as [_ Hu].
    destruct (Hu eq_refl) as [_ Hreal].
    rewrite (Hreal [8 / 10; 4 / 10] eq_refl) by discriminate.
    f_equal. f_equal. simpl. lra.
Defined.

(** C6 (as amended).  [GetMvaValue] has no check on the normalizer and
    never terminates the process.  With an empty forest it returns NaN, the
    quotient 0/0; in weighted mode with round weights that sum to zero it
    returns whatever [myMVA / 0] is, an infinity or NaN; no error is
    reported in either case. *)
Theorem GetMvaValue_zero_normalizer (this : MethodBDT.t) (ev : Event.t) :
  (fForest this = [] -> GetMvaValue this ev = Ret NaN) /\
  (fUseWeightedTrees this = true ->
   List.length (fBoostWeights this) = List.length (fForest this) ->
   dsum (fBoostWeights this) = Fin 0 ->
   exists v : Double_t, GetMvaValue this ev = Ret v /\ is_finite v = false) /\
  (forall code : Z, GetMvaValue this ev <> Exit code).
Proof.
  split; [| split].
  - intros Hempty. unfold GetMvaValue. rewrite Hempty. cbn [mva_loop bind].
    now rewrite ddiv_zero_zero.
  - intros Hmode Hlen Hzero.
    rewrite (GetMvaValue_weighted this ev Hmode Hlen), Hzero.
    eexists. split; [reflexivity | apply ddiv_by_zero_not_finite].
  - intros code. unfold GetMvaValue.
    pose proof (mva_loop_no_exit this ev (fForest this) 0 (Fin 0) (Fin 0)) as Hloop.
    destruct (mva_loop this ev (fForest this) 0 (Fin 0) (Fin 0)) as [[m n] | c |];
      cbn [bind]; [discriminate | | discriminate].
    exfalso. now apply (Hloop c).
Qed.

(** Round weights 1 and -1 with tree scores 1 and 0: the normalizer is 0,
    and the call returns +infinity. *)
Lemma GetMvaValue_zero_normalizer_witness :
  let forest := [Fixture.constant_tree 1 []; Fixture.constant_tree 0 []] in
  exists v : Double_t,
    GetMvaValue (Fixture.with_forest true forest [1; -1] 0) (Fixture.signal 1) = Ret v /\
    is_finite v = false.
Proof.
  intros forest.
  destruct (GetMvaValue_zero_normalizer
              (Fixture.with_forest true forest [1; -1] 0) (Fixture.signal 1))
    as (_ & Hzero & _).
  apply Hzero; [reflexivity | reflexivity |].
  unfold dsum, dsum_from. simpl. f_equal. lra.
Defined.

(** C6 as stated fails: scoring an event with an empty forest, whose
    normalizer is zero, is no fatal error; the call returns NaN. *)
Lemma GetMvaValue_empty_forest_returns :
  fForest Fixture.bdt = [] /\
  GetMvaValue Fixture.bdt (Fixture.signal 1) = Ret NaN /\
  GetMvaValue Fixture.bdt (Fixture.signal 1) <> Exit 1.
Proof.
  assert (E : GetMvaValue Fixture.bdt (Fixture.signal 1) = Ret NaN).
  { unfold GetMvaValue. cbn [Fixture.bdt fForest mva_loop bind].
    now rewrite ddiv_zero_zero. }
  split; [reflexivity |]. split; [exact E |]. rewrite E. discriminate.
Qed.

End EvaluationProperties.

(* ================================================================== *)
(** ** GetVariableImportance *)

Section ImportanceFacts.

Import DecisionTree MethodBDT Evaluation Importance.

Lemma length_vsum (a b : list R) :
  List.length b = List.length a -> List.length (vsum a b) = List.length a.
Proof.
  intros H. unfold vsum. rewrite length_map, length_combine. lia.
Qed.

Lemma vsum_assoc (a b c : list R) : vsum (vsum a b) c = vsum a (vsum b c).
Proof.
  unfold vsum. revert b c.
  induction a as [| x a IH]; intros [| y b] [| z c]; simpl; try reflexivity.
  rewrite IH. f_equal. lra.
Qed.

Lemma vsum_zeros_l (b : list R) : vsum (repeat 0 (List.length b)) b = b.
Proof.
  unfold vsum. induction b as [| y b IH]; simpl; [reflexivity |].
  rewrite IH. f_equal. lra.
Qed.

Lemma vsum_zeros_r (a : list R) : vsum a (repeat 0 (List.length a)) = a.
Proof.
  unfold vsum. induction a as [| x a IH]; simpl; [reflexivity |].
  rewrite IH. f_equal. lra.
Qed.

Lemma vsum_map (A : Type) (f1 f2 : A -> R) (l : list A) :
  vsum (map f1 l) (map f2 l) = map (fun x => f1 x + f2 x) l.
Proof.
  unfold vsum. induction l as [| x l IH]; simpl; [reflexivity |].
  now rewrite IH.
Qed.

Lemma Rsum_vsum (a b : list R) :
  List.length b = List.length a -> Rsum (vsum a b) = Rsum a + Rsum b.
Proof.
  unfold vsum. revert b.
  induction a as [| x a IH]; intros [| y b] H; simpl in *; try discriminate.
  - lra.
  - rewrite IH by lia. lra.
Qed.

Lemma vsum_nonneg (a b : list R) :
  Forall (fun x => 0 <= x) a -> Forall (fun x => 0 <= x) b ->
  Forall (fun x => 0 <= x) (vsum a b).
Proof.
  unfold vsum. intros Ha. revert b.
  induction Ha as [| x a Hx _ IH]; intros b Hb; [constructor |].
  destruct Hb as [| y b Hy Hb]; simpl; constructor; [lra | now apply IH].
Qed.

Lemma tree_contract_Fin (nvar : nat) (tree : DecisionTree.t) :
  tree_contract nvar tree ->
  DecisionTree.GetVariableImportance tree = map Fin (tree_importance_R tree) /\
  List.length (tree_importance_R tree) = nvar /\
  Forall (fun x => 0 <= x) (tree_importance_R tree).
Proof.
  unfold tree_contract, tree_importance_R. intros [Hlen Hall].
  rewrite length_map. split; [| split; [exact Hlen |]].
  - clear Hlen. induction Hall as [| x l (r & -> & _) _ IH]; simpl; [reflexivity |].
    now rewrite <- IH.
  - clear Hlen. rewrite Forall_map. revert Hall. apply Forall_impl.
    intros x (r & -> & Hr). exact Hr.
Qed.

(** The inner loop on finite vectors of the same length. *)
Lemma add_into_Fin (acc rel : list R) :
  List.length rel = List.length acc ->
  add_into (map Fin acc) (map Fin rel) = Ret (map Fin (vsum acc rel)).
Proof.
  unfold vsum. revert acc.
  induction rel as [| r rel IH]; intros [| a acc] H; simpl in *; try discriminate.
  - reflexivity.
  - rewrite IH by lia. reflexivity.
Qed.

(** The loop over the trees, started on a finite vector. *)
Lemma importance_loop_Fin (rest : list DecisionTree.t) :
  forall (pre : list DecisionTree.t) (acc : list R),
    Forall (tree_contract (List.length acc)) rest ->
    importance_loop (pre ++ rest) (List.length rest) (List.length pre) (map Fin acc) =
    Ret (map Fin (summed_from acc rest)).
Proof.
  induction rest as [| tree rest IH]; intros pre acc Hall; [reflexivity |].
  inversion Hall as [| ? ? Htree Hrest]; subst.
  destruct (tree_contract_Fin _ _ Htree) as (Himp & Hlen & _).
  cbn [importance_loop List.length]. rewrite at_index_app. cbn [bind].
  rewrite Himp, add_into_Fin by exact Hlen. cbn [bind].
  replace (pre ++ tree :: rest) with ((pre ++ [tree]) ++ rest)
    by (rewrite <- app_assoc; reflexivity).
  replace (S (List.length pre)) with (List.length (pre ++ [tree]))
    by (rewrite length_app; simpl; lia).
  rewrite IH; [reflexivity |].
  now rewrite length_vsum.
Qed.

Lemma length_summed_from (forest : list DecisionTree.t) :
  forall acc : list R,
    Forall (tree_contract (List.length acc)) forest ->
    List.length (summed_from acc forest) = List.length acc.
Proof.
  induction forest as [| tree forest IH]; intros acc Hall; [reflexivity |].
  inversion Hall as [| ? ? Htree Hrest]; subst.
  destruct (tree_contract_Fin _ _ Htree) as (_ & Hlen & _).
  unfold summed_from in *. cbn [fold_left].
  rewrite IH; rewrite length_vsum; auto.
Qed.

(** Accumulating on top of [acc] is adding [acc] to what accumulates on
    top of the zero vector. *)
Lemma summed_from_vsum (forest : list DecisionTree.t) :
  forall acc : list R,
    Forall (tree_contract (List.length acc)) forest ->
    summed_from acc forest =
    vsum acc (summed_importance (List.length acc) forest).
Proof.
  unfold summed_importance.
  induction forest as [| tree forest IH]; intros acc Hall.
  - simpl. now rewrite vsum_zeros_r.
  - inversion Hall as [| ? ? Htree Hrest]; subst.
    destruct (tree_contract_Fin _ _ Htree) as (_ & Hlen & _).
    unfold summed_from in *. cbn [fold_left].
    rewrite IH by (rewrite length_vsum; auto).
    rewrite (IH (vsum (repeat 0 (List.length acc)) (tree_importance_R tree)))
      by (rewrite length_vsum; rewrite repeat_length; auto).
    rewrite !length_vsum, repeat_length by (rewrite ?repeat_length; auto).
    rewrite <- Hlen at 2. rewrite vsum_zeros_l.
    now rewrite vsum_assoc.
Qed.

(** The grand total is the sum of everything the trees report. *)
Lemma Rsum_summed_from (forest : list DecisionTree.t) :
  forall acc : list R,
    Forall (tree_contract (List.length acc)) forest ->
    Rsum (summed_from acc forest) =
    Rsum acc + Rsum (map (fun tree => Rsum (tree_importance_R tree)) forest).
Proof.
  induction forest as [| tree forest IH]; intros acc Hall; [simpl; lra |].
  inversion Hall as [| ? ? Htree Hrest]; subst.
  destruct (tree_contract_Fin _ _ Htree) as (_ & Hlen & _).
  unfold summed_from in *. cbn [fold_left map Rsum].
  rewrite IH by (rewrite length_vsum; auto).
  rewrite Rsum_vsum by exact Hlen. lra.
Qed.

Lemma summed_from_nonneg (forest : list DecisionTree.t) :
  forall acc : list R,
    Forall (tree_contract (List.length acc)) forest ->
    Forall (fun x => 0 <= x) acc ->
    Forall (fun x => 0 <= x) (summed_from acc forest).
Proof.
  induction forest as [| tree forest IH]; intros acc Hall Hacc; [exact Hacc |].
  inversion Hall as [| ? ? Htree Hrest]; subst.
  destruct (tree_contract_Fin _ _ Htree) as (_ & Hlen & Hnn).
  unfold summed_from in *. cbn [fold_left].
  apply IH; [rewrite length_vsum; auto | now apply vsum_nonneg].
Qed.

Lemma zeros_nonneg (n : nat) : Forall (fun x => 0 <= x) (repeat 0 n).
Proof. induction n; simpl; constructor; [lra | assumption]. Qed.

Lemma Rsum_zeros (n : nat) : Rsum (repeat 0 n) = 0.
Proof. induction n as [| n IH]; simpl; [reflexivity | rewrite IH; lra]. Qed.

End ImportanceFacts.

Section ImportanceCalls.

Import DecisionTree MethodBDT Evaluation Importance.

Lemma length_resize (v : list Double_t) (n : nat) : List.length (resize v n) = n.
Proof.
  unfold resize. rewrite length_app, length_firstn, repeat_length. lia.
Qed.

Lemma resize_same (v : list Double_t) : resize v (List.length v) = v.
Proof.
  unfold resize. rewrite firstn_all, Nat.sub_diag. simpl. apply app_nil_r.
Qed.

Lemma resize_nil (n : nat) : resize [] n = map Fin (repeat 0 n).
Proof.
  unfold resize. rewrite firstn_nil, Nat.sub_0_r, map_repeat. reflexivity.
Qed.

(** A call that finds a finite vector [a] in the member, after the resize,
    returns the accumulated vector divided by its total. *)
Lemma GetVariableImportance_from (this : MethodBDT.t) (a : list R) :
  resize (fVariableImportance this) (fNvar this) = map Fin a ->
  fNTrees this = Z.of_nat (List.length (fForest this)) ->
  Forall (tree_contract (fNvar this)) (fForest this) ->
  let S := summed_from a (fForest this) in
  let v := map (fun x => ddiv (Fin x) (Fin (Rsum S))) S in
  GetVariableImportance this = Ret (set_importance this v, v).
Proof.
  intros Hres Hn Hall S v.
  assert (Hlen : List.length a = fNvar this).
  { rewrite <- (length_resize (fVariableImportance this) (fNvar this)), Hres.
    now rewrite length_map. }
  unfold GetVariableImportance. rewrite Hres, Hn, Nat2Z.id.
  pose proof (importance_loop_Fin (fForest this) [] a) as Hloop.
  cbn [app List.length] in Hloop. rewrite Hloop by now rewrite Hlen.
  cbn [bind]. fold S. rewrite dsum_Fin, map_map. reflexivity.
Qed.

(** The first call on a fresh object. *)
Lemma GetVariableImportance_fresh (this : MethodBDT.t) :
  fresh this ->
  let S := summed_importance (fNvar this) (fForest this) in
  let v := map (fun x => ddiv (Fin x) (Fin (Rsum S))) S in
  GetVariableImportance this = Ret (set_importance this v, v).
Proof.
  intros (Hnil & Hn & Hall). cbv zeta.
  apply GetVariableImportance_from; [| exact Hn | exact Hall].
  rewrite Hnil. apply resize_nil.
Qed.

Lemma summed_importance_length (nvar : nat) (forest : list DecisionTree.t) :
  Forall (tree_contract nvar) forest ->
  List.length (summed_importance nvar forest) = nvar.
Proof.
  intros Hall. unfold summed_importance.
  rewrite length_summed_from; rewrite repeat_length; auto.
Qed.

Lemma summed_importance_nonneg (nvar : nat) (forest : list DecisionTree.t) :
  Forall (tree_contract nvar) forest ->
  Forall (fun x => 0 <= x) (summed_importance nvar forest).
Proof.
  intros Hall. unfold summed_importance.
  apply summed_from_nonneg; [now rewrite repeat_length | apply zeros_nonneg].
Qed.

(** While the member holds NaN everywhere, it stays so. *)
Lemma add_into_NaN (rel : list R) :
  add_into (repeat NaN (List.length rel)) (map Fin rel) =
  Ret (repeat NaN (List.length rel)).
Proof.
  induction rel as [| r rel IH]; simpl; [reflexivity |].
  rewrite IH. reflexivity.
Qed.

Lemma importance_loop_NaN (nvar : nat) (rest : list DecisionTree.t) :
  forall pre : list DecisionTree.t,
    Forall (tree_contract nvar) rest ->
    importance_loop (pre ++ rest) (List.length rest) (List.length pre)
                    (repeat NaN nvar) =
    Ret (repeat NaN nvar).
Proof.
  induction rest as [| tree rest IH]; intros pre Hall; [reflexivity |].
  inversion Hall as [| ? ? Htree Hrest]; subst.
  destruct (tree_contract_Fin _ _ Htree) as (Himp & Hlen & _).
  cbn [importance_loop List.length]. rewrite at_index_app. cbn [bind].
  rewrite Himp. rewrite <- Hlen at 1. rewrite add_into_NaN, Hlen. cbn [bind].
  replace (pre ++ tree :: rest) with ((pre ++ [tree]) ++ rest)
    by (rewrite <- app_assoc; reflexivity).
  replace (S (List.length pre)) with (List.length (pre ++ [tree]))
    by (rewrite length_app; simpl; lia).
  now apply IH.
Qed.

Lemma set_importance_twice (this : MethodBDT.t) (v w : list Double_t) :
  set_importance (set_importance this v) w = set_importance this w.
Proof. reflexivity. Qed.

(** With [Double_t] read as the real numbers: on a fresh object the second
    call returns what the first returned, and leaves the object as the
    first call left it.  The numbers computed in binary64 do differ, in the
    last place; see [GetVariableImportance_binary64_second_call_differs]. *)
Lemma GetVariableImportance_twice_same (this : MethodBDT.t) :
  fresh this ->
  exists v : list Double_t,
    GetVariableImportance this = Ret (set_importance this v, v) /\
    GetVariableImportance (set_importance this v) = Ret (set_importance this v, v).
Proof.
  intros Hfresh. pose proof (GetVariableImportance_fresh this Hfresh) as Hfirst.
  destruct Hfresh as (Hnil & Hn & Hall). cbv zeta in Hfirst.
  set (S := summed_importance (fNvar this) (fForest this)) in *.
  set (T := Rsum S) in *.
  pose proof (summed_importance_length _ _ Hall) as HlenS. fold S in HlenS.
  pose proof (summed_importance_nonneg _ _ Hall) as HnnS. fold S in HnnS.
  pose proof (Rsum_nonneg S HnnS) as HT. fold T in HT.
  eexists. split; [exact Hfirst |].
  destruct (Req_dec_T T 0) as [Hz | Hnz].
  - (* the grand total is zero: every entry is 0/0 *)
    assert (Hzero : Forall (fun x => x = 0) S)
      by (apply Rsum_zero_all_zero; assumption).
    assert (Hv : map (fun x => ddiv (Fin x) (Fin T)) S = repeat NaN (fNvar this)).
    { rewrite <- HlenS. rewrite Hz. clear - Hzero.
      induction Hzero as [| x l Hx _ IH]; [reflexivity |].
      cbn [map List.length repeat]. rewrite IH, Hx, ddiv_zero_zero. reflexivity. }
    rewrite Hv. unfold GetVariableImportance.
    cbn [fVariableImportance fNvar fForest fNTrees set_importance].
    rewrite <- (repeat_length NaN (fNvar this)) at 2. rewrite resize_same.
    rewrite Hn, Nat2Z.id.
    pose proof (importance_loop_NaN (fNvar this) (fForest this) [] Hall) as Hloop.
    cbn [app List.length] in Hloop. rewrite Hloop. cbn [bind].
    rewrite map_repeat. reflexivity.
  - (* the grand total is positive *)
    assert (Hv : map (fun x => ddiv (Fin x) (Fin T)) S
                 = map Fin (map (fun x => x / T) S)).
    { rewrite map_map. apply map_ext. intros x. now rewrite ddiv_Fin. }
    rewrite Hv.
    pose proof (GetVariableImportance_from
                  (set_importance this (map Fin (map (fun x => x / T) S)))
                  (map (fun x => x / T) S)) as Hsecond.
    cbn [fVariableImportance fNvar fForest fNTrees set_importance] in Hsecond.
    rewrite set_importance_twice in Hsecond.
    rewrite Hsecond; [| | exact Hn | exact Hall].
    + assert (HS2 : summed_from (map (fun x => x / T) S) (fForest this)
                    = map (fun x => x / T + x) S).
      { rewrite summed_from_vsum by (now rewrite length_map, HlenS).
        rewrite length_map, HlenS. fold S.
        rewrite <- (map_id S) at 2. apply vsum_map. }
      rewrite HS2.
      assert (HT2 : Rsum (map (fun x => x / T + x) S) = 1 + T).
      { transitivity (Rsum (map (fun x => x * (/ T + 1)) S)).
        - f_equal. apply map_ext. intros x. unfold Rdiv. lra.
        - rewrite Rsum_scale, map_id. fold T. now field. }
      rewrite HT2.
      assert (Hsame : map (fun x => ddiv (Fin x) (Fin (1 + T)))
                          (map (fun x => x / T + x) S)
                      = map Fin (map (fun x => x / T) S)).
      { rewrite !map_map. apply map_ext. intros x.
        rewrite ddiv_Fin by lra. f_equal. field. split; lra. }
      rewrite Hsame. reflexivity.
    + replace (fNvar this)
        with (List.length (map Fin (map (fun x => x / T) S)))
        by (now rewrite !length_map).
      apply resize_same.
Qed.

End ImportanceCalls.

Section ImportanceProperties.

Import DecisionTree MethodBDT Evaluation Importance.

Lemma importance_entry_positive (l : list Double_t) :
  Forall (fun x => exists r, x = Fin r /\ 0 <= r) l ->
  Exists (fun x => x <> Fin 0) l ->
  0 < Rsum (map to_R l).
Proof.
  intros Hall Hex.
  assert (Hnn : Forall (fun x => 0 <= x) (map to_R l)).
  { rewrite Forall_map. revert Hall. apply Forall_impl.
    intros x (r & -> & Hr). exact Hr. }
  induction Hex as [x l Hx | x l _ IH].
  - inversion Hall as [| ? ? (r & -> & Hr) Hl]; subst.
    inversion Hnn as [| ? ? _ Hnn']; subst.
    pose proof (Rsum_nonneg _ Hnn'). simpl.
    assert (r <> 0) by (intros ->; now apply Hx). lra.
  - inversion Hall as [| ? ? (r & -> & Hr) Hl]; subst.
    inversion Hnn as [| ? ? _ Hnn']; subst.
    specialize (IH Hl Hnn'). simpl. lra.
Qed.

Lemma forest_gain_positive (nvar : nat) (forest : list DecisionTree.t) :
  Forall (tree_contract nvar) forest ->
  Exists (fun tree => Exists (fun x => x <> Fin 0)
                             (DecisionTree.GetVariableImportance tree)) forest ->
  0 < Rsum (map (fun tree => Rsum (tree_importance_R tree)) forest).
Proof.
  intros Hall Hex.
  assert (Hnn : Forall (fun x => 0 <= x)
                  (map (fun tree => Rsum (tree_importance_R tree)) forest)).
  { rewrite Forall_map. revert Hall. apply Forall_impl. intros tree Htree.
    destruct (tree_contract_Fin _ _ Htree) as (_ & _ & Hpos).
    now apply Rsum_nonneg. }
  induction Hex as [tree forest Htree | tree forest _ IH].
  - inversion Hall as [| ? ? [_ Hc] _]; subst.
    inversion Hnn as [| ? ? _ Hnn']; subst.
    pose proof (Rsum_nonneg _ Hnn').
    pose proof (importance_entry_positive _ Hc Htree) as Hpos.
    fold (tree_importance_R tree) in Hpos. simpl. lra.
  - inversion Hall as [| ? ? _ Hl]; subst.
    inversion Hnn as [| ? ? Hx Hnn']; subst.
    specialize (IH Hl Hnn'). simpl. lra.
Qed.

(** C7.  On an object where [GetVariableImportance] has not been called
    before, whose trees each report one finite non-negative importance per
    input variable, at least one of them nonzero: the grand total [T] of
    the element-wise sum [S] of the trees' vectors is positive, the call
    returns (and stores) [S] divided by [T], every entry of which is
    non-negative, and the entries sum to 1. *)
Theorem GetVariableImportance_normalised (this : MethodBDT.t) :
  fresh this ->
  Exists (fun tree => Exists (fun x => x <> Fin 0)
                             (DecisionTree.GetVariableImportance tree))
         (fForest this) ->
  let S := summed_importance (fNvar this) (fForest this) in
  let T := Rsum S in
  let v := map (fun x => x / T) S in
  0 < T /\
  GetVariableImportance this = Ret (set_importance this (map Fin v), map Fin v) /\
  Forall (fun x => 0 <= x) v /\
  Rsum v = 1.
Proof.
  intros Hfresh Hex S T v.
  pose proof (GetVariableImportance_fresh this Hfresh) as Hcall. cbv zeta in Hcall.
  destruct Hfresh as (Hnil & Hn & Hall).
  assert (HT : 0 < T).
  { unfold T, S, summed_importance.
    rewrite Rsum_summed_from by now rewrite repeat_length.
    rewrite Rsum_zeros.
    pose proof (forest_gain_positive _ _ Hall Hex). lra. }
  assert (Hv : map (fun x => ddiv (Fin x) (Fin T)) S = map Fin v).
  { unfold v. rewrite map_map. apply map_ext. intros x.
    rewrite ddiv_Fin by lra. reflexivity. }
  fold S in Hcall. fold T in Hcall. rewrite Hv in Hcall.
  split; [exact HT |]. split; [exact Hcall |]. split.
  - unfold v. rewrite Forall_map.
    pose proof (summed_importance_nonneg _ _ Hall) as HS. fold S in HS.
    revert HS. apply Forall_impl. intros x Hx.
    apply Rmult_le_pos; [exact Hx |]. left. now apply Rinv_0_lt_compat.
  - unfold v. transitivity (Rsum (map (fun x => x * / T) S)).
    { f_equal. }
    rewrite Rsum_scale, map_id. fold T. field. lra.
Qed.

Lemma fixture_tree_contract (s : R) (imp : list R) :
  Forall (fun x => 0 <= x) imp ->
  tree_contract (List.length imp) (Fixture.constant_tree s imp).
Proof.
  intros Himp. split; simpl; [apply length_map |].
  rewrite Forall_map. revert Himp. apply Forall_impl.
  intros x Hx. now exists x.
Qed.

(** A forest of one tree that reports the importances 1 and 3. *)
Lemma fixture_fresh :
  fresh (Fixture.with_forest true [Fixture.constant_tree 1 [1; 3]] [1] 2).
Proof.
  split; [reflexivity |]. split; [reflexivity |].
  constructor; [| constructor].
  apply (fixture_tree_contract 1 [1; 3]). repeat constructor; lra.
Qed.

Lemma GetVariableImportance_normalised_witness :
  let this := Fixture.with_forest true [Fixture.constant_tree 1 [1; 3]] [1] 2 in
  exists this' : MethodBDT.t,
    GetVariableImportance this = Ret (this', [Fin (1 / 4); Fin (3 / 4)]).
Proof.
  intros this.
  assert (Hex : Exists (fun tree => Exists (fun x => x <> Fin 0)
                                      (DecisionTree.GetVariableImportance tree))
                       (fForest this)).
  { constructor. constructor. intros H. injection H as H. lra. }
  destruct (GetVariableImportance_normalised this fixture_fresh Hex)
    as (_ & Hcall & _ & _).
  eexists. rewrite Hcall. f_equal. f_equal.
  unfold summed_importance, summed_from, vsum, tree_importance_R. simpl.
  f_equal; [| f_equal]; f_equal; field.
Defined.

End ImportanceProperties.

(** Evaluates the accumulated importance of a concrete forest. *)
Ltac eval_importance :=
  unfold Importance.summed_importance, Importance.summed_from, Importance.vsum,
    Importance.tree_importance_R;
  cbn [Fixture.with_forest Fixture.constant_tree MethodBDT.fForest MethodBDT.fNvar
       MethodBDT.set_forest MethodBDT.set_importance
       DecisionTree.GetVariableImportance fold_left map combine fst snd repeat
       Rsum to_R];
  rewrite ?ddiv_Fin by lra;
  decide_reals.

Section ImportanceRepeatedCalls.

Import DecisionTree MethodBDT Evaluation Importance.

Lemma map_Fin_inj (a b : list R) : map Fin a = map Fin b -> a = b.
Proof.
  revert b. induction a as [| x a IH]; intros [| y b] H; try discriminate H;
    [reflexivity |].
  injection H as Hx Hrest. f_equal; [exact Hx | now apply IH].
Qed.

(** If renormalising [v1 + S], of total [1 + T], gives [v1] again, where
    [v1] is [m + S] over its total [M + T], then [m] is to [S] as [M] is to
    [T]. *)
Lemma renormalised_again_proportional (M T : R) :
  0 < M + T -> 0 < T ->
  forall m S : list R,
    List.length S = List.length m ->
    map (fun x => x / (M + T)) (vsum m S)
    = map (fun x => x / (1 + T)) (vsum (map (fun x => x / (M + T)) (vsum m S)) S) ->
    Forall2 (fun a s => a * T = s * M) m S.
Proof.
  intros HMT HT. unfold vsum.
  induction m as [| a m IH]; intros [| s S] Hlen H; try discriminate Hlen;
    [constructor |].
  cbn [combine map fst snd] in H. injection H as Hhead Hrest.
  constructor; [| apply IH; [simpl in Hlen; lia | exact Hrest]].
  set (q := (a + s) / (M + T)) in *.
  assert (Hq : q * (M + T) = a + s) by (unfold q; field; lra).
  assert (Hq' : q * (1 + T) = q + s).
  { rewrite Hhead at 1. field. lra. }
  nra.
Qed.

(** Two calls in a row on an object whose member holds, after the resize,
    the finite non-negative vector [m]. *)
Lemma GetVariableImportance_twice (this : MethodBDT.t) (m : list R) :
  resize (fVariableImportance this) (fNvar this) = map Fin m ->
  Forall (fun x => 0 <= x) m ->
  fNTrees this = Z.of_nat (List.length (fForest this)) ->
  Forall (tree_contract (fNvar this)) (fForest this) ->
  let S := summed_importance (fNvar this) (fForest this) in
  0 < Rsum S ->
  let v1 := map (fun x => x / (Rsum m + Rsum S)) (vsum m S) in
  let v2 := map (fun x => x / (1 + Rsum S)) (vsum v1 S) in
  GetVariableImportance this = Ret (set_importance this (map Fin v1), map Fin v1) /\
  GetVariableImportance (set_importance this (map Fin v1))
  = Ret (set_importance this (map Fin v2), map Fin v2).
Proof.
  intros Hres Hm Hn Hall S HT v1 v2.
  assert (Hlen : List.length m = fNvar this).
  { rewrite <- (length_resize (fVariableImportance this) (fNvar this)), Hres.
    now rewrite length_map. }
  pose proof (summed_importance_length _ _ Hall) as HlenS. fold S in HlenS.
  pose proof (Rsum_nonneg m Hm) as HM.
  assert (Hfirst : GetVariableImportance this
                   = Ret (set_importance this (map Fin v1), map Fin v1)).
  { rewrite (GetVariableImportance_from this m Hres Hn Hall).
    rewrite summed_from_vsum by now rewrite Hlen.
    rewrite Hlen. fold S.
    rewrite Rsum_vsum by now rewrite HlenS, Hlen.
    assert (Hv : map (fun x => ddiv (Fin x) (Fin (Rsum m + Rsum S))) (vsum m S)
                 = map Fin v1).
    { unfold v1. rewrite map_map. apply map_ext. intros x.
      rewrite ddiv_Fin by lra. reflexivity. }
    rewrite Hv. reflexivity. }
  split; [exact Hfirst |].
  assert (Hlen1 : List.length v1 = fNvar this).
  { unfold v1. rewrite length_map, length_vsum; [exact Hlen | now rewrite HlenS, Hlen]. }
  assert (Hsum1 : Rsum v1 = 1).
  { unfold v1. transitivity (Rsum (map (fun x => x * / (Rsum m + Rsum S)) (vsum m S))).
    { f_equal. }
    rewrite Rsum_scale, map_id, Rsum_vsum by now rewrite HlenS, Hlen.
    field. lra. }
  pose proof (GetVariableImportance_from (set_importance this (map Fin v1)) v1)
    as Hsecond.
  cbn [fVariableImportance fNvar fForest fNTrees set_importance] in Hsecond.
  rewrite set_importance_twice in Hsecond.
  rewrite Hsecond; [| | exact Hn | exact Hall].
  - rewrite summed_from_vsum by now rewrite Hlen1.
    rewrite Hlen1. fold S.
    rewrite Rsum_vsum by now rewrite HlenS, Hlen1.
    rewrite Hsum1.
    assert (Hv : map (fun x => ddiv (Fin x) (Fin (1 + Rsum S))) (vsum v1 S)
                 = map Fin v2).
    { unfold v2. rewrite map_map. apply map_ext. intros x.
      rewrite ddiv_Fin by lra. reflexivity. }
    rewrite Hv. reflexivity.
  - rewrite <- Hlen1. rewrite <- (length_map Fin v1). apply resize_same.
Qed.

Lemma stump_contract (a b : R) :
  0 <= a -> 0 <= b ->
  Forall (tree_contract 2) [Fixture.constant_tree 1 [a; b]].
Proof.
  intros Ha Hb. constructor; [| constructor].
  apply (fixture_tree_contract 1 [a; b]).
  constructor; [exact Ha | constructor; [exact Hb | constructor]].
Qed.

(** C10.  [GetVariableImportance] adds the trees' importances into the
    member [fVariableImportance], which it resizes but does not set to
    zero.  A call that finds the finite non-negative vector [m], of total
    [M], in the member returns [v1 = (m + S) / (M + T)] and leaves it in
    the member, [S] being the element-wise sum of the trees' vectors and
    [T > 0] its total; the forest is as it was; the next call returns
    [v2 = (v1 + S) / (1 + T)], the renormalised sum of what the first call
    returned and a fresh accumulation; and the two vectors differ unless
    [m] is to [S] as [M] is to [T].  There is a forest on which two calls in
    a row do differ: the object has answered a call while it held a forest
    whose tree reports (1, 0), and has then read, by
    [ReadWeightsFromStream], a forest whose tree reports (0, 1); on this
    forest the first call returns (1/2, 1/2) and the second (1/4, 3/4),
    while an object that has only ever held this forest returns (0, 1).
    All these numbers are binary fractions, which binary64 computes
    without rounding. *)
Theorem GetVariableImportance_not_idempotent :
  (forall (this : MethodBDT.t) (m : list R),
      resize (fVariableImportance this) (fNvar this) = map Fin m ->
      Forall (fun x => 0 <= x) m ->
      fNTrees this = Z.of_nat (List.length (fForest this)) ->
      Forall (tree_contract (fNvar this)) (fForest this) ->
      let S := summed_importance (fNvar this) (fForest this) in
      let M := Rsum m in
      let T := Rsum S in
      0 < T ->
      let v1 := map (fun x => x / (M + T)) (vsum m S) in
      let v2 := map (fun x => x / (1 + T)) (vsum v1 S) in
      let this1 := set_importance this (map Fin v1) in
      GetVariableImportance this = Ret (this1, map Fin v1) /\
      fForest this1 = fForest this /\
      GetVariableImportance this1 = Ret (set_importance this1 (map Fin v2), map Fin v2) /\
      (~ Forall2 (fun a s => a * T = s * M) m S -> map Fin v1 <> map Fin v2)) /\
  (let f := Fixture.constant_format (Fixture.constant_tree 1 [0; 1]) in
   let before := Fixture.with_forest true [Fixture.constant_tree 1 [1; 0]] [1] 2 in
   let written := Fixture.with_forest true [Fixture.constant_tree 1 [0; 1]] [1] 2 in
   exists (used this this1 this2 unused1 : MethodBDT.t) (o : Stream.t),
     GetVariableImportance before = Ret (used, [Fin 1; Fin 0]) /\
     Persistence.WriteWeightsToStream f written = Ret o /\
     Persistence.ReadWeightsFromStream f used o = Ret (this, []) /\
     fForest this = fForest written /\
     GetVariableImportance this = Ret (this1, [Fin (1 / 2); Fin (1 / 2)]) /\
     fForest this1 = fForest this /\
     GetVariableImportance this1 = Ret (this2, [Fin (1 / 4); Fin (3 / 4)]) /\
     [Fin (1 / 2); Fin (1 / 2)] <> [Fin (1 / 4); Fin (3 / 4)] /\
     GetVariableImportance written = Ret (unused1, [Fin 0; Fin 1])).
Proof.
  split.
  - intros this m Hres Hm Hn Hall S M T HT v1 v2 this1.
    destruct (GetVariableImportance_twice this m Hres Hm Hn Hall HT)
      as [Hfirst Hsecond].
    fold S M T v1 in Hfirst, Hsecond. fold v2 in Hsecond. fold this1 in Hfirst, Hsecond.
    split; [exact Hfirst |]. split; [reflexivity |].
    split; [exact Hsecond |].
    intros Hnot Heq. apply Hnot. apply map_Fin_inj in Heq.
    pose proof (Rsum_nonneg m Hm) as HM. fold M in HM.
    apply (renormalised_again_proportional M T); [lra | exact HT | | exact Heq].
    unfold S. rewrite summed_importance_length by exact Hall.
    rewrite <- (length_resize (fVariableImportance this) (fNvar this)), Hres.
    now rewrite length_map.
  - intros f before written.
    pose proof (stump_contract 1 0 ltac:(lra) ltac:(lra)) as Hc10.
    pose proof (stump_contract 0 1 ltac:(lra) ltac:(lra)) as Hc01.
    exists (set_importance before [Fin 1; Fin 0]).
    exists (set_forest (set_importance before [Fin 1; Fin 0]) 1
                       [Fixture.constant_tree 1 [0; 1]] [Fin 1]).
    eexists (set_importance _ [Fin (1 / 2); Fin (1 / 2)]).
    eexists (set_importance _ [Fin (1 / 4); Fin (3 / 4)]).
    exists (set_importance written [Fin 0; Fin 1]).
    exists ["NTrees="; "1"; "-999"; "*******Tree"; "0"; "boostWeight"; "1"; "leaf"]%string.
    split.
    { unfold before, written.
      match goal with |- GetVariableImportance ?t = _ =>
        rewrite (GetVariableImportance_from t [0; 0] eq_refl eq_refl Hc10)
      end.
      eval_importance. repeat (f_equal; try field). }
    split; [reflexivity |]. split; [reflexivity |]. split; [reflexivity |].
    split.
    { unfold before, written.
      match goal with |- GetVariableImportance ?t = _ =>
        rewrite (GetVariableImportance_from t [1; 0] eq_refl eq_refl Hc01)
      end.
      eval_importance. repeat (f_equal; try field). }
    split; [reflexivity |]. split.
    { unfold before, written.
      match goal with |- GetVariableImportance ?t = _ =>
        rewrite (GetVariableImportance_from t [1 / 2; 1 / 2] eq_refl eq_refl Hc01)
      end.
      eval_importance. repeat (f_equal; try field). }
    split.
    { intros H. injection H as H _. lra. }
    unfold written.
    match goal with |- GetVariableImportance ?t = _ =>
      rewrite (GetVariableImportance_from t [0; 0] eq_refl eq_refl Hc01)
    end.
    eval_importance. repeat (f_equal; try field).
Qed.

(** The general part at the object that has read the second forest: the
    member holds (1, 0), the tree reports (0, 1). *)
Lemma GetVariableImportance_not_idempotent_witness :
  let this :=
    set_forest (set_importance
                  (Fixture.with_forest true [Fixture.constant_tree 1 [1; 0]] [1] 2)
                  [Fin 1; Fin 0])
               1 [Fixture.constant_tree 1 [0; 1]] [Fin 1] in
  exists (this1 this2 : MethodBDT.t) (v1 v2 : list Double_t),
    GetVariableImportance this = Ret (this1, v1) /\
    GetVariableImportance this1 = Ret (this2, v2) /\
    v1 <> v2.
Proof.
  intros this.
  destruct GetVariableImportance_not_idempotent as [Hgeneral _].
  pose proof (stump_contract 0 1 ltac:(lra) ltac:(lra)) as Hc01.
  assert (HS : summed_importance (fNvar this) (fForest this) = [0 + 0; 0 + 1])
    by reflexivity.
  assert (HT : 0 < Rsum (summed_importance (fNvar this) (fForest this))).
  { rewrite HS. simpl. lra. }
  assert (Hm : Forall (fun x => 0 <= x) [1; 0]) by (repeat constructor; lra).
  destruct (Hgeneral this [1; 0] eq_refl Hm eq_refl Hc01 HT)
    as (Hfirst & _ & Hsecond & Hdiffer).
  eexists. eexists. eexists. eexists.
  split; [exact Hfirst |]. split; [exact Hsecond |].
  apply Hdiffer. rewrite HS. intros Hprop.
  inversion Hprop as [| a s m S Ha Hrest]; subst. simpl in Ha. lra.
Defined.

End ImportanceRepeatedCalls.

Section ImportanceBinary64.

Import PrimFloat.
Local Open Scope float_scope.

(** On an object that has only ever held one forest the two vectors [v1]
    and [v2] above are the same real numbers, but the numbers computed are
    not: in binary64, for a forest of one tree that reports (1, 5), the
    first call returns the binary64 numbers nearest to 1/6 and 5/6, and the
    second call, which renormalises these plus (1, 5), returns a first entry
    that is greater and a second entry that is less. *)
Lemma GetVariableImportance_binary64_second_call_differs :
  let forest := [[1; 5]] in
  exists v1 v2 : list float,
    Binary64.GetVariableImportance [] 2 1 forest = Ret v1 /\
    Binary64.GetVariableImportance v1 2 1 forest = Ret v2 /\
    v1 = [1 / 6; 5 / 6] /\
    Binary64.map2_ltb v1 v2 = [true; false] /\
    Binary64.map2_ltb v2 v1 = [false; true] /\
    v1 <> v2.
Proof.
  intros forest. eexists. eexists.
  split; [reflexivity |]. split; [reflexivity |].
  split; [reflexivity |]. split; [reflexivity |]. split; [reflexivity |].
  intros H.
  assert (Hlt : Binary64.map2_ltb [1 / 6; 5 / 6] [1 / 6; 5 / 6] = [false; false])
    by reflexivity.
  rewrite H in Hlt at 2.
  discriminate Hlt.
Qed.

End ImportanceBinary64.

(* ================================================================== *)
(** ** Writing and reading the weight file *)

Section PersistenceFacts.

Import DecisionTree MethodBDT Stream Persistence Layout.
Local Open Scope string_scope.

Variable f : Stream.format.

(** An unsigned number that fits an [Int_t] reads back as it was written. *)
Lemma read_Int_t_print_unsigned (n : nat) (rest : Stream.t) :
  (Z.of_nat n <= Int_t_max)%Z ->
  read_Int_t (print_unsigned n :: rest) = Ret (Z.of_nat n, rest).
Proof.
  intros Hmax. unfold read_Int_t, print_unsigned.
  rewrite NilZero.isi.
  - rewrite DecimalZ.of_to.
    assert (Hlo : (Int_t_min <=? Z.of_nat n)%Z = true)
      by (apply Z.leb_le; unfold Int_t_min; lia).
    assert (Hhi : (Z.of_nat n <=? Int_t_max)%Z = true) by now apply Z.leb_le.
    now rewrite Hlo, Hhi.
  - destruct (Z.of_nat n) as [| p | p]; simpl; try discriminate.
    intros H. injection H as H. now apply DecimalPos.Unsigned.to_uint_nonnil in H.
  - destruct (Z.of_nat n) as [| p | p]; simpl; try discriminate.
    intros H. injection H as H. now apply DecimalPos.Unsigned.to_uint_nonnil in H.
Qed.

Lemma drop_marker_record (i : nat) (w : Double_t) (tree : DecisionTree.t)
    (rest : Stream.t) :
  drop_marker (tree_record f i w tree ++ rest)%list =
  (print_unsigned i :: "boostWeight" :: print_Double_t f w
     :: Print f tree ++ rest)%list.
Proof.
  unfold tree_record. rewrite <- app_assoc. reflexivity.
Qed.

(** The two [TString] extractions before the loop take the announcement of
    the first tree, if there is a tree at all. *)
Lemma skip_first_marker (entries : list entry) (A : Type)
    (k : Stream.t -> outcome A) :
  bind (read_TString (records f entries))
       (fun r1 => bind (read_TString (snd r1)) (fun r2 => k (snd r2))) =
  k (drop_marker (records f entries)).
Proof.
  destruct entries as [| [[i w] tree] entries]; [reflexivity |].
  unfold records. cbn [flat_map fst snd]. rewrite drop_marker_record.
  unfold tree_record. rewrite <- app_assoc. reflexivity.
Qed.

(** What the loop of the writer produces. *)
Lemma write_trees_numbered (this : MethodBDT.t) (forest : list DecisionTree.t) :
  forall (pre ws : list Double_t),
    fBoostWeights this = (pre ++ ws)%list ->
    List.length ws = List.length forest ->
    write_trees f this forest (List.length pre) =
    Ret (records f (numbered (List.length pre) ws forest)).
Proof.
  induction forest as [| tree forest IH]; intros pre [| w ws] Hws Hlen;
    simpl in Hlen; try discriminate; [reflexivity |].
  cbn [write_trees numbered]. rewrite Hws, at_index_app. cbn [bind].
  replace (S (List.length pre)) with (List.length (pre ++ [w])%list)
    by (rewrite length_app; simpl; lia).
  rewrite (IH (pre ++ [w])%list ws); [reflexivity | | lia].
  rewrite Hws, <- app_assoc. reflexivity.
Qed.

Lemma length_numbered (i : nat) (ws : list Double_t) (forest : list DecisionTree.t) :
  List.length ws = List.length forest ->
  List.length (numbered i ws forest) = List.length forest.
Proof.
  revert i ws. induction forest as [| tree forest IH]; intros i [| w ws] H;
    simpl in *; try discriminate; [reflexivity |].
  rewrite IH by lia. reflexivity.
Qed.

Lemma WriteWeightsToStream_layout (this : MethodBDT.t) :
  List.length (fBoostWeights this) = List.length (fForest this) ->
  WriteWeightsToStream f this =
  Ret (stream_of f (numbered 0 (fBoostWeights this) (fForest this))).
Proof.
  intros Hlen. unfold WriteWeightsToStream, stream_of.
  pose proof (write_trees_numbered this (fForest this) [] (fBoostWeights this)
                eq_refl Hlen) as Hw.
  cbn [List.length] in Hw. rewrite Hw. cbn [bind].
  now rewrite length_numbered.
Qed.

(** The loop of the reader on records that declare the indices it expects. *)
Lemma read_trees_numbered (forest : list DecisionTree.t) :
  forall (ws ws' : list Double_t) (i : nat) (F : list DecisionTree.t)
         (W : list Double_t),
    Forall2 (stored f) ws ws' ->
    List.length ws = List.length forest ->
    Forall (tree_readable f) forest ->
    (Z.of_nat (i + List.length forest) <= Int_t_max + 1)%Z ->
    read_trees f (List.length forest) (Z.of_nat i) F W
               (drop_marker (records f (numbered i ws forest))) =
    Ret ((F ++ forest)%list, (W ++ ws')%list, []).
Proof.
  induction forest as [| tree forest IH]; intros ws ws' i F W Hst Hlen Hrd Hmax.
  - destruct ws; [| discriminate]. inversion Hst; subst.
    simpl. now rewrite !app_nil_r.
  - destruct ws as [| w ws]; [discriminate |].
    inversion Hst as [| ? w' ? ws1' Hw Hst']; subst.
    inversion Hrd as [| ? ? Htree Hrd']; subst.
    cbn [numbered records flat_map fst snd List.length] in *.
    rewrite drop_marker_record. cbn [read_trees].
    rewrite read_Int_t_print_unsigned by lia. cbn [bind read_TString].
    unfold read_Double_t. unfold stored in Hw. rewrite Hw. cbn [bind].
    rewrite Z.eqb_refl. cbn [negb].
    rewrite Htree. cbn [bind].
    replace (Z.of_nat i + 1)%Z with (Z.of_nat (S i)) by lia.
    fold (records f (numbered (S i) ws forest)).
    rewrite (IH ws ws1' (S i)); try assumption; [| lia | lia].
    now rewrite <- !app_assoc.
Qed.

(** The loop of the reader on records one of which declares another index
    than the counter has. *)
Lemma read_trees_mismatch (entries : list entry) :
  forall (i : nat) (F : list DecisionTree.t) (W : list Double_t),
    Forall (readable_entry f) entries ->
    declared entries <> seq i (List.length entries) ->
    read_trees f (List.length entries) (Z.of_nat i) F W
               (drop_marker (records f entries)) = Exit 1.
Proof.
  induction entries as [| [[d w] tree] entries IH]; intros i F W Hrd Hdecl.
  - now elim Hdecl.
  - inversion Hrd as [| ? ? (Hmax & (w' & Hw) & Htree) Hrd']; subst.
    cbn [fst snd] in *.
    cbn [records flat_map fst snd List.length].
    rewrite drop_marker_record. cbn [read_trees].
    rewrite read_Int_t_print_unsigned by exact Hmax. cbn [bind read_TString].
    unfold read_Double_t. unfold stored in Hw. rewrite Hw. cbn [bind].
    destruct (Nat.eq_dec d i) as [-> | Hne].
    + rewrite Z.eqb_refl. cbn [negb]. rewrite Htree. cbn [bind].
      replace (Z.of_nat i + 1)%Z with (Z.of_nat (S i)) by lia.
      apply IH; [exact Hrd' |].
      intros Heq. apply Hdecl. cbn [declared map fst List.length seq].
      unfold declared in Heq. now rewrite Heq.
    + assert (Hneq : (Z.of_nat d =? Z.of_nat i)%Z = false)
        by (apply Z.eqb_neq; lia).
      now rewrite Hneq.
Qed.

End PersistenceFacts.

Section PersistenceProperties.

Import DecisionTree MethodBDT Stream Persistence Layout.
Local Open Scope string_scope.

Lemma ReadWeightsFromStream_stream_of (f : Stream.format) (that : MethodBDT.t)
    (entries : list entry) :
  (Z.of_nat (List.length entries) <= Int_t_max)%Z ->
  ReadWeightsFromStream f that (stream_of f entries) =
  bind (read_trees f (List.length entries) 0 [] []
                   (drop_marker (records f entries)))
       (fun r => Ret (set_forest that (Z.of_nat (List.length entries))
                                 (fst (fst r)) (snd (fst r)), snd r)).
Proof.
  intros Hmax. unfold ReadWeightsFromStream, stream_of.
  cbn [app read_TString bind].
  rewrite read_Int_t_print_unsigned by exact Hmax. cbn [bind].
  rewrite Nat2Z.id.
  pose proof (skip_first_marker f entries _
                (fun s4 =>
                   bind (read_trees f (List.length entries) 0 [] [] s4)
                        (fun r => Ret (set_forest that
                                         (Z.of_nat (List.length entries))
                                         (fst (fst r)) (snd (fst r)), snd r))))
    as Hskip.
  cbv beta in Hskip. rewrite <- Hskip.
  destruct (read_TString (records f entries)) as [[t1 s3] | c |]; cbn [bind snd];
    try reflexivity.
  destruct (read_TString s3) as [[t2 s4] | c |]; cbn [bind snd]; try reflexivity.
  destruct (read_trees f (List.length entries) 0 [] [] s4) as [[[F W] r] | c |];
    reflexivity.
Qed.

(** C3.  Let the format read back a tree it wrote, together with the
    announcement of the next tree, and let [weights'] be what the round
    weights read back as.  Then what [WriteWeightsToStream] writes for a
    forest of [k] trees, [k] fitting an [Int_t], [ReadWeightsFromStream]
    reads into any object as [k] trees with the weights [weights'], having
    found the indices 0 .. k-1; whatever forest and weights the reading
    object held are gone.  A weight file in which some record declares an
    index other than its position makes the reader call [exit(1)]: no
    object is returned. *)
Theorem weight_file_round_trip (f : Stream.format) (that : MethodBDT.t) :
  (forall (this : MethodBDT.t) (weights' : list Double_t),
      List.length (fBoostWeights this) = List.length (fForest this) ->
      (Z.of_nat (List.length (fForest this)) <= Int_t_max)%Z ->
      Forall (tree_readable f) (fForest this) ->
      Forall2 (stored f) (fBoostWeights this) weights' ->
      exists o : Stream.t,
        WriteWeightsToStream f this = Ret o /\
        declared (numbered 0 (fBoostWeights this) (fForest this))
          = seq 0 (List.length (fForest this)) /\
        ReadWeightsFromStream f that o =
          Ret (set_forest that (Z.of_nat (List.length (fForest this)))
                          (fForest this) weights', []) /\
        List.length weights' = List.length (fForest this)) /\
  (forall entries : list entry,
      (Z.of_nat (List.length entries) <= Int_t_max)%Z ->
      Forall (readable_entry f) entries ->
      declared entries <> seq 0 (List.length entries) ->
      ReadWeightsFromStream f that (stream_of f entries) = Exit 1).
Proof.
  split.
  - intros this weights' Hlen Hmax Hrd Hst.
    exists (stream_of f (numbered 0 (fBoostWeights this) (fForest this))).
    split; [now apply WriteWeightsToStream_layout |]. split; [| split].
    + clear - Hlen. generalize 0%nat.
      revert Hlen. generalize (fBoostWeights this).
      induction (fForest this) as [| tree forest IH]; intros [| w ws] Hlen i;
        simpl in *; try discriminate; [reflexivity |].
      unfold declared in IH. rewrite IH by lia. reflexivity.
    + rewrite ReadWeightsFromStream_stream_of
        by (rewrite length_numbered; assumption).
      rewrite length_numbered by assumption.
      pose proof (read_trees_numbered f (fForest this) (fBoostWeights this)
                    weights' 0 [] [] Hst Hlen Hrd) as Hloop.
      cbn [Z.of_nat app] in Hloop. rewrite Hloop by (cbn [Nat.add]; lia).
      reflexivity.
    + apply Forall2_length in Hst. lia.
  - intros entries Hmax Hrd Hdecl.
    rewrite ReadWeightsFromStream_stream_of by exact Hmax.
    pose proof (read_trees_mismatch f entries 0 [] [] Hrd Hdecl) as Hloop.
    cbn [Z.of_nat] in Hloop. now rewrite Hloop.
Qed.

Lemma leaf_readable : tree_readable Fixture.leaf_format Fixture.leaf.
Proof. intros rest. reflexivity. Qed.

(** A forest of two trees with the weights 2 and 3, written in a format
    that stores every weight as 1, is read back into an object that held
    another forest as two trees with the weights 1 and 1; and the file
    whose records declare the indices 0 and 2 is refused. *)
Lemma weight_file_round_trip_witness :
  let this := Fixture.with_forest true [Fixture.leaf; Fixture.leaf] [2; 3] 0 in
  let that := Fixture.with_forest true [Fixture.constant_tree 0 []] [7] 0 in
  (exists o : Stream.t,
      WriteWeightsToStream Fixture.leaf_format this = Ret o /\
      ReadWeightsFromStream Fixture.leaf_format that o =
        Ret (set_forest that 2 [Fixture.leaf; Fixture.leaf] [Fin 1; Fin 1], [])) /\
  ReadWeightsFromStream Fixture.leaf_format that
    (stream_of Fixture.leaf_format
               [(0%nat, Fin 2, Fixture.leaf); (2%nat, Fin 3, Fixture.leaf)])
  = Exit 1.
Proof.
  intros this that.
  destruct (weight_file_round_trip Fixture.leaf_format that) as [Hround Hbad].
  split.
  - destruct (Hround this [Fin 1; Fin 1]) as (o & Hw & _ & Hr & _).
    + reflexivity.
    + unfold Int_t_max. simpl. lia.
    + repeat constructor; apply leaf_readable.
    + repeat constructor.
    + exists o. split; [exact Hw | exact Hr].
  - apply Hbad.
    + unfold Int_t_max. simpl. lia.
    + repeat constructor; cbn [fst snd]; try (unfold Int_t_max; simpl; lia);
        try (exists (Fin 1); reflexivity); apply leaf_readable.
    + discriminate.
Defined.

End PersistenceProperties.

(* ================================================================== *)
(** ** AdaBoost: the closed form of a round *)

Section AdaBoostClosedForm.

Import Event MethodBDT Sample.

Lemma boost_R_of_quotient (sf s : R) :
  0 < s -> 0 < sf -> boost_R (sf / s) = (s - sf) / sf.
Proof.
  intros Hs Hsf. unfold boost_R.
  assert (Hq : 0 < sf / s) by (apply Rdiv_lt_0_compat; assumption).
  destruct (Rlt_dec 0 (sf / s)); [| lra].
  field. split; lra.
Qed.

(** X1.  After a round of AdaBoost with an error fraction [0 < err < 1] the
    weight of every correctly classified event is its old weight divided by
    [2 (1 - err)] and the weight of every misclassified event its old weight
    divided by [2 err]; the misclassified events then carry exactly half of
    the total weight. *)
Theorem AdaBoost_closed_form
    (this : MethodBDT.t) (dt : DecisionTree.t) (es : list Event.t) (s : R) :
  total_weight es = Fin s ->
  0 < s ->
  0 < misclassified_R this dt es < s ->
  let err := misclassified_R this dt es / s in
  weights (AdaBoost_sample this es dt) =
    map (fun e => Fin (if correctly_selected this dt e
                       then weight_R e / (2 * (1 - err))
                       else weight_R e / (2 * err))) es /\
  Rsum (map (fun e => weight_R e / (2 * err)) (misclassified this dt es)) = s / 2.
Proof.
  intros Htot Hs Hsf err.
  destruct (total_weight_Fin_inv es s Htot) as [Hfin ->].
  set (s := total_R es) in *. set (sf := misclassified_R this dt es) in *.
  assert (Hb : boost_R (sf / s) = (s - sf) / sf) by (apply boost_R_of_quotient; lra).
  assert (Hn : s - sf + boost_R (sf / s) * sf = 2 * (s - sf)).
  { rewrite Hb. field. lra. }
  split.
  - rewrite (AdaBoost_new_weights this dt es Hfin); fold s; fold sf;
      [| lra | rewrite Hn; lra].
    rewrite map_map. apply map_ext. intros e. f_equal.
    rewrite Hn, Hb. unfold boosted_R, err.
    destruct (correctly_selected this dt e); field; repeat split; lra.
  - transitivity (Rsum (map (fun e => weight_R e * / (2 * err))
                            (misclassified this dt es))).
    { f_equal. }
    rewrite Rsum_scale. fold (misclassified_R this dt es). fold sf.
    unfold err. field. split; lra.
Qed.

Lemma AdaBoost_closed_form_witness :
  weights (AdaBoost_sample Fixture.bdt [Fixture.signal 3; Fixture.background 1]
                           Fixture.all_signal)
  = [Fin 2; Fin 2].
Proof.
  destruct (AdaBoost_closed_form Fixture.bdt Fixture.all_signal
              [Fixture.signal 3; Fixture.background 1] 4) as [Hw _].
  - unfold_round. f_equal. lra.
  - lra.
  - unfold_round. simpl. lra.
  - rewrite Hw. unfold_round. simpl. repeat (f_equal; try field).
Defined.

Lemma boosted_one (this : MethodBDT.t) (dt : DecisionTree.t) (es : list Event.t) :
  finite_weights es -> map (boosted this dt (Fin 1)) es = es.
Proof.
  intros Hfin. rewrite <- (map_id es) at 2. apply map_ext_in. intros e He.
  unfold finite_weights in Hfin. rewrite Forall_forall in Hfin.
  unfold boosted. destruct (correctly_selected this dt e); [reflexivity |].
  apply SetWeight_same. rewrite (is_finite_Fin _ (Hfin e He)). simpl.
  f_equal. lra.
Qed.

(** X2.  For an error fraction [0 < err < 1] the value a round of AdaBoost
    returns is positive if [err < 1/2] and negative if [err > 1/2]; at
    [err = 1/2] it is 0 and the round leaves every weight as it was. *)
Theorem AdaBoost_round_weight_sign
    (this : MethodBDT.t) (dt : DecisionTree.t) (es : list Event.t) (s : R) :
  total_weight es = Fin s ->
  0 < s ->
  0 < misclassified_R this dt es < s ->
  exists r : R,
    AdaBoost_result this es dt = Fin r /\
    (misclassified_R this dt es < s / 2 -> 0 < r) /\
    (s / 2 < misclassified_R this dt es -> r < 0) /\
    (misclassified_R this dt es = s / 2 ->
     r = 0 /\ AdaBoost_sample this es dt = es).
Proof.
  intros Htot Hs Hsf.
  destruct (total_weight_Fin_inv es s Htot) as [Hfin ->].
  set (s := total_R es) in *. set (sf := misclassified_R this dt es) in *.
  assert (Hb : boost_R (sf / s) = (s - sf) / sf) by (apply boost_R_of_quotient; lra).
  assert (Hbpos : 0 < (s - sf) / sf) by (apply Rdiv_lt_0_compat; lra).
  pose proof (AdaBoost_round this dt es Hfin) as Hround. cbv zeta in Hround.
  fold s in Hround. fold sf in Hround. rewrite Hb in Hround.
  specialize (Hround ltac:(lra)).
  exists (ln ((s - sf) / sf)). split; [| split; [| split]].
  - unfold AdaBoost_result. rewrite Hround. cbn [snd]. now apply dlog_Fin_pos.
  - intros Hlt. rewrite <- ln_1. apply ln_increasing; [lra |].
    apply (Rmult_lt_reg_r sf); [lra |].
    unfold Rdiv. rewrite Rmult_assoc, Rinv_l by lra. lra.
  - intros Hgt. rewrite <- ln_1. apply ln_increasing; [exact Hbpos |].
    apply (Rmult_lt_reg_r sf); [lra |].
    unfold Rdiv. rewrite Rmult_assoc, Rinv_l by lra. lra.
  - intros Heq.
    assert (Hone : (s - sf) / sf = 1) by (field_simplify_eq; lra).
    split; [rewrite Hone; apply ln_1 |].
    unfold AdaBoost_sample. rewrite Hround. cbn [fst snd].
    rewrite Hone, boosted_one by exact Hfin.
    replace (s - sf + 1 * sf) with s by lra.
    apply renormalise_same; [exact Hfin | lra].
Qed.

Lemma AdaBoost_round_weight_sign_witness :
  exists r : R,
    AdaBoost_result Fixture.bdt [Fixture.signal 3; Fixture.background 1]
                    Fixture.all_signal = Fin r /\
    0 < r.
Proof.
  destruct (AdaBoost_round_weight_sign Fixture.bdt Fixture.all_signal
              [Fixture.signal 3; Fixture.background 1] 4) as (r & Hr & Hpos & _).
  - unfold_round. f_equal. lra.
  - lra.
  - unfold_round. simpl. lra.
  - exists r. split; [exact Hr |]. apply Hpos. unfold_round. simpl. lra.
Defined.

End AdaBoostClosedForm.

(* ================================================================== *)
(** ** What reweighting and training leave alone *)

Section ReweightingKeepsEvents.

Import Event MethodBDT Sample.

Lemma SetWeight_label (e : Event.t) (w : Double_t) :
  IsSignal (SetWeight e w) = IsSignal e /\ values (SetWeight e w) = values e.
Proof. split; reflexivity. Qed.

Lemma reweight_keeps (b : Double_t) (c : list bool) (es : list Event.t) :
  forall (i : nat) (s : Double_t),
    map IsSignal (fst (reweight b c i es s)) = map IsSignal es /\
    map values (fst (reweight b c i es s)) = map values es.
Proof.
  induction es as [| e es IH]; intros i s; [split; reflexivity |].
  cbn [reweight].
  set (e' := if negb (nth i c true) then SetWeight e (dmul (GetWeight e) b) else e).
  specialize (IH (S i) (dadd s (GetWeight e'))).
  destruct (reweight b c (S i) es (dadd s (GetWeight e'))) as [rest s'].
  cbn [fst map] in *. destruct IH as [IH1 IH2].
  assert (He : IsSignal e' = IsSignal e /\ values e' = values e)
    by (unfold e'; destruct (negb (nth i c true)); split; reflexivity).
  destruct He as [He1 He2]. now rewrite IH1, IH2, He1, He2.
Qed.

Lemma renormalise_keeps (num den : Double_t) (es : list Event.t) :
  map IsSignal (renormalise num den es) = map IsSignal es /\
  map values (renormalise num den es) = map values es.
Proof.
  unfold renormalise. rewrite !map_map. split; reflexivity.
Qed.

Lemma draw_weights_keeps (g : TRandom.impl) (es : list Event.t) :
  forall (st : TRandom.state g) (s : Double_t),
    map IsSignal (fst (draw_weights g st es s)) = map IsSignal es /\
    map values (fst (draw_weights g st es s)) = map values es.
Proof.
  induction es as [| e es IH]; intros st s; [split; reflexivity |].
  cbn [draw_weights]. destruct (TRandom.Rndm g st) as [x st'].
  specialize (IH st' (dadd s (GetWeight (SetWeight e (Fin x))))).
  destruct (draw_weights g st' es _) as [rest s'].
  cbn [fst map] in *. destruct IH as [IH1 IH2]. now rewrite IH1, IH2.
Qed.

Lemma AdaBoost_keeps_events (this : MethodBDT.t) (dt : DecisionTree.t)
    (es : list Event.t) :
  map IsSignal (AdaBoost_sample this es dt) = map IsSignal es /\
  map values (AdaBoost_sample this es dt) = map values es.
Proof.
  unfold AdaBoost_sample, AdaBoost.
  set (a := tally_sample this dt es).
  set (b := boost_weight (ddiv (sumwfalse a) (sumw a))).
  pose proof (reweight_keeps b (correctSelected a) es 0 (Fin 0)) as [H1 H2].
  destruct (reweight b (correctSelected a) 0 es (Fin 0)) as [es1 n].
  cbn [fst snd] in *.
  destruct (renormalise_keeps (sumw a) n es1) as [R1 R2].
  now rewrite R1, R2, H1, H2.
Qed.

Lemma Bagging_keeps_events (g : TRandom.impl) (es : list Event.t) (iTree : Z) :
  map IsSignal (Bagging_sample g es iTree) = map IsSignal es /\
  map values (Bagging_sample g es iTree) = map values es.
Proof.
  unfold Bagging_sample, Bagging.
  pose proof (draw_weights_keeps g es (TRandom.seed g iTree) (Fin 0)) as [H1 H2].
  destruct (draw_weights g (TRandom.seed g iTree) es (Fin 0)) as [es1 n].
  cbn [fst snd] in *.
  destruct (renormalise_keeps (Fin (INR (List.length es))) n es1) as [R1 R2].
  now rewrite R1, R2, H1, H2.
Qed.

(** The object a round of AdaBoost leaves, and the value it returns, in
    terms of the boost weight and the error fraction of the round. *)
Lemma AdaBoost_monitoring (this : MethodBDT.t) (dt : DecisionTree.t)
    (es : list Event.t) :
  let a := tally_sample this dt es in
  let err := ddiv (sumwfalse a) (sumw a) in
  fst (fst (AdaBoost this es dt)) = set_monitor this (boost_weight err) err /\
  AdaBoost_result this es dt = dlog (boost_weight err).
Proof.
  unfold AdaBoost_result, AdaBoost. cbv zeta.
  destruct (reweight _ _ 0 es (Fin 0)) as [es1 n]. split; reflexivity.
Qed.

(** X3.  A round of AdaBoost and a round of Bagging change weights only:
    the sample keeps its events, in their order, each with its input values
    and its class label.  Of the object, a round of AdaBoost changes the
    monitoring only: each of the two histograms is filled once, the one
    with the boost weight and the other with the size of the forest and the
    error fraction, the same two values are left in [fBoostWeight] and
    [fErrorFraction], and the value returned is the logarithm of the boost
    weight that was filled in; every other member is as it was.  [Boost]
    with the boost type Bagging returns the object as it was given: neither
    histogram is filled, and [fBoostWeight] and [fErrorFraction] keep what
    they held, while the value returned is 1. *)
Theorem reweighting_keeps_events
    (this : MethodBDT.t) (dt : DecisionTree.t) (g : TRandom.impl)
    (es : list Event.t) (iTree : Z) :
  let this' := fst (fst (AdaBoost this es dt)) in
  (map IsSignal (AdaBoost_sample this es dt) = map IsSignal es /\
   map values (AdaBoost_sample this es dt) = map values es) /\
  (map IsSignal (Bagging_sample g es iTree) = map IsSignal es /\
   map values (Bagging_sample g es iTree) = map values es) /\
  (fBoostWeightHist this' = fBoostWeightHist this ++ [fBoostWeight this'] /\
   fErrFractHist this' =
     fErrFractHist this ++ [(List.length (fForest this), fErrorFraction this')] /\
   AdaBoost_result this es dt = dlog (fBoostWeight this') /\
   fForest this' = fForest this /\
   fBoostWeights this' = fBoostWeights this /\
   fNTrees this' = fNTrees this /\
   fBoostType this' = fBoostType this /\
   fUseYesNoLeaf this' = fUseYesNoLeaf this /\
   fUseWeightedTrees this' = fUseWeightedTrees this /\
   fVariableImportance this' = fVariableImportance this /\
   fNvar this' = fNvar this) /\
  (fBoostType this = "Bagging"%string ->
   Boost g this es dt iTree = Ret (this, Bagging_sample g es iTree, Fin 1)).
Proof.
  intros this'. split; [apply AdaBoost_keeps_events |].
  split; [apply Bagging_keeps_events |]. split.
  - destruct (AdaBoost_monitoring this dt es) as [Hmon Hres]. cbv zeta in Hmon, Hres.
    subst this'. rewrite Hres, Hmon. repeat split.
  - intros Hbag. unfold Boost, Bagging_sample. rewrite Hbag. cbn [String.eqb].
    pose proof (Bagging_returns_one g es iTree) as Hone.
    destruct (Bagging g es iTree) as [es1 w]. cbn [fst snd] in *. now rewrite Hone.
Qed.

(** A round of AdaBoost on a total weight of 10 of which 2 is misclassified,
    with no tree in the forest yet: 4 goes into the one histogram and
    (0, 0.2) into the other; the value returned is the logarithm of 4.
    With the boost type Bagging nothing is filled. *)
Lemma reweighting_keeps_events_witness :
  let es := [Fixture.signal 8; Fixture.background 2] in
  let this' := fst (fst (AdaBoost Fixture.bdt es Fixture.all_signal)) in
  fBoostWeightHist this' = [Fin 4] /\
  fErrFractHist this' = [(0%nat, Fin (2 / 10))] /\
  AdaBoost_result Fixture.bdt es Fixture.all_signal = dlog (Fin 4) /\
  Boost Fixture.harmonic_generator (Training.set_boost_type Fixture.bdt "Bagging")
        es Fixture.all_signal 0
  = Ret (Training.set_boost_type Fixture.bdt "Bagging",
         Bagging_sample Fixture.harmonic_generator es 0, Fin 1).
Proof.
  intros es this'.
  destruct (reweighting_keeps_events Fixture.bdt Fixture.all_signal
              Fixture.harmonic_generator es 0)
    as (_ & _ & (Hh1 & Hh2 & Hres & _) & _).
  destruct (reweighting_keeps_events
              (Training.set_boost_type Fixture.bdt "Bagging") Fixture.all_signal
              Fixture.harmonic_generator es 0)
    as (_ & _ & _ & Hbag).
  fold this' in Hh1, Hh2, Hres.
  assert (Hb : fBoostWeight this' = Fin 4).
  { subst this' es. unfold AdaBoost. unfold_round. cbn [fst set_monitor fBoostWeight].
    f_equal. field. }
  assert (He : fErrorFraction this' = Fin (2 / 10)).
  { subst this' es. unfold AdaBoost. unfold_round. cbn [fst set_monitor fErrorFraction].
    f_equal. field. }
  rewrite Hb in Hh1, Hres. rewrite He in Hh2.
  split; [exact Hh1 |]. split; [exact Hh2 |]. split; [exact Hres |].
  apply Hbag. reflexivity.
Defined.

(** What [Boost] returns, when it returns. *)
Lemma Boost_keeps (g : TRandom.impl) (this this' : MethodBDT.t) (dt : DecisionTree.t)
    (es es' : list Event.t) (iTree : Z) (w : Double_t) :
  Boost g this es dt iTree = Ret (this', es', w) ->
  fForest this' = fForest this /\
  fBoostWeights this' = fBoostWeights this /\
  fNTrees this' = fNTrees this /\
  fBoostType this' = fBoostType this /\
  map IsSignal es' = map IsSignal es /\
  map values es' = map values es /\
  (fBoostType this = "Bagging"%string -> w = Fin 1).
Proof.
  unfold Boost. intros H.
  destruct (AdaBoost_keeps_events this dt es) as (A1 & A2).
  destruct (Bagging_keeps_events g es iTree) as (B1 & B2).
  destruct (AdaBoost_monitoring this dt es) as (Hmon & _). cbv zeta in Hmon.
  destruct (String.eqb (fBoostType this) "AdaBoost") eqn:Hada.
  - injection H as H. unfold AdaBoost_sample in A1, A2.
    rewrite H in A1, A2, Hmon. cbn [fst snd] in A1, A2, Hmon.
    rewrite Hmon. cbn [set_monitor fForest fBoostWeights fNTrees fBoostType].
    repeat split; try assumption.
    intros Hbag. rewrite Hbag in Hada. discriminate Hada.
  - destruct (String.eqb (fBoostType this) "Bagging") eqn:Hbag; [| discriminate H].
    pose proof (Bagging_returns_one g es iTree) as Hone.
    unfold Bagging_sample in B1, B2.
    destruct (Bagging g es iTree) as [es1 w1]. cbn [fst snd] in *.
    injection H as <- <- <-. repeat split; try assumption. now intros _.
Qed.

End ReweightingKeepsEvents.

(* ================================================================== *)
(** ** Train *)

Section TrainFacts.

Import Event MethodBDT Sample Training.

Variable c : Training.collaborators.

(** What the loop of [Train] has done when it is through. *)
Lemma train_loop_keeps (n : nat) :
  forall (i : Z) (this this' : Training.t) (b a b' a' : Z),
    train_loop c n i this b a = Ret (this', b', a') ->
    exists (new : list DecisionTree.t) (ws : list Double_t),
      List.length new = n /\
      List.length ws = n /\
      fForest (bdt this') = fForest (bdt this) ++ new /\
      fBoostWeights (bdt this') = fBoostWeights (bdt this) ++ ws /\
      fNTrees (bdt this') = fNTrees (bdt this) /\
      fBoostType (bdt this') = fBoostType (bdt this) /\
      map IsSignal (fEventSample this') = map IsSignal (fEventSample this) /\
      map values (fEventSample this') = map values (fEventSample this) /\
      (fBoostType (bdt this) = "Bagging"%string -> Forall (eq (Fin 1)) ws).
Proof.
  induction n as [| n IH]; intros i this this' b a b' a' H.
  - cbn [train_loop] in H. injection H as <- _ _.
    exists [], []. rewrite !app_nil_r. repeat split; auto.
  - cbn [train_loop] in H.
    destruct (grow c (fEventSample this)) as [[tree built] pruned].
    destruct (add_Int_t b built) as [b1 | |]; cbn [bind] in H; try discriminate H.
    destruct (add_Int_t a pruned) as [a1 | |]; cbn [bind] in H; try discriminate H.
    destruct (Boost (trandom c) (push_tree (bdt this) tree) (fEventSample this) tree i)
      as [[[this2 sample] w] | |] eqn:HB; cbn [bind] in H; try discriminate H.
    destruct (Boost_keeps _ _ _ _ _ _ _ _ HB) as (F & W & N & T & L & V & Bg).
    destruct (IH _ _ _ _ _ _ _ H) as (new & ws & Ln & Lw & F' & W' & N' & T' & L' & V' & Bg').
    cbn [bdt fEventSample push_weight push_tree set_forest fForest fBoostWeights
         fNTrees fBoostType] in *.
    exists (tree :: new), (w :: ws).
    rewrite F in F'. rewrite W in W'. rewrite <- !app_assoc in *. cbn [app] in *.
    split; [simpl; lia |]. split; [simpl; lia |].
    split; [exact F' |]. split; [exact W' |].
    split; [congruence |]. split; [congruence |].
    split; [congruence |]. split; [congruence |].
    intros Hbag. constructor.
    + symmetry. now apply Bg.
    + apply Bg'. congruence.
Qed.

Lemma div_Int_t_nonzero (a b : Z) :
  (exists q, div_Int_t a b = Ret q) -> b <> 0%Z.
Proof.
  intros [q H] ->. unfold div_Int_t in H. discriminate H.
Qed.

(** [Train] returns what its loop returned, and only if [fNTrees] is not
    zero. *)
Lemma Train_returns_loop (this this' : Training.t) :
  Train c this = Ret this' ->
  exists b a : Z,
    train_loop c (Z.to_nat (fNTrees (bdt this))) 0 this 0 0 = Ret (this', b, a) /\
    fNTrees (bdt this) <> 0%Z.
Proof.
  unfold Train. intros H.
  destruct (CheckSanity c); cbn [negb] in H; [| discriminate H].
  destruct (train_loop c (Z.to_nat (fNTrees (bdt this))) 0 this 0 0)
    as [[[this1 b] a] | |] eqn:Hloop; cbn [bind] in H; try discriminate H.
  assert (Hnz : fNTrees (bdt this) <> 0%Z).
  { apply (div_Int_t_nonzero b).
    destruct (div_Int_t b (fNTrees (bdt this))) as [q | |]; cbn [bind] in H;
      try discriminate H.
    now exists q. }
  destruct (div_Int_t b (fNTrees (bdt this))) as [q | |]; cbn [bind] in H;
    try discriminate H.
  destruct (div_Int_t a (fNTrees (bdt this))) as [q' | |]; cbn [bind] in H;
    try discriminate H.
  injection H as <-. now exists b, a.
Qed.

End TrainFacts.

Section TrainProperties.

Import Event MethodBDT Sample Training.

(** X4.  When [Train] returns, the forest is the forest there was followed
    by [fNTrees] new trees, and [fBoostWeights] the weights there were
    followed by as many new weights, so an object that had one round weight
    per tree still has; [fNTrees] is not zero (a negative [fNTrees] counts
    as no tree); the event sample holds the same events with the same input
    values and labels. *)
Theorem Train_extends_forest (c : Training.collaborators) (this this' : Training.t) :
  Train c this = Ret this' ->
  exists (new : list DecisionTree.t) (ws : list Double_t),
    fNTrees (bdt this) <> 0%Z /\
    List.length new = Z.to_nat (fNTrees (bdt this)) /\
    List.length ws = Z.to_nat (fNTrees (bdt this)) /\
    fForest (bdt this') = fForest (bdt this) ++ new /\
    fBoostWeights (bdt this') = fBoostWeights (bdt this) ++ ws /\
    fNTrees (bdt this') = fNTrees (bdt this) /\
    map IsSignal (fEventSample this') = map IsSignal (fEventSample this) /\
    map values (fEventSample this') = map values (fEventSample this).
Proof.
  intros H. destruct (Train_returns_loop c this this' H) as (b & a & Hloop & Hnz).
  destruct (train_loop_keeps c _ _ _ _ _ _ _ _ Hloop)
    as (new & ws & Ln & Lw & F & W & N & _ & L & V & _).
  exists new, ws. repeat split; assumption.
Qed.

End TrainProperties.

Section TrainExamples.

Import Event MethodBDT Sample Training Evaluation Ensemble.

Lemma two_rounds_AdaBoost_returns :
  exists this' : Training.t,
    Train TrainingFixture.stump_builder (TrainingFixture.two_rounds "AdaBoost")
    = Ret this'.
Proof. eexists. reflexivity. Qed.

Lemma two_rounds_Bagging_returns :
  exists this' : Training.t,
    Train TrainingFixture.stump_builder (TrainingFixture.two_rounds "Bagging")
    = Ret this'.
Proof. eexists. reflexivity. Qed.

Lemma Train_extends_forest_witness :
  exists this' : Training.t,
    Train TrainingFixture.stump_builder (TrainingFixture.two_rounds "AdaBoost")
    = Ret this' /\
    List.length (fForest (bdt this')) = 2%nat /\
    List.length (fBoostWeights (bdt this')) = 2%nat /\
    map IsSignal (fEventSample this') = [true; false].
Proof.
  destruct two_rounds_AdaBoost_returns as [this' H].
  destruct (Train_extends_forest _ _ _ H)
    as (new & ws & _ & Ln & Lw & F & W & _ & L & _).
  exists this'. split; [exact H |].
  rewrite F, W, L, !length_app, Ln, Lw. repeat split.
Defined.

(** X5.  [Train] ends the process with [exit(1)] when the sanity check
    fails, and when there is at least one tree to train and the boost type
    is neither AdaBoost nor Bagging, the first tree being built by then.
    With [fNTrees = 0] it trains nothing and then divides by zero, and with
    a negative [fNTrees] it trains nothing and returns. *)
Theorem Train_edge_cases (c : Training.collaborators) (this : Training.t) :
  (CheckSanity c = false -> Train c this = Exit 1) /\
  (CheckSanity c = true -> fNTrees (bdt this) = 0%Z -> Train c this = Undefined) /\
  (CheckSanity c = true -> (fNTrees (bdt this) < 0)%Z -> Train c this = Ret this) /\
  (forall (tree : DecisionTree.t) (built pruned : Z),
      CheckSanity c = true ->
      (0 < fNTrees (bdt this))%Z ->
      fBoostType (bdt this) <> "AdaBoost"%string ->
      fBoostType (bdt this) <> "Bagging"%string ->
      grow c (fEventSample this) = (tree, built, pruned) ->
      (Stream.Int_t_min <= built <= Stream.Int_t_max)%Z ->
      (Stream.Int_t_min <= pruned <= Stream.Int_t_max)%Z ->
      Train c this = Exit 1).
Proof.
  unfold Train. split; [| split; [| split]].
  - intros ->. reflexivity.
  - intros -> ->. reflexivity.
  - intros -> Hneg.
    destruct (fNTrees (bdt this)) as [| p | p] eqn:E; try lia.
    cbn [negb Z.to_nat train_loop bind]. unfold div_Int_t.
    cbn [Z.eqb andb bind]. reflexivity.
  - intros tree built pruned -> Hpos Hada Hbag Hgrow Hb Hp.
    cbn [negb].
    destruct (Z.to_nat (fNTrees (bdt this))) as [| n] eqn:E; [lia |].
    cbn [train_loop]. rewrite Hgrow. unfold add_Int_t.
    replace ((Stream.Int_t_min <=? 0 + built)%Z && (0 + built <=? Stream.Int_t_max)%Z)
      with true by (symmetry; apply andb_true_iff; split; apply Z.leb_le; lia).
    replace ((Stream.Int_t_min <=? 0 + pruned)%Z && (0 + pruned <=? Stream.Int_t_max)%Z)
      with true by (symmetry; apply andb_true_iff; split; apply Z.leb_le; lia).
    cbn [bind]. unfold Boost.
    cbn [push_tree set_forest fBoostType].
    apply String.eqb_neq in Hada, Hbag. now rewrite Hada, Hbag.
Qed.

End TrainExamples.

Section BaggedEnsemble.

Import Event MethodBDT Sample Training Evaluation Ensemble.

Lemma Train_edge_cases_witness :
  Train TrainingFixture.stump_builder (TrainingFixture.two_rounds "Random") = Exit 1.
Proof.
  destruct (Train_edge_cases TrainingFixture.stump_builder
              (TrainingFixture.two_rounds "Random")) as (_ & _ & _ & Hbad).
  apply (Hbad Fixture.all_signal 3%Z 1%Z); try reflexivity; try discriminate;
    unfold Stream.Int_t_min, Stream.Int_t_max; simpl; lia.
Defined.

Lemma dmul_one_l (x : Double_t) : dmul (Fin 1) x = x.
Proof.
  destruct x as [a | | |]; simpl; try reflexivity.
  - f_equal. lra.
  - now rewrite Rsign_pos by lra.
  - now rewrite Rsign_pos by lra.
Qed.

Lemma all_ones_repeat (ws : list Double_t) :
  Forall (eq (Fin 1)) ws -> ws = repeat (Fin 1) (List.length ws).
Proof.
  induction 1 as [| w ws Hw _ IH]; [reflexivity |].
  simpl. now rewrite <- Hw, <- IH.
Qed.

Lemma weighted_terms_ones (ss : list Double_t) :
  weighted_terms (repeat (Fin 1) (List.length ss)) ss = ss.
Proof.
  unfold weighted_terms. induction ss as [| x ss IH]; [reflexivity |].
  cbn [List.length repeat combine map fst snd]. now rewrite IH, dmul_one_l.
Qed.

(** With every round weight equal to 1 the weighted average is the plain
    mean. *)
Lemma GetMvaValue_unit_weights (this : MethodBDT.t) (ev : Event.t) :
  Forall (eq (Fin 1)) (fBoostWeights this) ->
  List.length (fBoostWeights this) = List.length (fForest this) ->
  GetMvaValue (set_weighted this true) ev = GetMvaValue (set_weighted this false) ev.
Proof.
  intros Hones Hlen.
  rewrite (GetMvaValue_weighted (set_weighted this true) ev eq_refl Hlen).
  rewrite (GetMvaValue_unweighted (set_weighted this false) ev eq_refl).
  cbn [set_weighted fBoostWeights fForest].
  replace (scores (set_weighted this true) ev) with (scores this ev) by reflexivity.
  replace (scores (set_weighted this false) ev) with (scores this ev) by reflexivity.
  rewrite (all_ones_repeat _ Hones), Hlen.
  assert (Hs : List.length (scores this ev) = List.length (fForest this))
    by (unfold scores; apply length_map).
  rewrite <- Hs at 1. rewrite weighted_terms_ones.
  unfold dsum at 2. rewrite dsum_from_ones.
  replace (0 + INR (List.length (fForest this)))
    with (INR (List.length (fForest this))) by lra.
  reflexivity.
Qed.

(** X6.  A forest trained from scratch with Bagging has the round weight 1
    for every tree, so scoring an event with it gives the same value in
    weighted mode as in unweighted mode. *)
Theorem Train_Bagging_modes_agree
    (c : Training.collaborators) (this this' : Training.t) (ev : Event.t) :
  Train c this = Ret this' ->
  fBoostType (bdt this) = "Bagging"%string ->
  fForest (bdt this) = [] ->
  fBoostWeights (bdt this) = [] ->
  Forall (eq (Fin 1)) (fBoostWeights (bdt this')) /\
  GetMvaValue (set_weighted (bdt this') true) ev =
  GetMvaValue (set_weighted (bdt this') false) ev.
Proof.
  intros H Hbag HF HW.
  destruct (Train_returns_loop c this this' H) as (b & a & Hloop & _).
  destruct (train_loop_keeps c _ _ _ _ _ _ _ _ Hloop)
    as (new & ws & Ln & Lw & F & W & _ & _ & _ & _ & Hones).
  rewrite HF in F. rewrite HW in W. cbn [app] in F, W.
  assert (Hall : Forall (eq (Fin 1)) (fBoostWeights (bdt this')))
    by (rewrite W; now apply Hones).
  split; [exact Hall |].
  apply GetMvaValue_unit_weights; [exact Hall |].
  rewrite F, W. congruence.
Qed.

Lemma Train_Bagging_modes_agree_witness :
  exists this' : Training.t,
    Train TrainingFixture.stump_builder (TrainingFixture.two_rounds "Bagging")
    = Ret this' /\
    fBoostWeights (bdt this') = [Fin 1; Fin 1] /\
    GetMvaValue (set_weighted (bdt this') true) (Fixture.signal 1) =
    GetMvaValue (set_weighted (bdt this') false) (Fixture.signal 1).
Proof.
  destruct two_rounds_Bagging_returns as [this' H].
  destruct (Train_Bagging_modes_agree _ _ _ (Fixture.signal 1) H
              eq_refl eq_refl eq_refl) as [Hones Hsame].
  exists this'. split; [exact H |]. split; [| exact Hsame].
  destruct (Train_returns_loop _ _ _ H) as (b & a & Hloop & _).
  destruct (train_loop_keeps _ _ _ _ _ _ _ _ _ Hloop)
    as (new & ws & _ & Lw & _ & W & _).
  cbn [TrainingFixture.two_rounds bdt fBoostWeights fNTrees app] in W, Lw.
  rewrite W in *.
  destruct ws as [| w1 [| w2 [| w3 ws]]]; simpl in Lw; try discriminate Lw.
  inversion Hones as [| ? ? H1 Hones']; subst.
  inversion Hones' as [| ? ? H2 _]; subst. reflexivity.
Defined.

End BaggedEnsemble.

(* ================================================================== *)
(** ** InitEventSample *)

Section InitEventSampleProperties.

Import Event MethodBDT Sample Training.

Lemma push_back_all (A B : Type) (g : A -> B) (l : list A) :
  forall acc : list B,
    fold_left (fun sample e => sample ++ [g e]) l acc = acc ++ map g l.
Proof.
  induction l as [| x l IH]; intros acc; simpl.
  - now rewrite app_nil_r.
  - rewrite IH, <- app_assoc. reflexivity.
Qed.

Lemma stored_event_keeps (f : Double_t) (e : Event.t) :
  IsSignal (stored_event f e) = IsSignal e /\
  values (stored_event f e) = values e /\
  (IsSignal e = true -> stored_event f e = e).
Proof.
  unfold stored_event.
  destruct (dgt f (Fin 0)), (IsSignal e) eqn:E; cbn [negb]; repeat split;
    try reflexivity; try exact E; discriminate.
Qed.

Lemma scaled_total (r : R) (training : list Event.t) :
  0 < r ->
  finite_weights training ->
  total_R (map (stored_event (Fin r)) training) =
  total_R (filter IsSignal training)
  + r * total_R (filter (fun e => negb (IsSignal e)) training).
Proof.
  intros Hr Hfin. unfold total_R.
  induction Hfin as [| e es He _ IH]; [simpl; lra |].
  cbn [map filter Rsum]. rewrite IH.
  unfold stored_event at 1. rewrite dgt_Fin_true by exact Hr.
  destruct (IsSignal e); cbn [negb map Rsum]; [lra |].
  unfold weight_R at 1. cbn [GetWeight SetWeight].
  rewrite (is_finite_Fin _ He). cbn [dmul to_R]. fold (weight_R e). lra.
Qed.

(** X7.  [InitEventSample] ends the process with [exit(1)] when there is no
    training tree.  Otherwise it appends the training events, in their
    order and with their input values and labels, to the sample there was:
    signal events as they are; background events as they are too unless
    [fSignalFraction > 0], in which case their weights are multiplied by
    it, so that the appended events weigh the signal weight plus
    [fSignalFraction] times the background weight. *)
Theorem InitEventSample_scales_background
    (c : Training.collaborators) (training : list Event.t) (this : Training.t) :
  (HasTrainingTree c = false -> InitEventSample c training this = Exit 1) /\
  (HasTrainingTree c = true ->
   exists added : list Event.t,
     InitEventSample c training this =
       Ret (Training.mk (bdt this) (fEventSample this ++ added)
                        (fSignalFraction this) (fNnodes this) (fITree this)) /\
     map IsSignal added = map IsSignal training /\
     map values added = map values training /\
     filter IsSignal added = filter IsSignal training /\
     (dgt (fSignalFraction this) (Fin 0) = false -> added = training) /\
     (forall r : R,
         fSignalFraction this = Fin r -> 0 < r -> finite_weights training ->
         total_R added =
         total_R (filter IsSignal training)
         + r * total_R (filter (fun e => negb (IsSignal e)) training))).
Proof.
  unfold InitEventSample. split; [now intros -> |].
  intros ->. cbn [negb].
  exists (map (stored_event (fSignalFraction this)) training).
  rewrite push_back_all.
  split; [reflexivity |]. split; [| split; [| split; [| split]]].
  - rewrite map_map. apply map_ext. intros e. apply stored_event_keeps.
  - rewrite map_map. apply map_ext. intros e. apply stored_event_keeps.
  - induction training as [| e es IH]; [reflexivity |].
    cbn [map filter].
    destruct (stored_event_keeps (fSignalFraction this) e) as (Hl & _ & Hsame).
    rewrite Hl. destruct (IsSignal e) eqn:E; [| exact IH].
    now rewrite IH, Hsame.
  - intros Hoff. rewrite <- (map_id training) at 2. apply map_ext.
    intros e. unfold stored_event. now rewrite Hoff.
  - intros r Hf Hr Hfin. rewrite Hf. now apply scaled_total.
Qed.

Lemma InitEventSample_scales_background_witness :
  let this := Training.mk Fixture.bdt [] (Fin 2) 0 0 in
  exists added : list Event.t,
    InitEventSample TrainingFixture.stump_builder
                    [Fixture.signal 3; Fixture.background 1] this
    = Ret (Training.mk Fixture.bdt added (Fin 2) 0 0) /\
    total_R added = 5.
Proof.
  intros this.
  destruct (InitEventSample_scales_background TrainingFixture.stump_builder
              [Fixture.signal 3; Fixture.background 1] this) as [_ Hok].
  destruct (Hok eq_refl) as (added & Hret & _ & _ & _ & _ & Htot).
  exists added. split; [exact Hret |].
  rewrite (Htot 2 eq_refl).
  - unfold total_R, weight_R. simpl. lra.
  - lra.
  - repeat constructor.
Defined.

End InitEventSampleProperties.

(* ================================================================== *)
(** ** GetVariableImportance: when it is defined *)

Section ImportanceDefinedness.

Import DecisionTree MethodBDT Evaluation Importance.
Local Open Scope nat_scope.

Lemma add_into_cases (rel : list Double_t) :
  forall acc : list Double_t,
    (List.length rel <= List.length acc /\
     exists r, add_into acc rel = Ret r /\ List.length r = List.length acc) \/
    (List.length acc < List.length rel /\ add_into acc rel = Undefined).
Proof.
  induction rel as [| x rel IH]; intros acc.
  - left. split; [simpl; lia |]. exists acc. now destruct acc.
  - destruct acc as [| a acc].
    + right. split; [simpl; lia | reflexivity].
    + cbn [add_into List.length].
      destruct (IH acc) as [(Hle & r & Hr & Hlen) | (Hlt & Hu)].
      * left. split; [lia |]. rewrite Hr. cbn [bind].
        eexists. split; [reflexivity |]. simpl. lia.
      * right. split; [lia |]. now rewrite Hu.
Qed.

Lemma skipn_nth_error (A : Type) (l : list A) :
  forall (i : nat) (x : A),
    nth_error l i = Some x -> skipn i l = x :: skipn (S i) l.
Proof.
  induction l as [| y l IH]; intros [| i] x H; simpl in H; try discriminate.
  - now injection H as ->.
  - cbn [skipn]. rewrite (IH i x H). reflexivity.
Qed.

(** The loop visits the [n] trees from index [i] on. *)
Lemma importance_loop_cases (forest : list DecisionTree.t) (n : nat) :
  forall (i : nat) (acc : list Double_t),
    i <= List.length forest ->
    let fits :=
      i + n <= List.length forest /\
      Forall (fun tree =>
                List.length (DecisionTree.GetVariableImportance tree)
                <= List.length acc)
             (firstn n (skipn i forest)) in
    (fits /\ exists r, importance_loop forest n i acc = Ret r /\
                       List.length r = List.length acc) \/
    (~ fits /\ importance_loop forest n i acc = Undefined).
Proof.
  induction n as [| n IH]; intros i acc Hi fits; unfold fits; clear fits.
  - left. cbn [firstn importance_loop].
    split; [split; [lia | constructor] |]. now exists acc.
  - cbn [importance_loop]. unfold at_index.
    destruct (nth_error forest i) as [tree |] eqn:Hnth.
    + assert (Hlt : i < List.length forest)
        by (apply nth_error_Some; rewrite Hnth; discriminate).
      rewrite (skipn_nth_error _ forest i tree Hnth). cbn [firstn bind].
      destruct (add_into_cases (DecisionTree.GetVariableImportance tree) acc)
        as [(Hle & r & Hr & Hlen) | (Hgt & Hu)].
      * rewrite Hr. cbn [bind].
        destruct (IH (S i) r ltac:(lia)) as [((Hb & Hall) & r' & Hr' & Hlen') |
                                             (Hnot & Hu)].
        -- left. split.
           ++ split; [lia |]. constructor; [exact Hle |].
              rewrite Hlen in Hall. exact Hall.
           ++ exists r'. split; [exact Hr' | congruence].
        -- right. split; [| exact Hu].
           intros [Hb Hall]. apply Hnot. split; [lia |].
           inversion Hall; subst. now rewrite Hlen.
      * right. rewrite Hu. cbn [bind]. split; [| reflexivity].
        intros [_ Hall]. inversion Hall; subst. lia.
    + right. cbn [bind]. split; [| reflexivity].
      intros [Hb _]. apply nth_error_None in Hnth. lia.
Qed.

(** X8.  [GetVariableImportance] returns exactly when [fNTrees] does not
    exceed the number of trees in the forest and each of the first
    [fNTrees] trees reports at most [GetNvar()] values; the vector returned
    then has [GetNvar()] entries and is the one left in the member.
    Otherwise the call reads beyond the forest or writes beyond the member
    vector.  It never ends the process. *)
Theorem GetVariableImportance_defined (this : MethodBDT.t) :
  let n := Z.to_nat (fNTrees this) in
  let fits :=
    n <= List.length (fForest this) /\
    Forall (fun tree =>
              List.length (DecisionTree.GetVariableImportance tree) <= fNvar this)
           (firstn n (fForest this)) in
  (fits ->
   exists v : list Double_t,
     GetVariableImportance this = Ret (set_importance this v, v) /\
     List.length v = fNvar this) /\
  (~ fits -> GetVariableImportance this = Undefined).
Proof.
  intros n fits. unfold fits, n. clear fits n.
  unfold GetVariableImportance.
  pose proof (importance_loop_cases (fForest this) (Z.to_nat (fNTrees this)) 0
                (resize (fVariableImportance this) (fNvar this)) ltac:(lia)) as Hc.
  cbv zeta in Hc. cbn [skipn Nat.add] in Hc. rewrite length_resize in Hc.
  destruct Hc as [(Hfits & r & Hr & Hlen) | (Hnot & Hu)]; split.
  - intros _. rewrite Hr. cbn [bind]. eexists. split; [reflexivity |].
    now rewrite length_map.
  - intros Hnot. now elim Hnot.
  - intros Hfits. now elim Hnot.
  - intros _. now rewrite Hu.
Qed.

End ImportanceDefinedness.

Section ImportanceBounds.

Import DecisionTree MethodBDT Evaluation Importance.

(** Before any training the constructor's [fNTrees] is 200 and the forest
    is empty: asking for the importance then reads [fForest[0]]. *)
Lemma GetVariableImportance_defined_witness :
  let untrained :=
    MethodBDT.mk [] [] 200 "AdaBoost" true true [] (Fin 0) (Fin 0) 2 [] [] in
  GetVariableImportance untrained = Undefined /\
  exists v : list Double_t,
    GetVariableImportance
      (Fixture.with_forest true [Fixture.constant_tree 1 [1; 3]] [1] 2)
    = Ret (set_importance
             (Fixture.with_forest true [Fixture.constant_tree 1 [1; 3]] [1] 2) v, v) /\
    List.length v = 2%nat.
Proof.
  intros untrained. split.
  - destruct (GetVariableImportance_defined untrained) as [_ Hbad].
    apply Hbad. intros [Hle _]. simpl in Hle. lia.
  - destruct (GetVariableImportance_defined
                (Fixture.with_forest true [Fixture.constant_tree 1 [1; 3]] [1] 2))
      as [Hok _].
    apply Hok. split; [simpl; lia |].
    repeat constructor.
Defined.

End ImportanceBounds.

Section RankingBounds.

Import DecisionTree MethodBDT Evaluation Importance Ranking.
Local Open Scope nat_scope.

Lemma GetVariableImportance_returns_length (this this' : MethodBDT.t)
    (v : list Double_t) :
  GetVariableImportance this = Ret (this', v) ->
  this' = set_importance this v /\ List.length v = fNvar this.
Proof.
  unfold GetVariableImportance. intros H.
  pose proof (importance_loop_cases (fForest this) (Z.to_nat (fNTrees this)) 0
                (resize (fVariableImportance this) (fNvar this)) ltac:(lia)) as Hc.
  cbv zeta in Hc. rewrite length_resize in Hc.
  destruct Hc as [(_ & r & Hr & Hlen) | (_ & Hu)].
  - rewrite Hr in H. cbn [bind] in H. injection H as <- <-.
    split; [reflexivity |]. now rewrite length_map.
  - rewrite Hu in H. discriminate H.
Qed.

Lemma add_ranks_all (GetInputExp : nat -> string) (v : list Double_t) (n : nat) :
  forall (i : nat) (ranking : list Rank),
    i + n <= List.length v ->
    add_ranks GetInputExp v n i ranking =
    Ret (ranking ++ map (fun k => (GetInputExp k, nth k v NaN)) (seq i n)).
Proof.
  induction n as [| n IH]; intros i ranking Hle.
  - simpl. now rewrite app_nil_r.
  - cbn [add_ranks seq map]. unfold at_index.
    rewrite (nth_error_nth' v NaN) by lia. cbn [bind].
    rewrite IH by lia. now rewrite <- app_assoc.
Qed.

(** X9.  Once [GetVariableImportance()] returns a vector, it has an entry
    for each of the [GetNvar()] variables: [CreateRanking] never reads
    beyond it and yields one rank per variable, in the order of the
    variables; [GetVariableImportance(ivar)] returns entry [ivar] for
    [ivar < GetNvar()] and ends the process with [exit(1)] for any other
    [ivar]. *)
Theorem importance_index_bounds
    (GetInputExp : nat -> string) (this this' : MethodBDT.t) (v : list Double_t) :
  GetVariableImportance this = Ret (this', v) ->
  CreateRanking GetInputExp this =
    Ret (this', map (fun k => (GetInputExp k, nth k v NaN)) (seq 0 (fNvar this))) /\
  (forall ivar : nat,
      ivar < fNvar this ->
      GetVariableImportance_of this ivar = Ret (this', nth ivar v NaN)) /\
  (forall ivar : nat,
      fNvar this <= ivar -> GetVariableImportance_of this ivar = Exit 1).
Proof.
  intros H.
  destruct (GetVariableImportance_returns_length this this' v H) as [Hthis Hlen].
  split; [| split].
  - unfold CreateRanking. rewrite H. cbn [bind].
    replace (fNvar this') with (fNvar this) by (now rewrite Hthis).
    rewrite add_ranks_all by lia. reflexivity.
  - intros ivar Hlt. unfold GetVariableImportance_of. rewrite H. cbn [bind].
    now rewrite (nth_error_nth' v NaN) by lia.
  - intros ivar Hge. unfold GetVariableImportance_of. rewrite H. cbn [bind].
    assert (Hnone : nth_error v ivar = None) by (apply nth_error_None; lia).
    now rewrite Hnone.
Qed.

End RankingBounds.

Section RankingExamples.

Import DecisionTree MethodBDT Evaluation Importance Ranking.

Lemma importance_index_bounds_witness :
  let this := Fixture.with_forest true [Fixture.constant_tree 1 [1; 3]] [1] 2 in
  exists (this' : MethodBDT.t) (v : list Double_t),
    CreateRanking (fun k => if Nat.eqb k 0 then "var0"%string else "var1"%string) this
    = Ret (this', [("var0"%string, nth 0 v NaN); ("var1"%string, nth 1 v NaN)]) /\
    GetVariableImportance_of this 2 = Exit 1.
Proof.
  intros this.
  pose proof (GetVariableImportance_fresh this fixture_fresh) as Hcall.
  cbv zeta in Hcall.
  destruct (importance_index_bounds
              (fun k => if Nat.eqb k 0 then "var0"%string else "var1"%string)
              this _ _ Hcall) as (Hrank & _ & Hout).
  eexists. eexists. split; [exact Hrank |].
  apply Hout. simpl. lia.
Defined.

End RankingExamples.

(* ================================================================== *)
(** ** GetMvaValue: definedness and range *)

Section EvaluationBounds.

Import DecisionTree MethodBDT Evaluation Ensemble.

Variable this : MethodBDT.t.
Variable ev : Event.t.

Let score (tree : DecisionTree.t) : Double_t :=
  CheckEvent tree ev (fUseYesNoLeaf this).

(** The loop in weighted mode when there are at least as many round
    weights as trees: the weights beyond the forest are not read. *)
Lemma mva_loop_weighted_prefix (forest : list DecisionTree.t) :
  fUseWeightedTrees this = true ->
  forall (pre ws extra : list Double_t) (m n : Double_t),
    fBoostWeights this = pre ++ ws ++ extra ->
    List.length ws = List.length forest ->
    mva_loop this ev forest (List.length pre) m n =
    Ret (dsum_from m (weighted_terms ws (map score forest)), dsum_from n ws).
Proof.
  intros Hmode. induction forest as [| tree forest IH];
    intros pre [| w ws] extra m n Hws Hlen; simpl in Hlen; try discriminate.
  - reflexivity.
  - cbn [mva_loop]. rewrite Hmode, Hws. cbn [app]. rewrite at_index_app. cbn [bind].
    replace (S (List.length pre)) with (List.length (pre ++ [w]))
      by (rewrite length_app; simpl; lia).
    rewrite (IH (pre ++ [w]) ws extra); [reflexivity | | lia].
    rewrite Hws, <- app_assoc. reflexivity.
Qed.

(** The loop in weighted mode when the round weights run out. *)
Lemma mva_loop_weighted_short (forest : list DecisionTree.t) :
  fUseWeightedTrees this = true ->
  forall (pre ws : list Double_t) (m n : Double_t),
    fBoostWeights this = pre ++ ws ->
    (List.length ws < List.length forest)%nat ->
    mva_loop this ev forest (List.length pre) m n = Undefined.
Proof.
  intros Hmode. induction forest as [| tree forest IH];
    intros pre ws m n Hws Hlen; simpl in Hlen; [lia |].
  cbn [mva_loop]. rewrite Hmode. destruct ws as [| w ws].
  - unfold at_index.
    assert (Hnone : nth_error (fBoostWeights this) (List.length pre) = None)
      by (apply nth_error_None; rewrite Hws, app_nil_r; lia).
    now rewrite Hnone.
  - rewrite Hws, at_index_app. cbn [bind].
    replace (S (List.length pre)) with (List.length (pre ++ [w]))
      by (rewrite length_app; simpl; lia).
    apply (IH (pre ++ [w]) ws); [| simpl in Hlen; lia].
    rewrite Hws, <- app_assoc. reflexivity.
Qed.

(** X10.  [GetMvaValue] reads one round weight per tree in weighted mode and
    none in unweighted mode: it is undefined exactly when the mode is
    weighted and there are fewer round weights than trees; round weights
    beyond the size of the forest have no influence. *)
Theorem GetMvaValue_defined :
  let k := List.length (fForest this) in
  (fUseWeightedTrees this = false -> exists x, GetMvaValue this ev = Ret x) /\
  (fUseWeightedTrees this = true ->
   (k <= List.length (fBoostWeights this))%nat ->
   GetMvaValue this ev =
   Ret (ddiv (dsum (weighted_terms (firstn k (fBoostWeights this)) (scores this ev)))
             (dsum (firstn k (fBoostWeights this))))) /\
  (fUseWeightedTrees this = true ->
   (List.length (fBoostWeights this) < k)%nat ->
   GetMvaValue this ev = Undefined).
Proof.
  intros k. unfold k. split; [| split].
  - intros Hmode. rewrite (GetMvaValue_unweighted this ev Hmode). eexists. reflexivity.
  - intros Hmode Hle. unfold GetMvaValue.
    pose proof (mva_loop_weighted_prefix (fForest this) Hmode []
                  (firstn (List.length (fForest this)) (fBoostWeights this))
                  (skipn (List.length (fForest this)) (fBoostWeights this))
                  (Fin 0) (Fin 0)) as Hloop.
    cbn [app List.length] in Hloop.
    rewrite Hloop; [reflexivity | now rewrite firstn_skipn |].
    rewrite length_firstn. lia.
  - intros Hmode Hlt. unfold GetMvaValue.
    pose proof (mva_loop_weighted_short (fForest this) Hmode [] (fBoostWeights this)
                  (Fin 0) (Fin 0) eq_refl Hlt) as Hloop.
    cbn [List.length] in Hloop. now rewrite Hloop.
Qed.

End EvaluationBounds.

Section EvaluationRange.

Import DecisionTree MethodBDT Evaluation Ensemble.

Lemma Rsum_between (lo hi : R) (ss : list R) :
  Forall (fun x => lo <= x <= hi) ss ->
  lo * INR (List.length ss) <= Rsum ss <= hi * INR (List.length ss).
Proof.
  induction 1 as [| x ss Hx _ IH].
  - simpl. lra.
  - cbn [List.length Rsum]. rewrite S_INR. lra.
Qed.

Lemma Rdot_between (lo hi : R) (ws : list R) :
  Forall (fun w => 0 < w) ws ->
  forall ss : list R,
    List.length ws = List.length ss ->
    Forall (fun x => lo <= x <= hi) ss ->
    lo * Rsum ws <= Rdot ws ss <= hi * Rsum ws.
Proof.
  unfold Rdot. induction 1 as [| w ws Hw _ IH]; intros [| x ss] Hlen Hss;
    simpl in Hlen; try discriminate.
  - simpl. lra.
  - inversion Hss as [| ? ? Hx Hss']; subst.
    specialize (IH ss ltac:(lia) Hss').
    cbn [combine map Rsum fst snd]. nra.
Qed.

Lemma Rsum_positive (ws : list R) :
  Forall (fun w => 0 < w) ws -> ws <> [] -> 0 < Rsum ws.
Proof.
  intros Hall Hne. destruct Hall as [| w ws Hw Hall]; [congruence |].
  assert (0 <= Rsum ws).
  { apply Rsum_nonneg. revert Hall. apply Forall_impl. intros; lra. }
  simpl. lra.
Qed.

Lemma quotient_between (lo hi d s : R) :
  0 < s -> lo * s <= d <= hi * s -> lo <= d / s <= hi.
Proof.
  intros Hs [Hlo Hhi].
  assert (Hinv : 0 < / s) by now apply Rinv_0_lt_compat.
  split.
  - replace lo with (lo * s * / s) by (field; lra).
    unfold Rdiv. apply Rmult_le_compat_r; lra.
  - replace hi with (hi * s * / s) by (field; lra).
    unfold Rdiv. apply Rmult_le_compat_r; lra.
Qed.

(** X11.  If every tree of a non-empty forest scores the event within
    [[lo, hi]], the value of [GetMvaValue] lies within [[lo, hi]] as well: in
    unweighted mode always, in weighted mode provided every round weight is
    positive. *)
Theorem GetMvaValue_within_score_range
    (this : MethodBDT.t) (ev : Event.t) (ss : list R) (lo hi : R) :
  fForest this <> [] ->
  scores this ev = map Fin ss ->
  Forall (fun x => lo <= x <= hi) ss ->
  (fUseWeightedTrees this = false ->
   exists r : R, GetMvaValue this ev = Ret (Fin r) /\ lo <= r <= hi) /\
  (forall ws : list R,
      fUseWeightedTrees this = true ->
      fBoostWeights this = map Fin ws ->
      List.length ws = List.length (fForest this) ->
      Forall (fun w => 0 < w) ws ->
      exists r : R, GetMvaValue this ev = Ret (Fin r) /\ lo <= r <= hi).
Proof.
  intros Hne Hss Hrange.
  assert (Hlen : List.length ss = List.length (fForest this)).
  { rewrite <- (length_map Fin ss), <- Hss. unfold scores. apply length_map. }
  assert (Hk : 0 < INR (List.length (fForest this))).
  { apply lt_0_INR. destruct (fForest this); [congruence | simpl; lia]. }
  split.
  - intros Hmode. rewrite (GetMvaValue_unweighted this ev Hmode), Hss, dsum_Fin.
    rewrite ddiv_Fin by lra. eexists. split; [reflexivity |].
    apply quotient_between; [exact Hk |].
    rewrite <- Hlen. now apply Rsum_between.
  - intros ws Hmode Hws Hlw Hpos.
    rewrite (GetMvaValue_weighted this ev Hmode)
      by (rewrite Hws, length_map; exact Hlw).
    rewrite Hws, Hss, weighted_terms_Fin, !dsum_Fin.
    assert (Hs : 0 < Rsum ws).
    { apply Rsum_positive; [exact Hpos |].
      intros ->. simpl in Hlw. destruct (fForest this); [congruence | discriminate]. }
    rewrite ddiv_Fin by lra. eexists. split; [reflexivity |].
    apply quotient_between; [exact Hs |].
    apply Rdot_between; [exact Hpos | lia | exact Hrange].
Qed.

Lemma GetMvaValue_within_score_range_witness :
  let forest := [Fixture.constant_tree (8 / 10) []; Fixture.constant_tree (4 / 10) []] in
  exists r : R,
    GetMvaValue (Fixture.with_forest true forest [2; 3] 0) (Fixture.signal 1)
    = Ret (Fin r) /\
    0 <= r <= 1.
Proof.
  intros forest.
  destruct (GetMvaValue_within_score_range
              (Fixture.with_forest true forest [2; 3] 0) (Fixture.signal 1)
              [8 / 10; 4 / 10] 0 1) as [_ Hw].
  - discriminate.
  - reflexivity.
  - repeat constructor; lra.
  - apply (Hw [2; 3]); try reflexivity. repeat constructor; lra.
Defined.

Lemma GetMvaValue_defined_witness :
  GetMvaValue (Fixture.with_forest true [Fixture.leaf; Fixture.leaf] [1] 0)
              (Fixture.signal 1) = Undefined.
Proof.
  destruct (GetMvaValue_defined
              (Fixture.with_forest true [Fixture.leaf; Fixture.leaf] [1] 0)
              (Fixture.signal 1)) as (_ & _ & Hshort).
  apply Hshort; [reflexivity | simpl; lia].
Defined.

End EvaluationRange.

(* ================================================================== *)
(** ** ReadWeightsFromStream on any stream *)

Section ReadInvariant.

Import DecisionTree MethodBDT Stream Persistence.
Local Open Scope string_scope.

Lemma read_Int_t_range (istr rest : Stream.t) (z : Z) :
  read_Int_t istr = Ret (z, rest) -> (Int_t_min <= z <= Int_t_max)%Z.
Proof.
  unfold read_Int_t. destruct istr as [| w s]; [discriminate |].
  destruct (NilZero.int_of_string w) as [d |]; [| discriminate].
  destruct ((Int_t_min <=? Z.of_int d)%Z && (Z.of_int d <=? Int_t_max)%Z) eqn:E;
    [| discriminate].
  intros H. injection H as <- _.
  apply andb_true_iff in E. destruct E as [E1 E2].
  apply Z.leb_le in E1, E2. lia.
Qed.

Lemma read_trees_lengths (f : Stream.format) (n : nat) :
  forall (i : Z) (F F' : list DecisionTree.t) (W W' : list Double_t)
         (s s' : Stream.t),
    read_trees f n i F W s = Ret (F', W', s') ->
    exists (newF : list DecisionTree.t) (newW : list Double_t),
      F' = (F ++ newF)%list /\ W' = (W ++ newW)%list /\
      List.length newF = n /\ List.length newW = n.
Proof.
  induction n as [| n IH]; intros i F F' W W' s s' H.
  - cbn [read_trees] in H. injection H as <- <- _.
    exists [], []. now rewrite !app_nil_r.
  - cbn [read_trees] in H.
    destruct (read_Int_t s) as [[iTree s1] | |]; cbn [bind] in H; try discriminate H.
    destruct (read_TString s1) as [[dummy s2] | |]; cbn [bind] in H;
      try discriminate H.
    destruct (read_Double_t f s2) as [[w s3] | |]; cbn [bind] in H;
      try discriminate H.
    destruct (negb (iTree =? i)%Z); [discriminate H |].
    destruct (ReadRec f s3) as [[tree s4] | |]; cbn [bind] in H; try discriminate H.
    destruct (IH _ _ _ _ _ _ _ H) as (newF & newW & -> & -> & LF & LW).
    exists (tree :: newF), (w :: newW). rewrite <- !app_assoc.
    repeat split; simpl; lia.
Qed.

(** X12.  Whatever the stream and the format of the trees: when
    [ReadWeightsFromStream] returns, the object holds exactly as many trees
    as round weights, namely the number the stream declared ([fNTrees], an
    [Int_t]; a negative number counts as none), its previous forest and
    round weights are gone, and every other member, the accumulated
    variable importance among them, is as it was. *)
Theorem ReadWeightsFromStream_invariant
    (f : Stream.format) (this this' : MethodBDT.t) (istr rest : Stream.t) :
  ReadWeightsFromStream f this istr = Ret (this', rest) ->
  (Int_t_min <= fNTrees this' <= Int_t_max)%Z /\
  List.length (fForest this') = Z.to_nat (fNTrees this') /\
  List.length (fBoostWeights this') = Z.to_nat (fNTrees this') /\
  this' = set_forest this (fNTrees this') (fForest this') (fBoostWeights this') /\
  fVariableImportance this' = fVariableImportance this.
Proof.
  unfold ReadWeightsFromStream. intros H.
  destruct (read_TString istr) as [[d1 s1] | |]; cbn [bind] in H; try discriminate H.
  destruct (read_Int_t s1) as [[nTrees s2] | |] eqn:Hn; cbn [bind] in H;
    try discriminate H.
  destruct (read_TString s2) as [[d2 s3] | |]; cbn [bind] in H; try discriminate H.
  destruct (read_TString s3) as [[d3 s4] | |]; cbn [bind] in H; try discriminate H.
  destruct (read_trees f (Z.to_nat nTrees) 0 [] [] s4) as [[[F W] r] | |] eqn:Hloop;
    cbn [bind] in H; try discriminate H.
  injection H as <- _.
  destruct (read_trees_lengths f _ _ _ _ _ _ _ _ Hloop)
    as (newF & newW & -> & -> & LF & LW).
  cbn [set_forest fNTrees fForest fBoostWeights fVariableImportance app].
  split; [exact (read_Int_t_range _ _ _ Hn) |].
  repeat split; assumption.
Qed.

Lemma ReadWeightsFromStream_invariant_witness :
  let that := Fixture.with_forest true [Fixture.constant_tree 0 []] [7] 0 in
  exists this' : MethodBDT.t,
    ReadWeightsFromStream Fixture.leaf_format that
      ["NTrees="; "2"; "-999"; "*******Tree"; "0"; "boostWeight"; "1"; "leaf";
       "-999"; "*******Tree"; "1"; "boostWeight"; "1"; "leaf"]
    = Ret (this', []) /\
    List.length (fForest this') = 2%nat /\
    List.length (fBoostWeights this') = 2%nat.
Proof.
  intros that.
  assert (H : exists this',
             ReadWeightsFromStream Fixture.leaf_format that
               ["NTrees="; "2"; "-999"; "*******Tree"; "0"; "boostWeight"; "1"; "leaf";
                "-999"; "*******Tree"; "1"; "boostWeight"; "1"; "leaf"]
             = Ret (this', [])) by (eexists; reflexivity).
  destruct H as [this' H]. exists this'.
  destruct (ReadWeightsFromStream_invariant _ _ _ _ _ H) as (_ & LF & LW & Hset & _).
  split; [exact H |].
  assert (Hn : fNTrees this' = 2%Z).
  { unfold ReadWeightsFromStream in H. cbn in H. injection H as <-. reflexivity. }
  rewrite LF, LW, Hn. split; reflexivity.
Defined.

End ReadInvariant.

(* ================================================================== *)
(** ** TDFInterfaceUtils: selecting and validating column names *)

Section ColumnNames.

Import TDF.
Local Open Scope nat_scope.

Lemma SelectColumns_lengths (n : nat) (names defaultNames cols : ColumnNames_t) :
  SelectColumns n names defaultNames = Ok cols -> List.length cols = n.
Proof.
  unfold SelectColumns. destruct names as [| x names].
  - destruct (Nat.ltb_spec (List.length defaultNames) n) as [Hlt | Hge];
      [discriminate |].
    intros H. injection H as <-. now apply firstn_length_le.
  - destruct (Nat.eqb_spec (List.length (x :: names)) n) as [Heq | Hne]; cbn [negb];
      [| discriminate].
    intros H. now injection H as <-.
Qed.

(** X13.  When [SelectColumns] returns, it returns exactly
    [nRequiredNames] names: the names given, if any were given, and else the
    first [nRequiredNames] default names.  It returns if no name is given
    and there are at least [nRequiredNames] defaults, or if exactly
    [nRequiredNames] names are given, and throws otherwise: names that are
    given but are too few or too many are never made up from the defaults. *)
Theorem SelectColumns_result (n : nat) (names defaultNames : ColumnNames_t) :
  (forall cols : ColumnNames_t,
      SelectColumns n names defaultNames = Ok cols ->
      List.length cols = n /\
      (names <> [] -> cols = names) /\
      (names = [] -> cols = firstn n defaultNames)) /\
  ((exists cols, SelectColumns n names defaultNames = Ok cols) <->
   (names = [] /\ n <= List.length defaultNames) \/
   (names <> [] /\ List.length names = n)).
Proof.
  unfold SelectColumns. destruct names as [| x names].
  - destruct (Nat.ltb_spec (List.length defaultNames) n) as [Hlt | Hge].
    + split; [intros cols H; discriminate H |].
      split; [intros [cols H]; discriminate H |].
      intros [[_ Hle] | [Hne _]]; [lia | congruence].
    + split.
      * intros cols H. injection H as <-.
        split; [apply firstn_length_le; exact Hge |].
        split; [congruence | reflexivity].
      * split; [intros _; left; now split | intros _; eexists; reflexivity].
  - destruct (Nat.eqb_spec (List.length (x :: names)) n) as [Heq | Hne]; cbn [negb].
    + split.
      * intros cols H. injection H as <-. split; [exact Heq |].
        split; [reflexivity | discriminate].
      * split; [intros _; right; split; [discriminate | exact Heq] |
                intros _; eexists; reflexivity].
    + split; [intros cols H; discriminate H |].
      split; [intros [cols H]; discriminate H |].
      intros [[H _] | [_ H]]; [discriminate H | congruence].
Qed.

Lemma SelectColumns_result_witness :
  SelectColumns 2 [] ["x"; "y"; "z"]%string = Ok ["x"; "y"]%string /\
  List.length ["x"; "y"]%string = 2.
Proof.
  destruct (SelectColumns_result 2 [] ["x"; "y"; "z"]%string) as [Hok _].
  split; [reflexivity |].
  exact (proj1 (Hok ["x"; "y"]%string eq_refl)).
Defined.

(** The loop of [FindUnknownColumns] keeps, in their order, the required
    columns that are not known. *)
Lemma FindUnknownColumns_filter (requiredCols : ColumnNames_t)
    (tree : option ColumnNames_t) (definedCols dataSourceColumns : ColumnNames_t) :
  FindUnknownColumns requiredCols tree definedCols dataSourceColumns =
  filter (fun c => negb (is_known tree definedCols dataSourceColumns c)) requiredCols.
Proof.
  unfold FindUnknownColumns.
  assert (H : forall acc,
             fold_left (fun unknownColumns column =>
                          if is_known tree definedCols dataSourceColumns column
                          then unknownColumns
                          else unknownColumns ++ [column]) requiredCols acc
             = acc ++ filter (fun c => negb (is_known tree definedCols
                                                      dataSourceColumns c))
                             requiredCols).
  { induction requiredCols as [| c cols IH]; intros acc; simpl.
    - now rewrite app_nil_r.
    - rewrite IH.
      destruct (is_known tree definedCols dataSourceColumns c); simpl;
        [reflexivity | now rewrite <- app_assoc]. }
  apply (H []).
Qed.

Lemma filter_nil_all (A : Type) (p : A -> bool) (l : list A) :
  filter (fun x => negb (p x)) l = [] <-> Forall (fun x => p x = true) l.
Proof.
  induction l as [| x l IH]; simpl.
  - split; [constructor | reflexivity].
  - destruct (p x) eqn:E; simpl.
    + rewrite IH. split; [now constructor | now inversion 1].
    + split; [discriminate |]. inversion 1; congruence.
Qed.

(** X14.  [GetValidatedColumnNames] passes on what [SelectColumns] throws.
    For the selected columns it returns, if each of them is a branch of the
    tree, a custom column or a column of the data source, as many names as
    were asked for: each selected column, replaced by the column it is an
    alias of if it is one.  If some selected column is none of the three it
    throws, naming in their order the selected columns that are not; so a
    name that is known as an alias only is refused, the lookup in the alias
    map coming after the check. *)
Theorem GetValidatedColumnNames_cases
    (lm : TLoopManager) (n : nat) (columns validCustomColumns : ColumnNames_t)
    (ds : option ColumnNames_t) :
  let dsColumns := match ds with Some cols => cols | None => [] end in
  let known := is_known (GetTree lm) validCustomColumns dsColumns in
  let resolve := fun c => match find_alias (GetAliasMap lm) c with
                          | Some column => column
                          | None => c
                          end in
  (forall e : runtime_error,
      SelectColumns n columns (GetDefaultColumnNames lm) = Throw e ->
      GetValidatedColumnNames lm n columns validCustomColumns ds = Throw e) /\
  (forall selected : ColumnNames_t,
      SelectColumns n columns (GetDefaultColumnNames lm) = Ok selected ->
      (Forall (fun c => known c = true) selected ->
       GetValidatedColumnNames lm n columns validCustomColumns ds
       = Ok (map resolve selected) /\
       List.length (map resolve selected) = n) /\
      (forall c : string,
          In c selected -> known c = false ->
          GetValidatedColumnNames lm n columns validCustomColumns ds
          = Throw (UnknownColumns (filter (fun c => negb (known c)) selected)) /\
          In c (filter (fun c => negb (known c)) selected))).
Proof.
  intros dsColumns known resolve. unfold GetValidatedColumnNames.
  split.
  - intros e ->. reflexivity.
  - intros selected Hsel. rewrite Hsel.
    rewrite FindUnknownColumns_filter. fold dsColumns. fold known.
    split.
    + intros Hall. apply filter_nil_all in Hall. rewrite Hall.
      split; [reflexivity |]. rewrite length_map.
      destruct (SelectColumns_lengths n columns (GetDefaultColumnNames lm) selected Hsel).
      reflexivity.
    + intros c Hin Hunknown.
      assert (Hc : In c (filter (fun c => negb (known c)) selected))
        by (apply filter_In; split; [exact Hin | now rewrite Hunknown]).
      split; [| exact Hc].
      destruct (filter (fun c => negb (known c)) selected); [contradiction | reflexivity].
Qed.

End ColumnNames.

Section ColumnNamesExamples.

Import TDF.
Local Open Scope string_scope.

(** With the alias p for the branch pt: p is resolved to pt when it is
    also among the custom columns, and refused when it is not. *)
Lemma GetValidatedColumnNames_cases_witness :
  let lm := mkLoopManager ["pt"; "eta"] (Some ["pt"; "eta"]) [("p", "pt")] in
  GetValidatedColumnNames lm 1 ["p"] ["p"] None = Ok ["pt"] /\
  GetValidatedColumnNames lm 1 ["p"] [] None = Throw (UnknownColumns ["p"]).
Proof.
  intros lm. split.
  - destruct (GetValidatedColumnNames_cases lm 1 ["p"] ["p"] None) as [_ Hok].
    destruct (Hok ["p"] eq_refl) as [Hall _].
    apply Hall. repeat constructor.
  - destruct (GetValidatedColumnNames_cases lm 1 ["p"] [] None) as [_ Hok].
    destruct (Hok ["p"] eq_refl) as [_ Hbad].
    apply (Hbad "p"); [now left | reflexivity].
Defined.

End ColumnNamesExamples.

(* ================================================================== *)
(** ** TDFInterfaceUtils: UpdateList *)

Section UpdateListProperties.

Import TDF.
Local Open Scope string_scope.

Lemma register_keeps (reg : ListSet.set string) (names : ColumnNames_t) (x : string) :
  registry_of reg names ->
  registry_of (fst (register reg names x)) (snd (register reg names x)) /\
  In x (snd (register reg names x)) /\
  ((In x names /\ snd (register reg names x) = names) \/
   (~ In x names /\ snd (register reg names x) = (names ++ [x])%list)).
Proof.
  intros [Hnd Hreg]. unfold register.
  destruct (ListSet.set_mem string_dec x reg) eqn:E; cbn [fst snd].
  - apply ListSet.set_mem_correct1 in E. apply Hreg in E.
    split; [now split |]. split; [exact E |]. left. now split.
  - apply ListSet.set_mem_complete1 in E.
    assert (Hnot : ~ In x names) by (intros H; apply E; now apply Hreg).
    split; [split |].
    + apply NoDup_app; [exact Hnd | repeat constructor; intros [] |].
      intros y Hy [<- | []]. now apply Hnot.
    + intros y. rewrite ListSet.set_add_iff, in_app_iff, Hreg. simpl.
      intuition congruence.
    + split; [apply in_or_app; right; now left |]. right. now split.
Qed.

(** X15.  [UpdateList] keeps the vector of names free of repetitions and
    the registry equal to the set of its elements.  It leaves the names
    there were in place and appends, each only if it is new, the branch name
    qualified by the name of the friend tree (when there is one) and then the
    branch name; afterwards both are in the vector. *)
Theorem UpdateList_keeps_registry
    (reg : ListSet.set string) (names : ColumnNames_t) (branchName friendName : string) :
  registry_of reg names ->
  let reg' := fst (UpdateList reg names branchName friendName) in
  let names' := snd (UpdateList reg names branchName friendName) in
  registry_of reg' names' /\
  In branchName names' /\
  (friendName <> EmptyString -> In (friendName ++ "." ++ branchName) names') /\
  exists added : ColumnNames_t,
    names' = (names ++ added)%list /\
    Forall (fun x => x = branchName \/
                     (friendName <> EmptyString /\
                      x = friendName ++ "." ++ branchName)) added.
Proof.
  intros Hinv reg' names'. unfold reg', names', UpdateList. clear reg' names'.
  destruct friendName as [| ch friendName].
  - destruct (register_keeps reg names branchName Hinv) as (Hinv' & Hin & Hcase).
    destruct (register reg names branchName) as [r1 n1]. cbn [fst snd] in *.
    split; [exact Hinv' |]. split; [exact Hin |]. split; [congruence |].
    destruct Hcase as [[_ ->] | [_ ->]].
    + exists []. split; [now rewrite app_nil_r | constructor].
    + exists [branchName]. split; [reflexivity |].
      constructor; [now left | constructor].
  - set (friend := String ch friendName).
    destruct (register_keeps reg names (friend ++ "." ++ branchName) Hinv)
      as (Hinv1 & Hin1 & Hcase1).
    destruct (register reg names (friend ++ "." ++ branchName)) as [r1 n1].
    cbn [fst snd] in *.
    destruct (register_keeps r1 n1 branchName Hinv1) as (Hinv2 & Hin2 & Hcase2).
    destruct (register r1 n1 branchName) as [r2 n2]. cbn [fst snd] in *.
    assert (Hfriend : friend <> EmptyString) by discriminate.
    split; [exact Hinv2 |]. split; [exact Hin2 |].
    split.
    + intros _. destruct Hcase2 as [[_ ->] | [_ ->]];
        [exact Hin1 | apply in_or_app; now left].
    + destruct Hcase1 as [[_ ->] | [_ ->]], Hcase2 as [[_ ->] | [_ ->]].
      * exists []. split; [now rewrite app_nil_r | constructor].
      * exists [branchName]. split; [reflexivity |].
        constructor; [now left | constructor].
      * exists [friend ++ "." ++ branchName]. split; [reflexivity |].
        constructor; [right; now split | constructor].
      * exists [friend ++ "." ++ branchName; branchName].
        split; [now rewrite <- app_assoc |].
        constructor; [right; now split |].
        constructor; [now left | constructor].
Qed.

Lemma UpdateList_keeps_registry_witness :
  snd (UpdateList (ListSet.empty_set string) [] "pt" "friend")
  = ["friend.pt"; "pt"] /\
  NoDup (snd (UpdateList (ListSet.empty_set string) [] "pt" "friend")).
Proof.
  assert (Hinv : registry_of (ListSet.empty_set string) []).
  { split; [constructor |]. intros x. split; intros []. }
  destruct (UpdateList_keeps_registry (ListSet.empty_set string) [] "pt" "friend" Hinv)
    as ((Hnd & _) & _).
  split; [reflexivity | exact Hnd].
Defined.

End UpdateListProperties.

(* ================================================================== *)
(** ** TDFInterfaceUtils: Replace *)

Section ReplaceFacts.

Import Ascii TDFReplace.
Local Open Scope nat_scope.

Variables what withWhat : std_string.

Lemma starts_with_length (s : std_string) :
  starts_with what s = true -> List.length what <= List.length s.
Proof.
  revert s. induction what as [| a w IH]; intros s H; [simpl; lia |].
  destruct s as [| b s]; [discriminate H |].
  cbn [starts_with] in H. apply andb_true_iff in H. destruct H as [_ H].
  specialize (IH s H). simpl. lia.
Qed.

(** Searching from the end of a prefix is searching what follows it. *)
Lemma find_after (done rest : std_string) :
  find (done ++ rest) what (List.length done) =
  option_map (Nat.add (List.length done)) (find rest what 0).
Proof.
  induction done as [| c done IH].
  - simpl. destruct (find rest what 0); reflexivity.
  - cbn [app List.length find]. rewrite IH.
    destruct (find rest what 0); reflexivity.
Qed.

Lemma find_bound (s : std_string) :
  forall j : nat, find s what 0 = Some j -> j + List.length what <= List.length s.
Proof.
  induction s as [| c s IH]; intros j H.
  - cbn [find] in H. destruct what; [| discriminate H].
    injection H as <-. simpl. lia.
  - cbn [find] in H.
    destruct (starts_with what (c :: s)) eqn:E.
    + injection H as <-. apply starts_with_length in E. lia.
    + destruct (find s what 0) as [j' |]; [| discriminate H].
      injection H as <-. specialize (IH j' eq_refl). simpl. lia.
Qed.

(** Characters still to skip are characters dropped. *)
Lemma substitute_skip (s : std_string) :
  forall k : nat,
    substitute what withWhat k s = substitute what withWhat 0 (skipn k s).
Proof.
  induction s as [| c s IH]; intros k.
  - now rewrite skipn_nil.
  - destruct k as [| k]; [reflexivity |].
    cbn [substitute skipn]. apply IH.
Qed.

Lemma substitute_not_found (s : std_string) :
  find s what 0 = None -> substitute what withWhat 0 s = (s, 0).
Proof.
  induction s as [| c s IH]; intros H; [reflexivity |].
  cbn [find] in H. cbn [substitute].
  destruct (starts_with what (c :: s)); [discriminate H |].
  destruct (find s what 0); [discriminate H |].
  now rewrite IH.
Qed.

Lemma substitute_found (s : std_string) :
  what <> [] ->
  forall j : nat,
    find s what 0 = Some j ->
    substitute what withWhat 0 s =
    (firstn j s ++ withWhat
       ++ fst (substitute what withWhat 0 (skipn (j + List.length what) s)),
     S (snd (substitute what withWhat 0 (skipn (j + List.length what) s)))).
Proof.
  intros Hne. induction s as [| c s IH]; intros j H.
  - cbn [find] in H. destruct what; [congruence | discriminate H].
  - cbn [find] in H. cbn [substitute].
    destruct (starts_with what (c :: s)) eqn:E.
    + injection H as <-. rewrite substitute_skip.
      replace (skipn (0 + List.length what) (c :: s))
        with (skipn (List.length what - 1) s).
      * destruct (substitute what withWhat 0 (skipn (List.length what - 1) s)).
        reflexivity.
      * destruct what as [| a w]; [congruence |].
        replace (List.length (a :: w) - 1) with (List.length w) by (simpl; lia).
        reflexivity.
    + destruct (find s what 0) as [j' |]; [| discriminate H].
      injection H as <-. rewrite (IH j' eq_refl).
      cbn [Nat.add skipn firstn app fst snd]. reflexivity.
Qed.

Lemma iter_increment_shift (n : nat) (x : Z) :
  Nat.iter n increment (increment x) = Nat.iter (S n) increment x.
Proof. symmetry. apply Nat.iter_succ_r. Qed.

Lemma Replace_loop_step (fuel : nat) (s : std_string) (idx : nat) (num : Z) :
  Replace_loop (S fuel) s what withWhat idx num =
  match find s what idx with
  | None => Some (s, num)
  | Some idx' =>
      Replace_loop fuel (replace s idx' (List.length what) withWhat)
                   what withWhat (idx' + List.length withWhat) (increment num)
  end.
Proof. reflexivity. Qed.

(** The loop, with the part of the string before [idx] settled and the part
    from [idx] on still as it was. *)
Lemma Replace_loop_substitutes :
  what <> [] ->
  forall (m : nat) (rest done : std_string) (num : Z),
    List.length rest <= m ->
    Replace_loop (S m) (done ++ rest) what withWhat (List.length done) num =
    Some (done ++ fst (substitute what withWhat 0 rest),
          Nat.iter (snd (substitute what withWhat 0 rest)) increment num).
Proof.
  intros Hne. induction m as [| m IH]; intros rest done num Hlen.
  - cbn [Replace_loop]. rewrite find_after.
    destruct (find rest what 0) as [j |] eqn:Hf; cbn [option_map].
    + apply find_bound in Hf. destruct what; [congruence | simpl in Hf; lia].
    + now rewrite substitute_not_found.
  - rewrite Replace_loop_step, find_after.
    destruct (find rest what 0) as [j |] eqn:Hf; cbn [option_map].
    + pose proof (find_bound rest j Hf) as Hb.
      assert (Hw : 1 <= List.length what)
        by (destruct what; [congruence | simpl; lia]).
      rewrite (substitute_found rest Hne j Hf). cbn [fst snd].
      set (rest' := skipn (j + List.length what) rest).
      set (done' := done ++ firstn j rest ++ withWhat).
      assert (Hs : replace (done ++ rest) (List.length done + j)
                           (List.length what) withWhat = done' ++ rest').
      { unfold replace, done', rest'.
        rewrite firstn_app, firstn_all2 by lia.
        replace (List.length done + j - List.length done) with j by lia.
        rewrite skipn_app, skipn_all2 by lia.
        replace (List.length done + j + List.length what - List.length done)
          with (j + List.length what) by lia.
        cbn [app]. now rewrite <- !app_assoc. }
      assert (Hi : List.length done + j + List.length withWhat = List.length done').
      { unfold done'. rewrite !length_app, length_firstn. lia. }
      rewrite Hs, Hi.
      assert (Hr : List.length rest' <= m)
        by (unfold rest'; rewrite length_skipn; lia).
      rewrite (IH rest' done' (increment num) Hr).
      rewrite iter_increment_shift. unfold done'.
      now rewrite <- !app_assoc.
    + now rewrite substitute_not_found.
Qed.

End ReplaceFacts.

Section ReplaceProperties.

Import Ascii TDFReplace.
Local Open Scope nat_scope.

Lemma iter_increment (k : nat) :
  Nat.iter k increment 0%Z = (Z.of_nat k mod 2 ^ 32)%Z.
Proof.
  induction k as [| k IH]; [reflexivity |].
  rewrite Nat.iter_succ, IH. unfold increment.
  rewrite Zplus_mod_idemp_l. f_equal. lia.
Qed.

(** Replacing a single character. *)
Lemma substitute_character (a : ascii) (withWhat s : std_string) :
  substitute [a] withWhat 0 s =
  (flat_map (fun c => if Ascii.eqb a c then withWhat else [c]) s,
   List.length (filter (Ascii.eqb a) s)).
Proof.
  induction s as [| c s IH]; [reflexivity |].
  cbn [substitute starts_with List.length Nat.sub flat_map filter].
  rewrite IH. destruct s as [| c' s'];
    destruct (Ascii.eqb a c); cbn [andb starts_with]; reflexivity.
Qed.

(** X16.  For a non-empty [what], [Replace] ends, after at most one test of
    its loop condition per character of [s] and one more, and has then
    replaced, from left to right, every occurrence of [what] that does not
    overlap an occurrence replaced before it, without searching the text it
    put in; it returns the number of replacements, modulo 2^32.  If [what]
    does not occur, [s] is left as it is and 0 is returned; if [what] is the
    single character [a], every [a] is replaced. *)
Theorem Replace_replaces_every_occurrence
    (s what withWhat : std_string) (fuel : nat) :
  what <> [] ->
  List.length s < fuel ->
  Replace fuel s what withWhat =
    Some (fst (substitute what withWhat 0 s),
          (Z.of_nat (snd (substitute what withWhat 0 s)) mod 2 ^ 32)%Z) /\
  (find s what 0 = None -> Replace fuel s what withWhat = Some (s, 0%Z)) /\
  (forall a : ascii,
      what = [a] ->
      Replace fuel s what withWhat =
      Some (flat_map (fun c => if Ascii.eqb a c then withWhat else [c]) s,
            (Z.of_nat (List.length (filter (Ascii.eqb a) s)) mod 2 ^ 32)%Z)).
Proof.
  intros Hne Hfuel.
  assert (Hmain : Replace fuel s what withWhat =
                  Some (fst (substitute what withWhat 0 s),
                        (Z.of_nat (snd (substitute what withWhat 0 s)) mod 2 ^ 32)%Z)).
  { unfold Replace. destruct fuel as [| m]; [lia |].
    pose proof (Replace_loop_substitutes what withWhat Hne m s [] 0%Z ltac:(lia))
      as Hloop.
    cbn [app List.length] in Hloop. rewrite Hloop. now rewrite iter_increment. }
  split; [exact Hmain |]. split.
  - intros Hnone. rewrite Hmain.
    now rewrite (substitute_not_found what withWhat s Hnone).
  - intros a ->. rewrite Hmain. now rewrite substitute_character.
Qed.

(** The call in [FindUsedColumnNames], which puts a backslash before every
    dot of a branch name. *)
Lemma Replace_replaces_every_occurrence_witness :
  Replace 6 (list_ascii_of_string "a.b.c") (list_ascii_of_string ".")
          (list_ascii_of_string "\.")
  = Some (list_ascii_of_string "a\.b\.c", 2%Z).
Proof.
  destruct (Replace_replaces_every_occurrence
              (list_ascii_of_string "a.b.c") (list_ascii_of_string ".")
              (list_ascii_of_string "\.") 6) as (_ & _ & Hchar).
  - discriminate.
  - simpl. lia.
  - rewrite (Hchar "."%char eq_refl). reflexivity.
Defined.

Lemma find_empty (s : std_string) :
  forall idx : nat, idx <= List.length s -> find s [] idx = Some idx.
Proof.
  induction s as [| c s IH]; intros [| idx] H; simpl in H; try lia; try reflexivity.
  cbn [find]. rewrite IH by lia. reflexivity.
Qed.

Lemma Replace_loop_empty (withWhat : std_string) (fuel : nat) :
  forall (s : std_string) (idx : nat) (num : Z),
    idx <= List.length s ->
    Replace_loop fuel s [] withWhat idx num = None.
Proof.
  induction fuel as [| fuel IH]; intros s idx num H; [reflexivity |].
  rewrite Replace_loop_step, find_empty by exact H.
  apply IH. unfold replace.
  rewrite !length_app, length_firstn, length_skipn. cbn [List.length]. lia.
Qed.

(** X17.  With an empty [what] the loop of [Replace] never ends: however
    many times its condition is tested, [find] answers with the position it
    was given, [withWhat] is put in there and the search goes on behind it. *)
Theorem Replace_empty_what_never_ends (s withWhat : std_string) (fuel : nat) :
  Replace fuel s [] withWhat = None.
Proof.
  unfold Replace. apply Replace_loop_empty. lia.
Qed.

End ReplaceProperties.

Section DataSourceColumns.

Import TDF.
Local Open Scope nat_scope.

Lemma contains_In (v : ColumnNames_t) (x : string) :
  contains v x = true <-> In x v.
Proof.
  unfold contains. rewrite existsb_exists. split.
  - intros (y & Hin & Heq). apply String.eqb_eq in Heq. now subst y.
  - intros Hin. exists x. split; [exact Hin | apply String.eqb_refl].
Qed.

Lemma flagged_columns (definedCols requestedCols : ColumnNames_t) :
  map fst (filter snd (combine requestedCols
                               (FindUndefinedDSColumns requestedCols definedCols)))
  = filter (fun c => negb (contains definedCols c)) requestedCols.
Proof.
  unfold FindUndefinedDSColumns.
  induction requestedCols as [| c cols IH]; [reflexivity |].
  cbn [map combine filter snd].
  destruct (contains definedCols c); cbn [negb map fst]; now rewrite IH.
Qed.

(** X18.  [FindUndefinedDSColumns] returns one flag for each requested
    column, at the position of the column; the flag is set exactly when the
    column is not among the defined ones.  The requested columns whose flag
    is set are, in their order, the columns [FindUnknownColumns] returns for
    the same requested and defined columns when there is neither a tree nor
    a data source. *)
Theorem FindUndefinedDSColumns_flags (requestedCols definedCols : ColumnNames_t) :
  List.length (FindUndefinedDSColumns requestedCols definedCols)
    = List.length requestedCols /\
  (forall (i : nat) (c : string),
      nth_error requestedCols i = Some c ->
      exists flag : bool,
        nth_error (FindUndefinedDSColumns requestedCols definedCols) i = Some flag /\
        (flag = true <-> ~ In c definedCols)) /\
  map fst (filter snd (combine requestedCols
                               (FindUndefinedDSColumns requestedCols definedCols)))
    = FindUnknownColumns requestedCols None definedCols [].
Proof.
  split; [apply length_map |]. split.
  - intros i c Hnth. exists (negb (contains definedCols c)). split.
    + unfold FindUndefinedDSColumns. rewrite nth_error_map, Hnth. reflexivity.
    + rewrite negb_true_iff, <- not_true_iff_false, contains_In. reflexivity.
  - rewrite flagged_columns, FindUnknownColumns_filter.
    apply filter_ext. intros c. unfold is_known. cbn [contains existsb].
    now destruct (contains definedCols c).
Qed.

Lemma FindUndefinedDSColumns_flags_witness :
  FindUndefinedDSColumns ["x"; "y"; "z"]%string ["y"]%string = [true; false; true] /\
  exists flag : bool,
    nth_error (FindUndefinedDSColumns ["x"; "y"; "z"]%string ["y"]%string) 2
      = Some flag /\
    (flag = true <-> ~ In "z"%string ["y"]%string).
Proof.
  split; [reflexivity |].
  exact (proj1 (proj2 (FindUndefinedDSColumns_flags
                         ["x"; "y"; "z"]%string ["y"]%string))
               2 "z"%string eq_refl).
Defined.

End DataSourceColumns.
